(** * Velox cuDF offload layer: expression evaluator registries, pipeline
      compiler and checked integer arithmetic.

    Shallow embedding of
    - [velox/experimental/cudf/expression/ExpressionEvaluator.cpp]
      (function registry, evaluator-strategy registry, [FunctionExpression],
      [canBeEvaluatedByCudf], [createCudfExpression], [SubstrFunction]),
    - the pipeline adapter [CompileState::compile] (ToCudf),
    - the checked arithmetic helpers ([checkedModulus]).

    C++ exceptions are modelled by an outcome type, process-wide registries by
    explicit state passing, and the cuDF kernels and other collaborators that
    live outside these files are parameters of the development. *)

From Stdlib Require Import ZArith Lia Bool List String Permutation.
From stdpp Require Import base option list strings gmap pretty.
Import ListNotations.

Set Warnings "-register-all".

Local Open Scope string_scope.
Local Open Scope Z_scope.

(** ** Outcomes of a C++ call *)

(** A call either returns a value, throws a Velox exception ([VELOX_CHECK],
    [VELOX_FAIL], [VELOX_ARITHMETIC_ERROR], ...) carrying its message, or has
    behaviour the C++ standard leaves undefined (a null dereference, an
    out-of-range index, a trapping machine division). *)
Inductive Result (A : Type) : Type :=
| Ok (a : A)
| Fatal (msg : string)
| Undefined.

Arguments Ok {A} a.
Arguments Fatal {A} msg.
Arguments Undefined {A}.

Definition bind {A B : Type} (r : Result A) (k : A -> Result B) : Result B :=
  match r with
  | Ok a => k a
  | Fatal msg => Fatal msg
  | Undefined => Undefined
  end.

Notation "'let*' x ':=' e 'in' k" := (bind e (fun x => k))
  (at level 10, x name, e at level 100, k at level 200, only parsing).

Definition isOk {A : Type} (r : Result A) : bool :=
  match r with Ok _ => true | _ => false end.

Definition isFatal {A : Type} (r : Result A) : bool :=
  match r with Fatal _ => true | _ => false end.

(** [VELOX_CHECK(cond, msg)]. *)
Definition VELOX_CHECK (cond : bool) (msg : string) : Result unit :=
  if cond then Ok tt else Fatal msg.

(** [VELOX_CHECK_GE(e1, e2, msg)] and [VELOX_CHECK_LE(e1, e2, msg)] on
    sizes: the comparison macros put the two values they compared before
    the message, as in ["(0 vs. 2) substr expects at least 2 inputs"]. *)
Definition VELOX_CHECK_GE (e1 e2 : nat) (msg : string) : Result unit :=
  VELOX_CHECK (e2 <=? e1)%nat
    ("(" ++ pretty e1 ++ " vs. " ++ pretty e2 ++ ") " ++ msg).

Definition VELOX_CHECK_LE (e1 e2 : nat) (msg : string) : Result unit :=
  VELOX_CHECK (e1 <=? e2)%nat
    ("(" ++ pretty e1 ++ " vs. " ++ pretty e2 ++ ") " ++ msg).

(** ** Checked arithmetic *)

Module CheckedArithmetic.

(** The integer type [T] a template is instantiated at. *)
Record IntegerType : Type := mkIntegerType {
  isSigned : bool;
  width : Z
}.

Definition int8_t := mkIntegerType true 8.
Definition int16_t := mkIntegerType true 16.
Definition int32_t := mkIntegerType true 32.
Definition int64_t := mkIntegerType true 64.
Definition int128_t := mkIntegerType true 128.
Definition uint8_t := mkIntegerType false 8.
Definition uint32_t := mkIntegerType false 32.
Definition uint64_t := mkIntegerType false 64.

(** [std::numeric_limits<T>::min()] and [max()]. *)
Definition minValue (T : IntegerType) : Z :=
  if isSigned T then - 2 ^ (width T - 1) else 0.

Definition maxValue (T : IntegerType) : Z :=
  if isSigned T then 2 ^ (width T - 1) - 1 else 2 ^ (width T) - 1.

Definition inRange (T : IntegerType) (a : Z) : Prop :=
  minValue T <= a <= maxValue T.

(** Conversion of a mathematical integer to [T] (two's complement). *)
Definition wrap (T : IntegerType) (z : Z) : Z :=
  if isSigned T
  then (z + 2 ^ (width T - 1)) mod 2 ^ (width T) - 2 ^ (width T - 1)
  else z mod 2 ^ (width T).

(** The type the operands have after the usual arithmetic conversions with
    an [int] literal: types narrower than [int] are promoted to [int]. *)
Definition promoted (T : IntegerType) : IntegerType :=
  if width T <? 32 then int32_t else T.

(** [b == 0]. *)
Definition equalsZero (b : Z) : bool := b =? 0.

(** [b == -1]: the literal [-1] is converted to the promoted type, so for an
    unsigned [T] at least as wide as [int] it compares against the largest
    value of [T]. *)
Definition equalsMinusOne (T : IntegerType) (b : Z) : bool :=
  b =? wrap (promoted T) (-1).

(** The machine remainder [a % b] on the promoted operands: truncated
    division; undefined for a zero divisor and when the quotient is not
    representable (the minimum value divided by [-1]). *)
Definition machineRem (T : IntegerType) (a b : Z) : Result Z :=
  if b =? 0 then Undefined
  else if isSigned (promoted T) && (a =? minValue (promoted T)) && (b =? -1)
  then Undefined
  else Ok (Z.rem a b).

Definition checkedModulus (T : IntegerType) (a b : Z) : Result Z :=
  if equalsZero b then Fatal "Cannot divide by 0"
  else if equalsMinusOne T b then Ok 0
  else let* r := machineRem T a b in Ok (wrap T r).

(** Does the mathematical integer [z] fit [T]? *)
Definition fits (T : IntegerType) (z : Z) : bool :=
  (minValue T <=? z) && (z <=? maxValue T).

(** [__builtin_add_overflow], [__builtin_sub_overflow] and
    [__builtin_mul_overflow]: the exact result converted to [T], and whether
    the exact result does not fit [T]. *)
Definition builtin_add_overflow (T : IntegerType) (a b : Z) : Z * bool :=
  (wrap T (a + b), negb (fits T (a + b))).

Definition builtin_sub_overflow (T : IntegerType) (a b : Z) : Z * bool :=
  (wrap T (a - b), negb (fits T (a - b))).

Definition builtin_mul_overflow (T : IntegerType) (a b : Z) : Z * bool :=
  (wrap T (a * b), negb (fits T (a * b))).

(** The message ["{} overflow: {} op {}"]. *)
Definition overflowMessage (typeName op : string) (a b : Z) : string :=
  typeName ++ " overflow: " ++ pretty a ++ " " ++ op ++ " " ++ pretty b.

Definition checkedPlus (T : IntegerType) (a b : Z) (typeName : string)
  : Result Z :=
  let (result, overflow) := builtin_add_overflow T a b in
  if overflow then Fatal (overflowMessage typeName "+" a b) else Ok result.

Definition checkedMinus (T : IntegerType) (a b : Z) (typeName : string)
  : Result Z :=
  let (result, overflow) := builtin_sub_overflow T a b in
  if overflow then Fatal (overflowMessage typeName "-" a b) else Ok result.

Definition checkedMultiply (T : IntegerType) (a b : Z) (typeName : string)
  : Result Z :=
  let (result, overflow) := builtin_mul_overflow T a b in
  if overflow then Fatal (overflowMessage typeName "*" a b) else Ok result.

(** The machine quotient [a / b] on the promoted operands: truncated
    division, undefined where [machineRem] is. *)
Definition machineDiv (T : IntegerType) (a b : Z) : Result Z :=
  if b =? 0 then Undefined
  else if isSigned (promoted T) && (a =? minValue (promoted T)) && (b =? -1)
  then Undefined
  else Ok (Z.quot a b).

(** [checkedDivide] at an integral [T]. *)
Definition checkedDivide (T : IntegerType) (a b : Z) : Result Z :=
  if b =? 0 then Fatal "division by zero"
  else if (a =? minValue T) && equalsMinusOne T b
  then Fatal ("integer overflow: " ++ pretty a ++ " / " ++ pretty b)
  else let* q := machineDiv T a b in Ok (wrap T q).

(** [checkedNegate]; [std::negate] is the unary minus on the promoted
    operand, converted back to [T]. *)
Definition checkedNegate (T : IntegerType) (a : Z) : Result Z :=
  if a =? minValue T then Fatal "Cannot negate minimum value"
  else Ok (wrap T (- a)).

End CheckedArithmetic.

(** ** Expressions *)

(** [core::ExprKind], the kinds of logical expression nodes. *)
Inductive ExprKind : Type :=
| kInput | kFieldAccess | kDereference | kCall | kCast | kConstant | kConcat
| kLambda.

Definition ExprKind_eqb (a b : ExprKind) : bool :=
  match a, b with
  | kInput, kInput | kFieldAccess, kFieldAccess
  | kDereference, kDereference | kCall, kCall | kCast, kCast
  | kConstant, kConstant | kConcat, kConcat | kLambda, kLambda => true
  | _, _ => false
  end.

(** [core::ITypedExpr]: a node of an expression tree of the logical plan.
    [name] is what [CallTypedExpr::name()] returns on a [kCall] node. *)
Inductive TypedExpr : Type :=
| TypedExprNode (kind : ExprKind) (name : string) (inputs : list TypedExpr).

Definition TypedExpr_kind (e : TypedExpr) : ExprKind :=
  match e with TypedExprNode k _ _ => k end.
Definition TypedExpr_name (e : TypedExpr) : string :=
  match e with TypedExprNode _ n _ => n end.
Definition TypedExpr_inputs (e : TypedExpr) : list TypedExpr :=
  match e with TypedExprNode _ _ i => i end.

(** [TypeKind] of a Velox type. *)
Inductive TypeKind : Type :=
| BOOLEAN | TINYINT | SMALLINT | INTEGER | BIGINT | REAL | DOUBLE | VARCHAR
| VARBINARY | TIMESTAMP | HUGEINT | ARRAY | MAP | ROW | UNKNOWN.

(** The value a [ConstantExpr] holds. Only the 64-bit integer constants that
    [SubstrFunction] reads are distinguished; reading any other constant
    through [as<SimpleVector<int64_t>>()] dereferences a null pointer. *)
Inductive ConstantValue : Type :=
| BigintValue (v : Z)
| VarcharValue (v : string)
| OtherValue.

(** The dynamic class of an [exec::Expr], as far as [dynamic_pointer_cast]
    tells them apart here. *)
Inductive ExprClass : Type :=
| FieldReference
| ConstantExpr (value : ConstantValue)
| CallExpr.

(** [exec::Expr]: a node of a compiled Velox expression. The name of a
    [ConstantExpr] is ["literal"], the name of a [FieldReference] is the field
    name. *)
Inductive Expr : Type :=
| ExprNode (cls : ExprClass) (name : string) (type : TypeKind)
           (inputs : list Expr).

Definition Expr_class (e : Expr) : ExprClass :=
  match e with ExprNode c _ _ _ => c end.
Definition Expr_name (e : Expr) : string :=
  match e with ExprNode _ n _ _ => n end.
Definition Expr_type (e : Expr) : TypeKind :=
  match e with ExprNode _ _ t _ => t end.
Definition Expr_inputs (e : Expr) : list Expr :=
  match e with ExprNode _ _ _ i => i end.

Definition isFieldReference (e : Expr) : bool :=
  match Expr_class e with FieldReference => true | _ => false end.

(** [RowType]: the names of the columns of the input row, in order. *)
Definition RowType : Type := list string.

Fixpoint indexOf (name : string) (names : list string) : option nat :=
  match names with
  | [] => None
  | n :: rest =>
      if String.eqb n name then Some 0%nat
      else option_map S (indexOf name rest)
  end.

(** [RowType::getChildIdx], which throws when the field is absent. *)
Definition getChildIdx (schema : RowType) (name : string) : Result nat :=
  match indexOf name schema with
  | Some i => Ok i
  | None => Fatal ("Field not found: " ++ name)
  end.

(** [cudf::numeric_scalar<cudf::size_type>]: a value and its validity. *)
Record NumericScalar : Type := mkScalar {
  scalarValue : Z;
  is_valid : bool
}.

(** [cudf::size_type] is a 32-bit signed integer. *)
Definition size_type : CheckedArithmetic.IntegerType :=
  CheckedArithmetic.int32_t.

(** ** The expression evaluator *)

Module ExpressionEvaluator.
Section WithCudf.

(** The cuDF side: device columns, their type tags and the kernels used. *)
Context {Column data_type : Type}.
Variable veloxToCudfTypeId : TypeKind -> data_type.
Variable data_type_eqb : data_type -> data_type -> bool.
Variable columnType : Column -> data_type.
Variable cudf_cast : Column -> data_type -> Result Column.
Variable slice_strings :
  Column -> NumericScalar -> NumericScalar -> NumericScalar -> Result Column.

(** *** Compiled functions *)

(** A [CudfFunction]: [SubstrFunction] with its three scalars, or any other
    implementation of the interface, given by its [eval]. *)
Inductive CudfFunction : Type :=
| SubstrFunction (startScalar_ endScalar_ stepScalar_ : NumericScalar)
| OtherFunction (evalImpl : list Column -> Result Column).

(** [dynamic_pointer_cast<ConstantExpr>(expr->inputs()[i])] followed by
    [VELOX_CHECK_NOT_NULL] and the read of the 64-bit value at row 0. *)
Definition constantBigintInput (expr : Expr) (i : nat) (msg : string)
  : Result Z :=
  match Expr_inputs expr !! i with
  | None => Undefined
  | Some input =>
      match Expr_class input with
      | ConstantExpr (BigintValue v) => Ok v
      | ConstantExpr _ => Undefined
      | _ => Fatal msg
      end
  end.

(** Signed 32-bit addition; overflow is undefined. *)
Definition size_type_add (a b : Z) : Result Z :=
  if (CheckedArithmetic.minValue size_type <=? a + b)
     && (a + b <=? CheckedArithmetic.maxValue size_type)
  then Ok (a + b) else Undefined.

(** The constructor [SubstrFunction::SubstrFunction]. *)
Definition SubstrFunction_new (expr : Expr) : Result CudfFunction :=
  let n := length (Expr_inputs expr) in
  let* _ := VELOX_CHECK_GE n 2 "substr expects at least 2 inputs" in
  let* _ := VELOX_CHECK_LE n 3 "substr expects at most 3 inputs" in
  let* startValue :=
    constantBigintInput expr 1 "substr start must be a constant" in
  let adjustedStart :=
    if 1 <=? startValue
    then CheckedArithmetic.wrap size_type (startValue - 1)
    else CheckedArithmetic.wrap size_type startValue in
  let startScalar := mkScalar adjustedStart true in
  let* endScalar :=
    if (2 <? n)%nat then
      let* lengthValue :=
        constantBigintInput expr 2 "substr length must be a constant" in
      let* endPosition :=
        size_type_add adjustedStart
          (CheckedArithmetic.wrap size_type lengthValue) in
      Ok (mkScalar endPosition true)
    else Ok (mkScalar 0 false) in
  let stepScalar := mkScalar 1 true in
  Ok (SubstrFunction startScalar endScalar stepScalar).

(** [CudfFunction::eval]. *)
Definition CudfFunction_eval (f : CudfFunction) (inputColumns : list Column)
  : Result Column :=
  match f with
  | SubstrFunction startScalar endScalar stepScalar =>
      match inputColumns with
      | [] => Undefined
      | inputCol :: _ =>
          slice_strings inputCol startScalar endScalar stepScalar
      end
  | OtherFunction evalImpl => evalImpl inputColumns
  end.

(** *** The function registry *)

(** [CudfFunctionFactory]: builds a function from the call name and the
    expression; it may throw, and the pointer it returns may be null. *)
Definition CudfFunctionFactory : Type :=
  string -> Expr -> Result (option CudfFunction).

Abbreviation FunctionRegistry := (gmap string CudfFunctionFactory).

Definition registerCudfFunction (name : string)
    (factory : CudfFunctionFactory) (overwrite : bool)
    (registry : FunctionRegistry) : bool * FunctionRegistry :=
  if negb overwrite && bool_decide (is_Some (registry !! name))
  then (false, registry)
  else (true, <[name := factory]> registry).

Fixpoint registerCudfFunctions (aliases : list string)
    (factory : CudfFunctionFactory) (overwrite : bool)
    (registry : FunctionRegistry) : FunctionRegistry :=
  match aliases with
  | [] => registry
  | name :: rest =>
      registerCudfFunctions rest factory overwrite
        (snd (registerCudfFunction name factory overwrite registry))
  end.

Definition createCudfFunction (registry : FunctionRegistry)
    (name : string) (expr : Expr) : Result (option CudfFunction) :=
  match registry !! name with
  | Some factory => factory name expr
  | None => Ok None
  end.

(** The factory registered for [substr] and [substring]. *)
Definition substrFactory : CudfFunctionFactory :=
  fun _ expr => let* f := SubstrFunction_new expr in Ok (Some f).

(** The [substr] step of [registerBuiltinFunctions]. *)
Definition registerSubstr (prefix : string) (registry : FunctionRegistry)
  : FunctionRegistry :=
  registerCudfFunctions [prefix ++ "substr"; prefix ++ "substring"]
    substrFactory false registry.

(** *** The evaluator-strategy registry *)

(** A compiled expression: a [FunctionExpression] node, or an object built
    by another strategy, given by its [eval]. Pointers to sub-expressions
    may be null. *)
Inductive CudfExpression : Type :=
| FunctionExpression (expr_ : Expr) (inputRowSchema_ : RowType)
    (function_ : option CudfFunction)
    (subexpressions_ : list (option CudfExpression))
| ExternalExpression (evalImpl : list Column -> bool -> Result Column).

(** The [create] closure of an entry: the built-in one, which calls
    [FunctionExpression::create], or a closure of another strategy. *)
Inductive CudfExpressionEvaluatorCreate : Type :=
| FunctionExpressionCreate
| ExternalCreate (f : Expr -> RowType -> Result (option CudfExpression)).

(** [CudfExpressionEvaluatorEntry]. The predicates are [std::function]
    objects, which may be empty; a closure reads the function registry as it
    is when it is called. *)
Record CudfExpressionEvaluatorEntry : Type := mkEntry {
  priority : Z;
  canEvaluate : option (FunctionRegistry -> TypedExpr -> bool);
  canEvaluateCompiled : option (FunctionRegistry -> Expr -> bool);
  create : CudfExpressionEvaluatorCreate
}.

(** The evaluator registry is an [unordered_map]; the list gives its
    entries, each name at most once, in one iteration order. The map itself
    promises no order: what is proved of a selection among entries of equal
    priority is proved for every permutation of the list. *)
Abbreviation EvaluatorRegistry := (list (string * CudfExpressionEvaluatorEntry)).

Fixpoint registryFind (name : string) (registry : EvaluatorRegistry)
  : option CudfExpressionEvaluatorEntry :=
  match registry with
  | [] => None
  | (n, e) :: rest =>
      if String.eqb n name then Some e else registryFind name rest
  end.

(** [registry[name] = entry]. A new name goes to the end of the list; where
    the map itself puts it in its iteration order is not specified. *)
Fixpoint registryAssign (name : string) (entry : CudfExpressionEvaluatorEntry)
    (registry : EvaluatorRegistry) : EvaluatorRegistry :=
  match registry with
  | [] => [(name, entry)]
  | (n, e) :: rest =>
      if String.eqb n name then (n, entry) :: rest
      else (n, e) :: registryAssign name entry rest
  end.

(** The process-wide state of this file: both registries and the static
    flag of [ensureBuiltinExpressionEvaluatorsRegistered]. *)
Record Registries : Type := mkRegistries {
  evaluatorRegistry : EvaluatorRegistry;
  registered : bool;
  functionRegistry : FunctionRegistry
}.

Definition registerCudfExpressionEvaluator (name : string) (priority : Z)
    (canEvaluate : option (FunctionRegistry -> TypedExpr -> bool))
    (canEvaluateCompiled : option (FunctionRegistry -> Expr -> bool))
    (create : CudfExpressionEvaluatorCreate) (overwrite : bool)
    (st : Registries) : bool * Registries :=
  if negb overwrite
     && bool_decide (is_Some (registryFind name (evaluatorRegistry st)))
  then (false, st)
  else (true,
        mkRegistries
          (registryAssign name
             (mkEntry priority canEvaluate canEvaluateCompiled create)
             (evaluatorRegistry st))
          (registered st) (functionRegistry st)).

(** [FunctionExpression::canEvaluate] on a compiled expression. *)
Definition FunctionExpression_canEvaluate (functions : FunctionRegistry)
    (expr : Expr) : bool :=
  if isFieldReference expr then true
  else bool_decide (is_Some (functions !! Expr_name expr)).

(** [FunctionExpression::canEvaluate] on a logical expression. *)
Definition FunctionExpression_canEvaluateTyped
    (functions : FunctionRegistry) (expr : TypedExpr) : bool :=
  if ExprKind_eqb (TypedExpr_kind expr) kFieldAccess
     || ExprKind_eqb (TypedExpr_kind expr) kDereference
     || ExprKind_eqb (TypedExpr_kind expr) kInput
     || ExprKind_eqb (TypedExpr_kind expr) kConstant
  then true
  else if negb (ExprKind_eqb (TypedExpr_kind expr) kCall) then false
  else bool_decide (is_Some (functions !! TypedExpr_name expr)).

Definition kFunctionPriority : Z := 50.

Definition ensureBuiltinExpressionEvaluatorsRegistered (st : Registries)
  : Registries :=
  if registered st then st
  else
    let st' :=
      snd (registerCudfExpressionEvaluator "function" kFunctionPriority
             (Some FunctionExpression_canEvaluateTyped)
             (Some FunctionExpression_canEvaluate)
             FunctionExpressionCreate false st) in
    mkRegistries (evaluatorRegistry st') true (functionRegistry st').

(** *** Feasibility checks *)

(** The loop [for (const auto& [name, entry] : registry)] of the logical
    check: does some entry with a non-empty [canEvaluate] accept [expr]? *)
Definition currentRootSupported (registry : EvaluatorRegistry)
    (functions : FunctionRegistry) (expr : TypedExpr) : bool :=
  existsb
    (fun ne : string * CudfExpressionEvaluatorEntry =>
       match canEvaluate (snd ne) with
       | Some accepts => accepts functions expr
       | None => false
       end)
    registry.

(** [canBeEvaluatedByCudf(const core::TypedExprPtr&)] once the built-in
    evaluators are registered: the root must be claimed, then the overload on
    vectors runs over [expr->inputs()] and stops at the first failure. The
    [LOG_FALLBACK] diagnostics do not change the result and are left out. *)
Fixpoint canBeEvaluatedIn (registry : EvaluatorRegistry)
    (functions : FunctionRegistry) (expr : TypedExpr) {struct expr} : bool :=
  if negb (currentRootSupported registry functions expr) then false
  else
    (fix overExprs (exprs : list TypedExpr) : bool :=
       match exprs with
       | [] => true
       | e :: rest =>
           if negb (canBeEvaluatedIn registry functions e) then false
           else overExprs rest
       end) (TypedExpr_inputs expr).

(** [canBeEvaluatedByCudf(const std::vector<core::TypedExprPtr>&)]. *)
Fixpoint canBeEvaluatedInExprs (registry : EvaluatorRegistry)
    (functions : FunctionRegistry) (exprs : list TypedExpr) : bool :=
  match exprs with
  | [] => true
  | e :: rest =>
      if negb (canBeEvaluatedIn registry functions e) then false
      else canBeEvaluatedInExprs registry functions rest
  end.

(** The entry points first run
    [ensureBuiltinExpressionEvaluatorsRegistered], which changes the state
    on the first call only; the calls nested in the recursion then find the
    flag set. *)
Definition canBeEvaluatedByCudf (st : Registries) (expr : TypedExpr)
  : bool * Registries :=
  let st' := ensureBuiltinExpressionEvaluatorsRegistered st in
  (canBeEvaluatedIn (evaluatorRegistry st') (functionRegistry st') expr, st').

Definition canBeEvaluatedByCudfExprs (st : Registries)
    (exprs : list TypedExpr) : bool * Registries :=
  let st' := ensureBuiltinExpressionEvaluatorsRegistered st in
  (canBeEvaluatedInExprs (evaluatorRegistry st') (functionRegistry st') exprs,
   st').

(** Does [entry] claim the compiled expression? *)
Definition claimsCompiled (functions : FunctionRegistry)
    (entry : CudfExpressionEvaluatorEntry) (expr : Expr) : bool :=
  match canEvaluateCompiled entry with
  | Some accepts => accepts functions expr
  | None => false
  end.

(** [canBeEvaluatedByCudf(std::shared_ptr<velox::exec::Expr>)]. *)
Definition canBeEvaluatedByCudfCompiled (st : Registries) (expr : Expr)
  : bool * Registries :=
  let st' := ensureBuiltinExpressionEvaluatorsRegistered st in
  (existsb
     (fun ne : string * CudfExpressionEvaluatorEntry =>
        claimsCompiled (functionRegistry st') (snd ne) expr)
     (evaluatorRegistry st'),
   st').

(** *** Strategy selection and compilation *)

(** [except && name == *except]. *)
Definition isExcepted (except : option string) (name : string) : bool :=
  match except with
  | Some x => String.eqb name x
  | None => false
  end.

(** The selection loop of [createCudfExpression]: [best] starts out null and
    is replaced by a claiming entry when it is null or of strictly lower
    priority. *)
Fixpoint selectBest (registry : EvaluatorRegistry)
    (functions : FunctionRegistry) (expr : Expr) (except : option string)
    (best : option CudfExpressionEvaluatorEntry)
  : option CudfExpressionEvaluatorEntry :=
  match registry with
  | [] => best
  | (name, entry) :: rest =>
      if isExcepted except name
      then selectBest rest functions expr except best
      else if claimsCompiled functions entry expr
      then
        match best with
        | None => selectBest rest functions expr except (Some entry)
        | Some b =>
            if priority b <? priority entry
            then selectBest rest functions expr except (Some entry)
            else selectBest rest functions expr except best
        end
      else selectBest rest functions expr except best
  end.

(** [createCudfExpression] once the built-in evaluators are registered.
    Inside, [functionExpressionCreate] is [FunctionExpression::create]:
    the node gets its function from the function registry and, when there
    is one, a compiled child for every input whose name is not ["literal"]. *)
Fixpoint createCudfExpressionIn (registry : EvaluatorRegistry)
    (functions : FunctionRegistry) (expr : Expr) (inputRowSchema : RowType)
    (except : option string) {struct expr}
  : Result (option CudfExpression) :=
  let functionExpressionCreate :=
    match expr with
    | ExprNode _ name _ inputs =>
        let* function := createCudfFunction functions name expr in
        let* subexpressions :=
          match function with
          | Some _ =>
              (fix overInputs (l : list Expr)
                 : Result (list (option CudfExpression)) :=
                 match l with
                 | [] => Ok []
                 | input :: rest =>
                     if negb (String.eqb (Expr_name input) "literal")
                     then
                       let* sub :=
                         createCudfExpressionIn registry functions input
                           inputRowSchema None in
                       let* subs := overInputs rest in
                       Ok (sub :: subs)
                     else overInputs rest
                 end) inputs
          | None => Ok []
          end in
        Ok (Some (FunctionExpression expr inputRowSchema function
                    subexpressions))
    end in
  match selectBest registry functions expr except None with
  | Some best =>
      match create best with
      | FunctionExpressionCreate => functionExpressionCreate
      | ExternalCreate f => f expr inputRowSchema
      end
  | None => functionExpressionCreate
  end.

(** The loop of [FunctionExpression::create] over [expr->inputs()]. *)
Fixpoint createSubexpressions (registry : EvaluatorRegistry)
    (functions : FunctionRegistry) (inputRowSchema : RowType)
    (inputs : list Expr) : Result (list (option CudfExpression)) :=
  match inputs with
  | [] => Ok []
  | input :: rest =>
      if negb (String.eqb (Expr_name input) "literal")
      then
        let* sub :=
          createCudfExpressionIn registry functions input inputRowSchema None in
        let* subs :=
          createSubexpressions registry functions inputRowSchema rest in
        Ok (sub :: subs)
      else createSubexpressions registry functions inputRowSchema rest
  end.

(** [FunctionExpression::create]. *)
Definition FunctionExpression_create (registry : EvaluatorRegistry)
    (functions : FunctionRegistry) (expr : Expr) (inputRowSchema : RowType)
  : Result (option CudfExpression) :=
  let* function := createCudfFunction functions (Expr_name expr) expr in
  let* subexpressions :=
    match function with
    | Some _ =>
        createSubexpressions registry functions inputRowSchema
          (Expr_inputs expr)
    | None => Ok []
    end in
  Ok (Some (FunctionExpression expr inputRowSchema function subexpressions)).

(** [createCudfExpression]. *)
Definition createCudfExpression (st : Registries) (expr : Expr)
    (inputRowSchema : RowType) (except : option string)
  : Result (option CudfExpression) * Registries :=
  let st' := ensureBuiltinExpressionEvaluatorsRegistered st in
  (createCudfExpressionIn (evaluatorRegistry st') (functionRegistry st') expr
     inputRowSchema except,
   st').

(** *** Evaluation *)

(** [CudfExpression::eval]; for a [FunctionExpression] this is
    [FunctionExpression::eval]. Children are evaluated without the final
    cast. *)
Fixpoint CudfExpression_eval (e : CudfExpression)
    (inputTableColumns : list Column) (finalize : bool) {struct e}
  : Result Column :=
  match e with
  | ExternalExpression evalImpl => evalImpl inputTableColumns finalize
  | FunctionExpression expr_ inputRowSchema_ function_ subexpressions_ =>
      if isFieldReference expr_ then
        let* columnIndex := getChildIdx inputRowSchema_ (Expr_name expr_) in
        match inputTableColumns !! columnIndex with
        | Some column => Ok column
        | None => Undefined
        end
      else
        match function_ with
        | Some function =>
            let* inputColumns :=
              (fix overSubexpressions (l : list (option CudfExpression))
                 : Result (list Column) :=
                 match l with
                 | [] => Ok []
                 | subexpr :: rest =>
                     let* column :=
                       match subexpr with
                       | Some sub =>
                           CudfExpression_eval sub inputTableColumns false
                       | None => Undefined
                       end in
                     let* columns := overSubexpressions rest in
                     Ok (column :: columns)
                 end) subexpressions_ in
            let* result := CudfFunction_eval function inputColumns in
            if finalize then
              let requestedType := veloxToCudfTypeId (Expr_type expr_) in
              if negb (data_type_eqb (columnType result) requestedType)
              then cudf_cast result requestedType
              else Ok result
            else Ok result
        | None =>
            Fatal ("Unsupported expression for recursive evaluation: "
                   ++ Expr_name expr_)
        end
  end.

End WithCudf.
End ExpressionEvaluator.

(** ** Vocabulary of the properties *)

(** The nodes of a logical expression tree: the root and, through
    [inputs()], every descendant. *)
Fixpoint TypedExpr_nodes (e : TypedExpr) : list TypedExpr :=
  match e with
  | TypedExprNode _ _ inputs =>
      e :: (fix overInputs (l : list TypedExpr) : list TypedExpr :=
              match l with
              | [] => []
              | x :: rest => (TypedExpr_nodes x ++ overInputs rest)%list
              end) inputs
  end.

(** A node is claimed when some registered strategy has a [canEvaluate]
    predicate that accepts it. *)
Definition claimedBy {Column : Type}
    (registry : list (string *
                      @ExpressionEvaluator.CudfExpressionEvaluatorEntry Column))
    (functions : gmap string (@ExpressionEvaluator.CudfFunctionFactory Column))
    (node : TypedExpr) : Prop :=
  exists name entry accepts,
    In (name, entry) registry /\
    ExpressionEvaluator.canEvaluate entry = Some accepts /\
    accepts functions node = true.

(** What [createCudfExpression] does with the entry it selected. *)
Definition runCreate {Column : Type}
    (registry : list (string *
                      @ExpressionEvaluator.CudfExpressionEvaluatorEntry Column))
    (functions : gmap string (@ExpressionEvaluator.CudfFunctionFactory Column))
    (entry : @ExpressionEvaluator.CudfExpressionEvaluatorEntry Column)
    (expr : Expr) (inputRowSchema : RowType)
  : Result (option (@ExpressionEvaluator.CudfExpression Column)) :=
  match ExpressionEvaluator.create entry with
  | ExpressionEvaluator.FunctionExpressionCreate =>
      ExpressionEvaluator.FunctionExpression_create registry functions expr
        inputRowSchema
  | ExpressionEvaluator.ExternalCreate f => f expr inputRowSchema
  end.

(** A strategy is a candidate for [expr] when it is not the excluded one and
    its [canEvaluateCompiled] accepts [expr]. *)
Definition candidate {Column : Type}
    (functions : gmap string (@ExpressionEvaluator.CudfFunctionFactory Column))
    (expr : Expr) (except : option string) (name : string)
    (entry : @ExpressionEvaluator.CudfExpressionEvaluatorEntry Column) : bool :=
  negb (ExpressionEvaluator.isExcepted except name)
  && ExpressionEvaluator.claimsCompiled functions entry expr.

(** [best] is, in iteration order, the first candidate of the highest
    priority among the candidates of the registry. *)
Definition firstOfHighestPriority {Column : Type}
    (registry : list (string *
                      @ExpressionEvaluator.CudfExpressionEvaluatorEntry Column))
    (functions : gmap string (@ExpressionEvaluator.CudfFunctionFactory Column))
    (expr : Expr) (except : option string)
    (best : @ExpressionEvaluator.CudfExpressionEvaluatorEntry Column) : Prop :=
  exists before name after,
    registry = (before ++ (name, best) :: after)%list /\
    candidate functions expr except name best = true /\
    (forall n e, In (n, e) before ->
       candidate functions expr except n e = true ->
       ExpressionEvaluator.priority e < ExpressionEvaluator.priority best) /\
    (forall n e, In (n, e) after ->
       candidate functions expr except n e = true ->
       ExpressionEvaluator.priority e <= ExpressionEvaluator.priority best).

(** The entry that [ensureBuiltinExpressionEvaluatorsRegistered] registers. *)
Definition builtinFunctionEvaluator {Column : Type}
  : @ExpressionEvaluator.CudfExpressionEvaluatorEntry Column :=
  ExpressionEvaluator.mkEntry ExpressionEvaluator.kFunctionPriority
    (Some ExpressionEvaluator.FunctionExpression_canEvaluateTyped)
    (Some ExpressionEvaluator.FunctionExpression_canEvaluate)
    ExpressionEvaluator.FunctionExpressionCreate.

(** The inputs of a call that are compiled: those not named ["literal"]. *)
Definition nonLiteralInputs (expr : Expr) : list Expr :=
  List.filter (fun input => negb (String.eqb (Expr_name input) "literal"))
    (Expr_inputs expr).

(** A 64-bit integer literal, a column reference and a call, as compiled
    expressions. *)
Definition literalBigint (v : Z) : Expr :=
  ExprNode (ConstantExpr (BigintValue v)) "literal" BIGINT [].

Definition fieldReference (name : string) (type : TypeKind) : Expr :=
  ExprNode FieldReference name type [].

Definition call (name : string) (type : TypeKind) (inputs : list Expr) : Expr :=
  ExprNode CallExpr name type inputs.

(** ** The pipeline compiler *)

Module ToCudf.

(** [core::JoinType]. *)
Inductive JoinType : Type :=
| kInner | kLeft | kRight | kFull | kLeftSemiFilter | kLeftSemiProject
| kRightSemiFilter | kRightSemiProject | kAnti.

Definition isAnti (joinType : JoinType) : bool :=
  match joinType with kAnti => true | _ => false end.

(** The partitioning of a local-partition node, as far as the spec tells
    the kinds apart: content-independent (round-robin) or by hash. *)
Inductive PartitionFunctionSpec : Type :=
| RoundRobinPartition
| HashPartition.

(** The classes of plan nodes the compiler casts to, with the fields it
    reads. *)
Inductive PlanNodeClass : Type :=
| TableScanNode (connectorId : string)
| ProjectNode (projections : list TypedExpr)
| FilterNode (filter : TypedExpr)
| HashJoinNode (joinType : JoinType) (isNullAware : bool)
               (filter : option TypedExpr)
| OrderByNode
| AggregationNode
| LimitNode
| LocalPartitionNode (partitionFunctionSpec : PartitionFunctionSpec)
| AssignUniqueIdNode
| OtherNode.

(** [core::PlanNode]. *)
Record PlanNode : Type := mkPlanNode {
  nodeId : string;
  nodeClass : PlanNodeClass
}.

(** The operator classes [isAnyOf] and [dynamic_cast] test for; none of
    them derives from another. *)
Inductive OperatorClass : Type :=
| OrderBy | TopN | HashAggregation | HashProbe | HashBuild
| StreamingAggregation | Limit | LocalPartition | LocalExchange
| FilterProject | AssignUniqueId | TableScan | Values | CallbackSink
| OtherOperator.

Definition OperatorClass_eqb (a b : OperatorClass) : bool :=
  match a, b with
  | OrderBy, OrderBy | TopN, TopN | HashAggregation, HashAggregation
  | HashProbe, HashProbe | HashBuild, HashBuild
  | StreamingAggregation, StreamingAggregation | Limit, Limit
  | LocalPartition, LocalPartition | LocalExchange, LocalExchange
  | FilterProject, FilterProject | AssignUniqueId, AssignUniqueId
  | TableScan, TableScan | Values, Values | CallbackSink, CallbackSink
  | OtherOperator, OtherOperator => true
  | _, _ => false
  end.

(** [exec::Operator]. [operatorId] tells the operator objects of a driver
    apart. [filterNode] is what [FilterProject::filterNode()] returns,
    represented by the predicate of the filter node; it is absent on the
    other classes. *)
Record Operator : Type := mkOperator {
  operatorId : Z;
  planNodeId : string;
  operatorClass : OperatorClass;
  filterNode : option TypedExpr
}.

(** [isAnyOf<Deriveds...>(op)]. *)
Definition isAnyOf (classes : list OperatorClass) (op : Operator) : bool :=
  existsb (OperatorClass_eqb (operatorClass op)) classes.

(** What the driver holds after compilation: operators it had, and the cuDF
    operators. An adapter is given by its name, [planNode->id() + suffix],
    a counterpart by the plan node it is built from; the operator id, the
    output type and the driver context that the constructors also receive
    are left out. *)
Inductive DriverOperator : Type :=
| Velox (op : Operator)
| CudfFromVelox (name : string)
| CudfToVelox (name : string)
| CudfHashJoinBuild (planNode : PlanNode)
| CudfHashJoinProbe (planNode : PlanNode)
| CudfOrderBy (planNode : PlanNode)
| CudfHashAggregation (planNode : PlanNode)
| CudfFilterProject (filterPlanNode : option TypedExpr)
                    (projectPlanNode : option PlanNode)
| CudfLimit (planNode : PlanNode)
| CudfLocalPartition (planNode : PlanNode)
| CudfAssignUniqueId (planNode : PlanNode).

(** [exec::DriverFactory], the fields read here. *)
Record DriverFactory : Type := mkDriverFactory {
  planNodes : list PlanNode;
  consumerNode : option PlanNode;
  outputDriver : bool
}.

(** The classes of connectors [isTableScanSupported] tells apart. *)
Inductive ConnectorClass : Type :=
| CudfHiveConnector
| OtherConnector.

(** Modelled from the spec: [DriverFactory::replaceOperators] is not among
    the sources. The spec gives it as the pipeline-mutation primitive
    [replaceOperators(pipeline, startIndex, endIndexExclusive, newOperators)]:
    the operators in [begin, end) give way to [replaceWith]. *)
Definition replaceOperators (operators : list DriverOperator)
    (begin end_ : nat) (replaceWith : list DriverOperator)
  : list DriverOperator :=
  (take begin operators ++ replaceWith ++ drop end_ operators)%list.

(** Modelled from the spec: [CudfLocalPartition::shouldReplace] is not among
    the sources. The spec has round-robin (content-independent) local
    partitioning kept on the host path and hash partitioning replaced. *)
Definition shouldReplace (spec : PartitionFunctionSpec) : bool :=
  match spec with
  | HashPartition => true
  | RoundRobinPartition => false
  end.

Section Compile.

(** Collaborators outside these files: the connector registry, the join
    types [CudfHashJoinProbe::isSupportedJoinType] accepts, and the
    evaluator registries that [canBeEvaluatedByCudf] consults. *)
Context {Column : Type}.
Variable getConnector : string -> Result ConnectorClass.
Variable isSupportedJoinType : JoinType -> bool.
Variable registries : @ExpressionEvaluator.Registries Column.
Variable driverFactory_ : DriverFactory.

(** [canBeEvaluatedByCudf] on a vector of expressions. Its only effect on the
    registries is the one-time registration of the built-in strategy, so
    every call made during one compilation sees the same registries. *)
Definition canBeEvaluatedByCudf (exprs : list TypedExpr) : bool :=
  fst (ExpressionEvaluator.canBeEvaluatedByCudfExprs registries exprs).

(** The lambda [getPlanNode]. *)
Definition getPlanNode (id : string) : Result PlanNode :=
  match List.find (fun node => String.eqb (nodeId node) id)
          (planNodes driverFactory_) with
  | Some node => Ok node
  | None =>
      match consumerNode driverFactory_ with
      | None => Undefined
      | Some consumer =>
          let* _ := VELOX_CHECK (String.eqb (nodeId consumer) id)
                      "driverFactory_.consumerNode->id() == id" in
          Ok consumer
      end
  end.

Definition isTableScanSupported (op : Operator) : Result bool :=
  if negb (isAnyOf [TableScan] op) then Ok false
  else
    let* node := getPlanNode (planNodeId op) in
    match nodeClass node with
    | TableScanNode connectorId =>
        let* connector := getConnector connectorId in
        match connector with
        | CudfHiveConnector => Ok true
        | OtherConnector => Ok false
        end
    | _ => Fatal "tableScanNode != nullptr"
    end.

Definition isFilterProjectSupported (op : Operator) : Result bool :=
  if isAnyOf [FilterProject] op then
    let* node := getPlanNode (planNodeId op) in
    let canBeEvaluated :=
      match nodeClass node with
      | ProjectNode projections => canBeEvaluatedByCudf projections
      | _ => true
      end in
    let canBeEvaluated :=
      match filterNode op with
      | Some filter =>
          if canBeEvaluated && negb (canBeEvaluatedByCudf [filter])
          then false else canBeEvaluated
      | None => canBeEvaluated
      end in
    Ok canBeEvaluated
  else Ok false.

Definition isJoinSupported (op : Operator) : Result bool :=
  if negb (isAnyOf [HashBuild; HashProbe] op) then Ok false
  else
    let* node := getPlanNode (planNodeId op) in
    match nodeClass node with
    | HashJoinNode joinType isNullAware filter =>
        if negb (isSupportedJoinType joinType) then Ok false
        else if isAnti joinType && isNullAware
                && match filter with Some _ => true | None => false end
        then Ok false
        else Ok true
    | _ => Ok false
    end.

(** [a || b] where [b] is only evaluated when [a] is false. *)
Definition orElse (a : bool) (b : Result bool) : Result bool :=
  if a then Ok true else b.

(** [a && b] where [b] is only evaluated when [a] is true. *)
Definition andThen (a : bool) (b : Result bool) : Result bool :=
  if a then b else Ok false.

Definition isSupportedGpuOperator (op : Operator) : Result bool :=
  orElse (isAnyOf [OrderBy; HashAggregation; Limit; LocalPartition;
                   LocalExchange; AssignUniqueId] op)
    (let* fp := isFilterProjectSupported op in
     orElse fp
       (let* join := isJoinSupported op in
        orElse join (isTableScanSupported op))).

Definition acceptsGpuInput (op : Operator) : Result bool :=
  orElse (isAnyOf [OrderBy; HashAggregation; Limit; LocalPartition;
                   AssignUniqueId] op)
    (let* fp := isFilterProjectSupported op in
     orElse fp (isJoinSupported op)).

Definition producesGpuOutput (op : Operator) : Result bool :=
  orElse (isAnyOf [OrderBy; HashAggregation; Limit; LocalExchange;
                   AssignUniqueId] op)
    (let* fp := isFilterProjectSupported op in
     orElse fp
       (let* probe := andThen (isAnyOf [HashProbe] op) (isJoinSupported op) in
        orElse probe (isTableScanSupported op))).

Definition GpuReplacedOperator (op : Operator) : bool :=
  isAnyOf [OrderBy; TopN; HashAggregation; HashProbe; HashBuild;
           StreamingAggregation; Limit; LocalPartition; LocalExchange;
           FilterProject; AssignUniqueId] op.

Definition GpuRetainedOperator (op : Operator) : Result bool :=
  orElse (isAnyOf [Values; LocalExchange; CallbackSink] op)
    (andThen (isAnyOf [TableScan] op) (isTableScanSupported op)).

(** [std::transform] with [isSupportedGpuOperator]. *)
Fixpoint classify (operators : list Operator) : Result (list bool) :=
  match operators with
  | [] => Ok []
  | op :: rest =>
      let* b := isSupportedGpuOperator op in
      let* bs := classify rest in
      Ok (b :: bs)
  end.

(** [getPlanNode] followed by the cast to the expected class and
    [VELOX_CHECK(planNode != nullptr)]. *)
Definition getPlanNodeAs (expected : PlanNodeClass -> bool) (id : string)
  : Result PlanNode :=
  let* node := getPlanNode id in
  let* _ := VELOX_CHECK (expected (nodeClass node)) "planNode != nullptr" in
  Ok node.

Definition isTableScanNode (c : PlanNodeClass) : bool :=
  match c with TableScanNode _ => true | _ => false end.
Definition isProjectNode (c : PlanNodeClass) : bool :=
  match c with ProjectNode _ => true | _ => false end.
Definition isHashJoinNode (c : PlanNodeClass) : bool :=
  match c with HashJoinNode _ _ _ => true | _ => false end.
Definition isOrderByNode (c : PlanNodeClass) : bool :=
  match c with OrderByNode => true | _ => false end.
Definition isAggregationNode (c : PlanNodeClass) : bool :=
  match c with AggregationNode => true | _ => false end.
Definition isLimitNode (c : PlanNodeClass) : bool :=
  match c with LimitNode => true | _ => false end.
Definition isLocalPartitionNode (c : PlanNodeClass) : bool :=
  match c with LocalPartitionNode _ => true | _ => false end.
Definition isAssignUniqueIdNode (c : PlanNodeClass) : bool :=
  match c with AssignUniqueIdNode => true | _ => false end.

(** The state of the loop of [CompileState::compile]: the operators of the
    driver, which [replaceOperators] changes in place, the running offset
    between positions in the original and in the current sequence, the
    result flag, and the warnings logged so far. Indices are natural
    numbers; the 32-bit counters of the source cannot overflow on a
    pipeline of fewer than 2^30 operators. *)
Record CompileLoop : Type := mkCompileLoop {
  driverOperators : list DriverOperator;
  operatorsOffset : nat;
  replacementsMade : bool;
  warnings : list string
}.

Definition isEmpty {A : Type} (l : list A) : bool :=
  match l with [] => true | _ => false end.

Definition isSome {A : Type} (o : option A) : bool :=
  match o with Some _ => true | None => false end.

(** The first block of the loop body: the from-velox adapter, built when
    the previous operator is not GPU and this one accepts GPU input. *)
Definition fromVeloxFor (isSupportedGpuOperators : list bool)
    (operatorIndex : nat) (oper : Operator) : Result (list DriverOperator) :=
  let previousOperatorIsNotGpu :=
    (0 <? operatorIndex)%nat
    && negb (nth (operatorIndex - 1) isSupportedGpuOperators false) in
  let* accepts := andThen previousOperatorIsNotGpu (acceptsGpuInput oper) in
  if accepts then
    let* planNode := getPlanNode (planNodeId oper) in
    Ok [CudfFromVelox (nodeId planNode ++ "-from-velox")]
  else Ok [].

(** The chain of branches that sets [keepOperator] and pushes the cuDF
    counterpart of the operator on [replaceOp]. *)
Definition replacementFor (oper : Operator)
  : Result (nat * list DriverOperator) :=
  let* tableScan := isTableScanSupported oper in
  if tableScan then
    let* _ := getPlanNodeAs isTableScanNode (planNodeId oper) in
    Ok (1%nat, [])
  else
  let* join := isJoinSupported oper in
  if join then
    if isAnyOf [HashBuild] oper then
      let* planNode := getPlanNodeAs isHashJoinNode (planNodeId oper) in
      Ok (0%nat, [CudfHashJoinBuild planNode])
    else if isAnyOf [HashProbe] oper then
      let* planNode := getPlanNodeAs isHashJoinNode (planNodeId oper) in
      Ok (0%nat, [CudfHashJoinProbe planNode])
    else Ok (0%nat, [])
  else if isAnyOf [OrderBy] oper then
    let* planNode := getPlanNodeAs isOrderByNode (planNodeId oper) in
    Ok (0%nat, [CudfOrderBy planNode])
  else if isAnyOf [HashAggregation] oper then
    let* planNode := getPlanNodeAs isAggregationNode (planNodeId oper) in
    Ok (0%nat, [CudfHashAggregation planNode])
  else
  let* filterProject := isFilterProjectSupported oper in
  if filterProject then
    let* node := getPlanNode (planNodeId oper) in
    let projectPlanNode :=
      if isProjectNode (nodeClass node) then Some node else None in
    let filterPlanNode := filterNode oper in
    let* _ :=
      VELOX_CHECK (isSome projectPlanNode || isSome filterPlanNode)
        "projectPlanNode != nullptr or filterPlanNode != nullptr" in
    Ok (0%nat, [CudfFilterProject filterPlanNode projectPlanNode])
  else if isAnyOf [Limit] oper then
    let* planNode := getPlanNodeAs isLimitNode (planNodeId oper) in
    Ok (0%nat, [CudfLimit planNode])
  else if isAnyOf [LocalPartition] oper then
    let* planNode := getPlanNodeAs isLocalPartitionNode (planNodeId oper) in
    match nodeClass planNode with
    | LocalPartitionNode spec =>
        if shouldReplace spec
        then Ok (0%nat, [CudfLocalPartition planNode])
        else Ok (1%nat, [])
    | _ => Ok (1%nat, [])
    end
  else if isAnyOf [LocalExchange] oper then Ok (1%nat, [])
  else if isAnyOf [AssignUniqueId] oper then
    let* planNode := getPlanNodeAs isAssignUniqueIdNode (planNodeId oper) in
    Ok (0%nat, [CudfAssignUniqueId planNode])
  else Ok (1%nat, []).

(** The to-velox block: the adapter is pushed when the operator produces
    GPU output and the next operator is not GPU or this is the last
    operator of the task. *)
Definition toVeloxFor (isSupportedGpuOperators : list bool) (size : nat)
    (operatorIndex : nat) (oper : Operator) : Result (list DriverOperator) :=
  let nextOperatorIsNotGpu :=
    (operatorIndex <? size - 1)%nat
    && negb (nth (operatorIndex + 1) isSupportedGpuOperators false) in
  let isLastOperatorOfTask :=
    outputDriver driverFactory_ && (operatorIndex =? size - 1)%nat in
  let* produces := producesGpuOutput oper in
  if produces && (nextOperatorIsNotGpu || isLastOperatorOfTask) then
    let* planNode := getPlanNode (planNodeId oper) in
    Ok [CudfToVelox (nodeId planNode ++ "-to-velox")]
  else Ok [].

(** [condition]: a replaced operator has a non-empty [replaceOp] and is not
    kept, or a retained operator has an empty [replaceOp] and is kept. *)
Definition conditionFor (oper : Operator) (keepOperator : nat)
    (replaceOp : list DriverOperator) : Result bool :=
  orElse (GpuReplacedOperator oper && negb (isEmpty replaceOp)
          && (keepOperator =? 0)%nat)
    (let* retained := GpuRetainedOperator oper in
     Ok (retained && isEmpty replaceOp && (keepOperator =? 1)%nat)).

Definition replacementFailed : string :=
  "Replacement with cuDF operator failed".
Definition fallingBack : string :=
  "Replacement with cuDF operator failed. Falling back to CPU execution".

(** One iteration of the loop. *)
Definition compileOperator (allowCpuFallback : bool)
    (isSupportedGpuOperators : list bool) (size : nat)
    (operatorIndex : nat) (oper : Operator) (loop : CompileLoop)
  : Result CompileLoop :=
  let replacingOperatorIndex := (operatorIndex + operatorsOffset loop)%nat in
  let* replaceOp := fromVeloxFor isSupportedGpuOperators operatorIndex oper in
  let loop :=
    if negb (isEmpty replaceOp) then
      mkCompileLoop
        (replaceOperators (driverOperators loop) replacingOperatorIndex
           replacingOperatorIndex replaceOp)
        (operatorsOffset loop + length replaceOp)
        true
        (warnings loop)
    else loop in
  let replacingOperatorIndex := (operatorIndex + operatorsOffset loop)%nat in
  let* replacement := replacementFor oper in
  let keepOperator := fst replacement in
  let* toVelox := toVeloxFor isSupportedGpuOperators size operatorIndex oper in
  let replaceOp := (snd replacement ++ toVelox)%list in
  let* condition := conditionFor oper keepOperator replaceOp in
  let* _ :=
    if negb allowCpuFallback then VELOX_CHECK condition replacementFailed
    else Ok tt in
  let loop :=
    if allowCpuFallback && negb condition
    then mkCompileLoop (driverOperators loop) (operatorsOffset loop)
           (replacementsMade loop) (warnings loop ++ [fallingBack])%list
    else loop in
  if negb (isEmpty replaceOp) then
    Ok (mkCompileLoop
          (replaceOperators (driverOperators loop)
             (replacingOperatorIndex + keepOperator)
             (replacingOperatorIndex + 1) replaceOp)
          (operatorsOffset loop + (length replaceOp - 1 + keepOperator))
          true
          (warnings loop))
  else Ok loop.

(** The loop over the operators the driver had on entry. *)
Fixpoint compileLoop (allowCpuFallback : bool)
    (isSupportedGpuOperators : list bool) (size : nat)
    (operatorIndex : nat) (operators : list Operator) (loop : CompileLoop)
  : Result CompileLoop :=
  match operators with
  | [] => Ok loop
  | oper :: rest =>
      let* loop' :=
        compileOperator allowCpuFallback isSupportedGpuOperators size
          operatorIndex oper loop in
      compileLoop allowCpuFallback isSupportedGpuOperators size
        (S operatorIndex) rest loop'
  end.

(** [CompileState::compile] on a driver holding [operators]: the result
    flag together with the operators of the driver and the warnings logged.
    The debug logging is left out. *)
Definition compile (allowCpuFallback : bool) (operators : list Operator)
  : Result (bool * list DriverOperator * list string) :=
  let* isSupportedGpuOperators := classify operators in
  let* loop :=
    compileLoop allowCpuFallback isSupportedGpuOperators (length operators)
      0%nat operators
      (mkCompileLoop (map Velox operators) 0%nat false []) in
  Ok (replacementsMade loop, driverOperators loop, warnings loop).

(** *** One iteration, read as a plan *)

(** What one iteration decides for its operator: the adapter put before
    it, [keepOperator], the cuDF counterpart, the adapter put after it, and
    the value of [condition]. *)
Record OperatorPlan : Type := mkPlan {
  adapterBefore : list DriverOperator;
  keepOperator : nat;
  replacement : list DriverOperator;
  adapterAfter : list DriverOperator;
  condition : bool
}.

Definition planOperator (isSupportedGpuOperators : list bool) (size : nat)
    (operatorIndex : nat) (oper : Operator) : Result OperatorPlan :=
  let* before := fromVeloxFor isSupportedGpuOperators operatorIndex oper in
  let* replacement := replacementFor oper in
  let* after := toVeloxFor isSupportedGpuOperators size operatorIndex oper in
  let* condition :=
    conditionFor oper (fst replacement) (snd replacement ++ after)%list in
  Ok (mkPlan before (fst replacement) (snd replacement) after condition).

Fixpoint planAll (isSupportedGpuOperators : list bool) (size : nat)
    (operatorIndex : nat) (operators : list Operator)
  : Result (list OperatorPlan) :=
  match operators with
  | [] => Ok []
  | oper :: rest =>
      let* plan :=
        planOperator isSupportedGpuOperators size operatorIndex oper in
      let* plans :=
        planAll isSupportedGpuOperators size (S operatorIndex) rest in
      Ok (plan :: plans)
  end.

(** The operators that stand for [oper] once its iteration is over: the
    operator itself when it is kept or nothing replaces it, else its
    counterpart. *)
Definition mainOf (oper : Operator) (plan : OperatorPlan)
  : list DriverOperator :=
  if isEmpty (replacement plan ++ adapterAfter plan)%list then [Velox oper]
  else ((if (keepOperator plan =? 0)%nat then [] else [Velox oper])
        ++ replacement plan)%list.

(** The stretch of the compiled pipeline that belongs to [oper]. *)
Definition planSegment (oper : Operator) (plan : OperatorPlan)
  : list DriverOperator :=
  (adapterBefore plan ++ mainOf oper plan ++ adapterAfter plan)%list.

Fixpoint segments (operators : list Operator) (plans : list OperatorPlan)
  : list DriverOperator :=
  match operators, plans with
  | oper :: rest, plan :: plans' =>
      (planSegment oper plan ++ segments rest plans')%list
  | _, _ => []
  end.

(** Is this operator a to-velox adapter? *)
Definition isToVelox (d : DriverOperator) : bool :=
  match d with CudfToVelox _ => true | _ => false end.

(** Is this operator one of the two boundary adapters? *)
Definition isAdapter (d : DriverOperator) : bool :=
  match d with CudfFromVelox _ | CudfToVelox _ => true | _ => false end.

(** Is this operator one the driver had on entry? *)
Definition isVelox (d : DriverOperator) : bool :=
  match d with Velox _ => true | _ => false end.

(** Does the iteration change the driver? *)
Definition changes (plan : OperatorPlan) : bool :=
  negb (isEmpty (adapterBefore plan))
  || negb (isEmpty (replacement plan ++ adapterAfter plan)%list).

(** The warnings of a run that allows the fallback. *)
Definition fallbackWarnings (plans : list OperatorPlan) : list string :=
  flat_map (fun plan => if condition plan then [] else [fallingBack]) plans.

(** [CudfDriverAdapter::operator()] on a driver holding [operators].
    [queryEnabled] is the entry of the query configuration for
    [CudfConfig::kCudfEnabled], when there is one, and [enabled] the setting
    of the [CudfConfig] instance, which is its default. When the adapter
    returns early the driver is left as it was. *)
Definition CudfDriverAdapter (allowCpuFallback_ : bool)
    (queryEnabled : option bool) (enabled : bool) (operators : list Operator)
  : Result (bool * list DriverOperator * list string) :=
  if negb (default enabled queryEnabled) && allowCpuFallback_
  then Ok (false, map Velox operators, [])
  else compile allowCpuFallback_ operators.

End Compile.
End ToCudf.

(** ** A small concrete configuration *)

(** Columns of strings with the identity as slice kernel stand in for the
    device side when a property is run on concrete inputs. *)
Module Sample.
Import ExpressionEvaluator.

Definition Column : Type := list string.

Definition veloxToCudfTypeId (t : TypeKind) : TypeKind := t.
Definition data_type_eqb (a b : TypeKind) : bool := true.
Definition columnType (c : Column) : TypeKind := VARCHAR.
Definition cudf_cast (c : Column) (t : TypeKind) : Result Column := Ok c.
Definition slice_strings (c : Column) (start stop step : NumericScalar)
  : Result Column := Ok c.

Definition eval : CudfExpression -> list Column -> bool -> Result Column :=
  CudfExpression_eval veloxToCudfTypeId data_type_eqb columnType cudf_cast
    slice_strings.

(** The function registry holding the two substring aliases. *)
Definition functions : gmap string (@CudfFunctionFactory Column) :=
  registerSubstr "" ∅.

(** The state before anything touched the evaluator registry. *)
Definition initial : @Registries Column := mkRegistries [] false functions.

(** A second strategy of priority 100 that claims every compiled expression
    and builds an object of its own. *)
Definition astExpression : @CudfExpression Column :=
  ExternalExpression (fun columns _ =>
                        match columns with c :: _ => Ok c | [] => Undefined end).

Definition registerAst (st : @Registries Column) : @Registries Column :=
  snd (registerCudfExpressionEvaluator "ast" 100
         (Some (fun _ _ => true)) (Some (fun _ _ => true))
         (ExternalCreate (fun _ _ => Ok (Some astExpression))) false st).

Definition astEntry : @CudfExpressionEvaluatorEntry Column :=
  mkEntry 100 (Some (fun _ _ => true)) (Some (fun _ _ => true))
    (ExternalCreate (fun _ _ => Ok (Some astExpression))).

Definition schema : RowType := ["c0"; "c1"].

Definition c0 : Expr := fieldReference "c0" VARCHAR.
Definition c1 : Expr := fieldReference "c1" BIGINT.

(** A plan with a values source, a sort, a top-n and two local partitions,
    and the operators built for its nodes. *)
Definition getConnector (connectorId : string) : Result ToCudf.ConnectorClass :=
  if String.eqb connectorId "cudf-hive" then Ok ToCudf.CudfHiveConnector
  else Ok ToCudf.OtherConnector.

Definition isSupportedJoinType (joinType : ToCudf.JoinType) : bool :=
  match joinType with
  | ToCudf.kFull | ToCudf.kLeftSemiProject | ToCudf.kRightSemiProject => false
  | _ => true
  end.

Definition valuesNode := ToCudf.mkPlanNode "values" ToCudf.OtherNode.
Definition orderByNode := ToCudf.mkPlanNode "orderby" ToCudf.OrderByNode.
Definition topNNode := ToCudf.mkPlanNode "topn" ToCudf.OtherNode.
Definition roundRobinNode :=
  ToCudf.mkPlanNode "lp-rr" (ToCudf.LocalPartitionNode ToCudf.RoundRobinPartition).
Definition hashNode :=
  ToCudf.mkPlanNode "lp-hash" (ToCudf.LocalPartitionNode ToCudf.HashPartition).

Definition driverFactory (outputDriver : bool) : ToCudf.DriverFactory :=
  ToCudf.mkDriverFactory
    [valuesNode; orderByNode; topNNode; roundRobinNode; hashNode] None
    outputDriver.

Definition valuesOp := ToCudf.mkOperator 0 "values" ToCudf.Values None.
Definition orderByOp := ToCudf.mkOperator 1 "orderby" ToCudf.OrderBy None.
Definition topNOp := ToCudf.mkOperator 1 "topn" ToCudf.TopN None.
Definition roundRobinOp :=
  ToCudf.mkOperator 1 "lp-rr" ToCudf.LocalPartition None.
Definition hashOp := ToCudf.mkOperator 1 "lp-hash" ToCudf.LocalPartition None.

(** [compile] on a driver of the sample plan. *)
Definition compile (outputDriver allowCpuFallback : bool)
    (operators : list ToCudf.Operator) :=
  ToCudf.compile getConnector isSupportedJoinType initial
    (driverFactory outputDriver) allowCpuFallback operators.

End Sample.

(** ** A second configuration: a scan, a projection and a hash join *)

Module JoinSample.

Definition scanNode :=
  ToCudf.mkPlanNode "scan" (ToCudf.TableScanNode "cudf-hive").
Definition projectNode :=
  ToCudf.mkPlanNode "project"
    (ToCudf.ProjectNode
       [TypedExprNode kCall "substr"
          [TypedExprNode kFieldAccess "c0" [];
           TypedExprNode kConstant "" []]]).
Definition joinNode :=
  ToCudf.mkPlanNode "join" (ToCudf.HashJoinNode ToCudf.kInner false None).
Definition exchangeNode := ToCudf.mkPlanNode "exchange" ToCudf.OtherNode.
Definition sinkNode := ToCudf.mkPlanNode "sink" ToCudf.OtherNode.

(** The sink is the consumer of the pipeline, not one of its plan nodes. *)
Definition driverFactory : ToCudf.DriverFactory :=
  ToCudf.mkDriverFactory [scanNode; projectNode; joinNode; exchangeNode]
    (Some sinkNode) false.

Definition scanOp := ToCudf.mkOperator 0 "scan" ToCudf.TableScan None.
Definition projectOp := ToCudf.mkOperator 1 "project" ToCudf.FilterProject None.
Definition buildOp := ToCudf.mkOperator 2 "join" ToCudf.HashBuild None.
Definition exchangeOp :=
  ToCudf.mkOperator 0 "exchange" ToCudf.LocalExchange None.
Definition sinkOp := ToCudf.mkOperator 3 "sink" ToCudf.CallbackSink None.

Definition compile (allowCpuFallback : bool)
    (operators : list ToCudf.Operator) :=
  ToCudf.compile Sample.getConnector Sample.isSupportedJoinType Sample.initial
    driverFactory allowCpuFallback operators.

End JoinSample.

(* ===================================================================== *)
(** * Properties *)
(* ===================================================================== *)

Section CheckedModulus.
Import CheckedArithmetic.

Lemma pow2_double w : 0 < w -> 2 ^ w = 2 * 2 ^ (w - 1).
Proof.
  intros Hw. rewrite <- Z.pow_succ_r by lia. f_equal. lia.
Qed.

Lemma wrap_inRange T z :
  0 < width T -> inRange T z -> wrap T z = z.
Proof.
  unfold inRange, wrap, minValue, maxValue. intros Hw Hz.
  pose proof (pow2_double (width T) Hw) as H2.
  assert (0 < 2 ^ (width T - 1)) by (apply Z.pow_pos_nonneg; lia).
  destruct (isSigned T).
  - rewrite Z.mod_small by lia. lia.
  - apply Z.mod_small. lia.
Qed.

(** The truncated remainder never leaves the interval spanned by zero and
    the dividend. *)
Lemma rem_between a b :
  b <> 0 -> Z.abs (Z.rem a b) <= Z.abs a.
Proof.
  intros Hb.
  rewrite <- Z.rem_abs by assumption.
  apply Z.rem_le; lia.
Qed.

Lemma rem_inRange T a b :
  0 < width T -> inRange T a -> b <> 0 -> inRange T (Z.rem a b).
Proof.
  unfold inRange, minValue, maxValue. intros Hw Ha Hb0.
  assert (0 < 2 ^ (width T - 1)) by (apply Z.pow_pos_nonneg; lia).
  assert (0 < 2 ^ width T) by (apply Z.pow_pos_nonneg; lia).
  pose proof (rem_between a b Hb0) as Habs.
  destruct (Z.le_gt_cases 0 a) as [Hpos | Hneg].
  - pose proof (Z.rem_nonneg a b Hb0 Hpos) as Hnn.
    destruct (isSigned T); lia.
  - pose proof (Z.rem_nonpos a b Hb0 ltac:(lia)) as Hnp.
    destruct (isSigned T); lia.
Qed.

(** On a signed type the C++ test [b == -1] is the mathematical one. *)
Lemma equalsMinusOne_signed T b :
  0 < width T -> isSigned T = true ->
  equalsMinusOne T b = true <-> b = -1.
Proof.
  intros Hw Hs. unfold equalsMinusOne.
  assert (Hp : wrap (promoted T) (-1) = -1).
  { apply wrap_inRange; unfold promoted, inRange, minValue, maxValue;
      destruct (width T <? 32) eqn:E; simpl; try lia.
    rewrite Hs.
    assert (0 < 2 ^ (width T - 1)) by (apply Z.pow_pos_nonneg; lia). lia. }
  rewrite Hp. apply Z.eqb_eq.
Qed.

(** [b == -1] spelled out by the type: on a signed type it is [b = -1]; on
    an unsigned type at least as wide as [int] it is [b] being the largest
    value of the type; on a narrower unsigned type it never holds. *)
Lemma equalsMinusOne_iff T b :
  0 < width T -> inRange T b ->
  (equalsMinusOne T b = true <->
   (isSigned T = true /\ b = -1) \/
   (isSigned T = false /\ 32 <= width T /\ b = maxValue T)).
Proof.
  intros Hw [Hlo Hhi]. unfold equalsMinusOne, promoted.
  rewrite Z.eqb_eq.
  destruct (width T <? 32) eqn:E32.
  - change (wrap int32_t (-1)) with (-1). apply Z.ltb_lt in E32.
    unfold minValue, maxValue in *.
    destruct (isSigned T) eqn:Hs.
    + split; [intros ->; left; auto | intros [[_ ->] | [? _]]];
        [reflexivity | discriminate].
    + split; [lia | intros [[? _] | [_ [? _]]]]; [discriminate | lia].
  - apply Z.ltb_ge in E32.
    assert (Hpow : 1 < 2 ^ width T).
    { apply Z.lt_le_trans with (2 ^ 32); [lia |].
      apply Z.pow_le_mono_r; lia. }
    unfold wrap, minValue, maxValue in *.
    destruct (isSigned T) eqn:Hs.
    + pose proof (pow2_double (width T) Hw).
      assert (1 < 2 ^ (width T - 1)).
      { apply Z.lt_le_trans with (2 ^ 31); [lia |].
        apply Z.pow_le_mono_r; lia. }
      rewrite Z.mod_small by lia.
      replace (-1 + 2 ^ (width T - 1) - 2 ^ (width T - 1)) with (-1) by lia.
      split; [intros ->; left; auto | intros [[_ ->] | [? _]]];
        [reflexivity | discriminate].
    + rewrite <- (Z.mod_unique (-1) (2 ^ width T) (-1) (2 ^ width T - 1))
        by lia.
      split; [intros ->; right; auto | intros [[? _] | [_ [_ ->]]]];
        [discriminate | reflexivity].
Qed.

(** C10, as the code has it. For every integer type and in-range operands,
    [checkedModulus] raises the arithmetic error exactly when [b] is 0 and
    never has undefined behaviour. The test [b == -1] returns 0 without the
    remainder being evaluated; on a signed type it holds exactly of
    [b = -1], so the unrepresentable minimum modulo [-1] is never reached,
    but on an unsigned type of at least 32 bits it holds exactly of the
    largest value of the type, for which 0 is then returned in place of the
    remainder. For every other nonzero [b], and so for every nonzero [b]
    other than [-1] on a signed type and every nonzero [b] on a narrower
    unsigned type, the truncated remainder [a % b] is returned, and it fits
    the type. *)
Theorem checkedModulus_spec (T : IntegerType) (a b : Z) :
  0 < width T -> inRange T a -> inRange T b ->
  (checkedModulus T a b = Fatal "Cannot divide by 0" <-> b = 0) /\
  (isFatal (checkedModulus T a b) = true <-> b = 0) /\
  (equalsMinusOne T b = true <->
   (isSigned T = true /\ b = -1) \/
   (isSigned T = false /\ 32 <= width T /\ b = maxValue T)) /\
  (equalsMinusOne T b = true -> checkedModulus T a b = Ok 0) /\
  (isSigned T = true -> b = -1 -> checkedModulus T a b = Ok 0) /\
  (isSigned T = false -> 32 <= width T -> b = maxValue T ->
   checkedModulus T a b = Ok 0 /\
   (0 < a < maxValue T -> Z.rem a b = a /\ Z.rem a b <> 0)) /\
  (b <> 0 -> equalsMinusOne T b = false ->
     machineRem T a b = Ok (Z.rem a b) /\
     checkedModulus T a b = Ok (Z.rem a b) /\
     inRange T (Z.rem a b)) /\
  (isSigned T = true -> b <> 0 -> b <> -1 ->
   checkedModulus T a b = Ok (Z.rem a b)) /\
  (isSigned T = false -> width T < 32 -> b <> 0 ->
   checkedModulus T a b = Ok (Z.rem a b)) /\
  (isSigned T = false -> b <> 0 -> b <> maxValue T ->
   checkedModulus T a b = Ok (Z.rem a b)) /\
  checkedModulus T a b <> Undefined.
Proof.
  intros Hw Ha Hb.
  pose proof (equalsMinusOne_iff T b Hw Hb) as Hiff.
  assert (Hm1 : equalsMinusOne T b = true -> b <> 0).
  { intros E. apply Hiff in E as [[_ ->] | [Hs [H32 ->]]]; [lia |].
    unfold maxValue. rewrite Hs.
    assert (1 < 2 ^ width T).
    { apply Z.lt_le_trans with (2 ^ 32); [lia |].
      apply Z.pow_le_mono_r; lia. }
    lia. }
  assert (Hrem : b <> 0 -> equalsMinusOne T b = false ->
                 machineRem T a b = Ok (Z.rem a b)).
  { intros Hb0 Hne. unfold machineRem.
    destruct (b =? 0) eqn:E0; [apply Z.eqb_eq in E0; lia |].
    destruct (isSigned (promoted T)) eqn:Hs; simpl; [| reflexivity].
    destruct (b =? -1) eqn:E1; [| rewrite andb_false_r; reflexivity].
    apply Z.eqb_eq in E1. exfalso.
    unfold equalsMinusOne in Hne. apply Z.eqb_neq in Hne. apply Hne.
    rewrite wrap_inRange; [assumption | |].
    - unfold promoted. destruct (width T <? 32); simpl; lia.
    - unfold inRange, minValue, maxValue. rewrite Hs.
      assert (0 < 2 ^ (width (promoted T) - 1)).
      { apply Z.pow_pos_nonneg; [lia |].
        unfold promoted. destruct (width T <? 32); simpl; lia. }
      lia. }
  assert (Hother : b <> 0 -> equalsMinusOne T b = false ->
                   checkedModulus T a b = Ok (Z.rem a b)).
  { intros Hb0 Hne. unfold checkedModulus, equalsZero.
    destruct (b =? 0) eqn:E0; [apply Z.eqb_eq in E0; lia |].
    rewrite Hne, (Hrem Hb0 Hne). simpl.
    rewrite wrap_inRange; auto using rem_inRange. }
  assert (Hone : equalsMinusOne T b = true -> checkedModulus T a b = Ok 0).
  { intros E. unfold checkedModulus, equalsZero.
    destruct (b =? 0) eqn:E0; [apply Z.eqb_eq in E0; specialize (Hm1 E); lia |].
    rewrite E. reflexivity. }
  assert (Hzero : b = 0 -> checkedModulus T a b = Fatal "Cannot divide by 0").
  { intros ->. reflexivity. }
  assert (Hcases : b = 0 \/ (b <> 0 /\ equalsMinusOne T b = true) \/
                   (b <> 0 /\ equalsMinusOne T b = false)).
  { destruct (Z.eq_dec b 0); [auto |].
    destruct (equalsMinusOne T b); auto. }
  assert (Hnot : ~ ((isSigned T = true /\ b = -1) \/
                    (isSigned T = false /\ 32 <= width T /\ b = maxValue T)) ->
                 equalsMinusOne T b = false).
  { intros Hno. destruct (equalsMinusOne T b) eqn:E; [| reflexivity].
    exfalso. apply Hno, Hiff. reflexivity. }
  split.
  { split; [| exact Hzero].
    intros Hf. destruct Hcases as [? | [[? E] | [? E]]]; auto.
    - rewrite (Hone E) in Hf. discriminate.
    - rewrite (Hother H E) in Hf. discriminate. }
  split.
  { split; [| intros ->; reflexivity].
    intros Hf. destruct Hcases as [? | [[? E] | [? E]]]; auto.
    - rewrite (Hone E) in Hf. discriminate.
    - rewrite (Hother H E) in Hf. discriminate. }
  split; [exact Hiff |].
  split; [exact Hone |].
  split; [intros Hs ->; apply Hone, Hiff; left; auto |].
  split.
  { intros Hs H32 Hmax. split; [apply Hone, Hiff; right; auto |].
    intros Hrange. subst b.
    rewrite Z.rem_small by lia. split; [reflexivity | lia]. }
  split.
  { intros Hb0 Hne. split; [apply Hrem; assumption |].
    split; [apply Hother; assumption |].
    apply (rem_inRange T a b Hw Ha Hb0). }
  split.
  { intros Hs Hb0 Hb1. apply Hother; [assumption |]. apply Hnot.
    intros [[_ ?] | [? _]]; [contradiction | congruence]. }
  split.
  { intros Hs H32 Hb0. apply Hother; [assumption |]. apply Hnot.
    intros [[? _] | [_ [? _]]]; [congruence | lia]. }
  split.
  { intros Hs Hb0 Hmax. apply Hother; [assumption |]. apply Hnot.
    intros [[? _] | [_ [_ ?]]]; [congruence | contradiction]. }
  destruct Hcases as [? | [[? E] | [? E]]].
  - rewrite (Hzero H). discriminate.
  - rewrite (Hone E). discriminate.
  - rewrite (Hother H E). discriminate.
Qed.

(** The unrepresentable case on [int64_t]: the minimum value modulo [-1]
    returns 0, although the machine remainder itself would trap. *)
Lemma checkedModulus_spec_witness :
  let T := int64_t in
  let a := - 2 ^ 63 in
  let b := -1 in
  machineRem T a b = Undefined /\
  checkedModulus T a b = Ok 0 /\
  checkedModulus T a b <> Undefined.
Proof.
  intros T a b.
  assert (Hw : 0 < width T) by (simpl; lia).
  assert (Ha : inRange T a) by (vm_compute; split; discriminate).
  assert (Hb : inRange T b) by (vm_compute; split; discriminate).
  destruct (checkedModulus_spec T a b Hw Ha Hb)
    as (_ & _ & _ & _ & Hone & _ & _ & _ & _ & _ & Hdef).
  split; [reflexivity |].
  split; [apply Hone; reflexivity | exact Hdef].
Defined.

(** On [uint64_t] the divisor [2^64 - 1] is neither 0 nor [-1], and 7
    modulo it is 7; [checkedModulus] returns 0, since the divisor compares
    equal to [-1]. *)
Lemma checkedModulus_unsigned_max_is_not_remainder :
  let T := uint64_t in
  let a := 7 in
  let b := 2 ^ 64 - 1 in
  inRange T a /\ inRange T b /\ b <> 0 /\ b <> -1 /\
  Z.rem a b = 7 /\
  checkedModulus T a b = Ok 0 /\
  checkedModulus T a b <> Ok (Z.rem a b).
Proof.
  intros T a b.
  split; [split; discriminate |].
  split; [split; discriminate |].
  split; [discriminate |].
  split; [discriminate |].
  split; [reflexivity |].
  split; [reflexivity | discriminate].
Defined.

End CheckedModulus.

(** ** The other checked operations *)

Section CheckedOperations.
Import CheckedArithmetic.

Lemma fits_inRange T z : fits T z = true <-> inRange T z.
Proof.
  unfold fits, inRange. rewrite andb_true_iff, !Z.leb_le. reflexivity.
Qed.

Lemma fits_false T z : fits T z = false <-> ~ inRange T z.
Proof.
  rewrite <- fits_inRange. destruct (fits T z); split; congruence.
Qed.

(** The three overflow-checked operations share one shape. *)
Lemma checked_overflow_shape T (exact : Z) (message : string) :
  0 < width T ->
  let run := if negb (fits T exact) then Fatal message
             else Ok (wrap T exact) in
  (forall c, run = Ok c <-> c = exact /\ inRange T exact) /\
  (~ inRange T exact -> run = Fatal message) /\
  run <> Undefined.
Proof.
  intros Hw run. subst run.
  destruct (fits T exact) eqn:Hfit; cbn [negb].
  - apply fits_inRange in Hfit. rewrite (wrap_inRange T exact Hw Hfit).
    split; [| split]; try discriminate.
    + intros c. split.
      * intros H. inversion H; subst. split; [reflexivity | assumption].
      * intros [-> _]. reflexivity.
    + intros Hn. contradiction.
  - apply fits_false in Hfit.
    split; [| split]; try discriminate; auto.
    intros c. split; [discriminate | intros [_ H]; contradiction].
Qed.

(** [checkedPlus] returns the exact sum exactly when the sum fits [T], and
    raises the overflow error otherwise; the order of the operands changes
    the message only. *)
Theorem checkedPlus_exact (T : IntegerType) (a b : Z) (typeName : string) :
  0 < width T ->
  (forall c, checkedPlus T a b typeName = Ok c
             <-> c = a + b /\ inRange T (a + b)) /\
  (~ inRange T (a + b) ->
   checkedPlus T a b typeName = Fatal (overflowMessage typeName "+" a b)) /\
  checkedPlus T a b typeName <> Undefined /\
  (forall c, checkedPlus T a b typeName = Ok c
             <-> checkedPlus T b a typeName = Ok c).
Proof.
  intros Hw.
  pose proof (checked_overflow_shape T (a + b)
                (overflowMessage typeName "+" a b) Hw) as (Hok & Hfail & Hdef).
  pose proof (checked_overflow_shape T (b + a)
                (overflowMessage typeName "+" b a) Hw) as (Hok' & _ & _).
  unfold checkedPlus, builtin_add_overflow.
  split; [exact Hok |]. split; [exact Hfail |]. split; [exact Hdef |].
  intros c. rewrite (Hok c), (Hok' c), (Z.add_comm b a). reflexivity.
Qed.

(** [checkedMinus] returns the exact difference exactly when it fits [T];
    on operands of type [T] it undoes a successful [checkedPlus], and a
    successful [checkedMinus] is undone by [checkedPlus]. *)
Theorem checkedMinus_exact (T : IntegerType) (a b : Z) (typeName : string) :
  0 < width T -> inRange T a ->
  (forall c, checkedMinus T a b typeName = Ok c
             <-> c = a - b /\ inRange T (a - b)) /\
  (~ inRange T (a - b) ->
   checkedMinus T a b typeName = Fatal (overflowMessage typeName "-" a b)) /\
  (forall c, checkedPlus T a b typeName = Ok c ->
             checkedMinus T c b typeName = Ok a) /\
  (forall c, checkedMinus T a b typeName = Ok c ->
             checkedPlus T c b typeName = Ok a).
Proof.
  intros Hw Ha.
  pose proof (checked_overflow_shape T (a - b)
                (overflowMessage typeName "-" a b) Hw) as (Hok & Hfail & _).
  split; [exact Hok |]. split; [exact Hfail |]. split.
  - intros c Hc.
    apply (proj1 (checked_overflow_shape T (a + b)
                    (overflowMessage typeName "+" a b) Hw)) in Hc as [-> _].
    pose proof (checked_overflow_shape T (a + b - b)
                  (overflowMessage typeName "-" (a + b) b) Hw) as (Hok' & _).
    apply Hok'. replace (a + b - b) with a by lia. auto.
  - intros c Hc. apply Hok in Hc as [-> _].
    apply (proj1 (checked_overflow_shape T (a - b + b)
                    (overflowMessage typeName "+" (a - b) b) Hw)).
    replace (a - b + b) with a by lia. auto.
Qed.

(** [checkedMultiply] returns the exact product exactly when it fits [T];
    on a signed type the minimum value times [-1] overflows. *)
Theorem checkedMultiply_exact (T : IntegerType) (a b : Z) (typeName : string) :
  0 < width T ->
  (forall c, checkedMultiply T a b typeName = Ok c
             <-> c = a * b /\ inRange T (a * b)) /\
  (~ inRange T (a * b) ->
   checkedMultiply T a b typeName
   = Fatal (overflowMessage typeName "*" a b)) /\
  (forall c, checkedMultiply T a b typeName = Ok c
             <-> checkedMultiply T b a typeName = Ok c) /\
  (isSigned T = true ->
   checkedMultiply T (minValue T) (-1) typeName
   = Fatal (overflowMessage typeName "*" (minValue T) (-1))).
Proof.
  intros Hw.
  pose proof (checked_overflow_shape T (a * b)
                (overflowMessage typeName "*" a b) Hw) as (Hok & Hfail & _).
  pose proof (checked_overflow_shape T (b * a)
                (overflowMessage typeName "*" b a) Hw) as (Hok' & _ & _).
  split; [exact Hok |]. split; [exact Hfail |]. split.
  - intros c. unfold checkedMultiply, builtin_mul_overflow.
    rewrite (Hok c), (Hok' c), (Z.mul_comm b a). reflexivity.
  - intros Hs.
    pose proof (checked_overflow_shape T (minValue T * -1)
                  (overflowMessage typeName "*" (minValue T) (-1)) Hw)
      as (_ & Hfail' & _).
    apply Hfail'. unfold inRange, minValue, maxValue. rewrite Hs.
    assert (0 < 2 ^ (width T - 1)) by (apply Z.pow_pos_nonneg; lia). lia.
Qed.

Lemma promoted_width T : 0 < width T -> 0 < width (promoted T).
Proof.
  intros Hw. unfold promoted. destruct (width T <? 32); simpl; lia.
Qed.

(** On operands of type [T] the machine division is reached only where it
    is defined, once the two guards of [checkedDivide] have been passed. *)
Lemma machineDiv_defined T a b :
  0 < width T -> inRange T a -> b <> 0 ->
  (a =? minValue T) && equalsMinusOne T b = false ->
  machineDiv T a b = Ok (Z.quot a b).
Proof.
  intros Hw Ha Hb Hguard. unfold machineDiv.
  destruct (b =? 0) eqn:E0; [apply Z.eqb_eq in E0; lia |].
  destruct (isSigned (promoted T)) eqn:Hs; cbn [andb]; [| reflexivity].
  destruct (a =? minValue (promoted T)) eqn:Ea; cbn [andb]; [| reflexivity].
  destruct (b =? -1) eqn:E1; [| reflexivity].
  exfalso. apply Z.eqb_eq in Ea, E1.
  unfold promoted in *. destruct (width T <? 32) eqn:E32.
  - apply Z.ltb_lt in E32. unfold inRange, minValue, maxValue in *.
    cbn in Ea. assert (2 ^ (width T - 1) < 2 ^ 31)
      by (apply Z.pow_lt_mono_r; lia).
    assert (0 < 2 ^ (width T - 1)) by (apply Z.pow_pos_nonneg; lia).
    destruct (isSigned T); lia.
  - assert (Hone : equalsMinusOne T b = true)
      by (apply equalsMinusOne_signed; assumption).
    rewrite Hone, andb_true_r in Hguard.
    apply Z.eqb_neq in Hguard. contradiction.
Qed.

(** The truncated quotient of operands of type [T] fits [T], except for the
    minimum value of a signed type divided by [-1]. *)
Lemma quot_inRange T a b :
  0 < width T -> inRange T a -> inRange T b -> b <> 0 ->
  ~ (isSigned T = true /\ a = minValue T /\ b = -1) ->
  inRange T (Z.quot a b).
Proof.
  unfold inRange, minValue, maxValue. intros Hw Ha Hb Hb0 Hguard.
  assert (Hpos : 0 < 2 ^ (width T - 1)) by (apply Z.pow_pos_nonneg; lia).
  assert (Hmul : Z.abs b * Z.abs (Z.quot a b) <= Z.abs a).
  { rewrite <- Z.quot_abs by assumption.
    apply Z.mul_quot_le; lia. }
  destruct (isSigned T) eqn:Hs.
  - destruct (Z.eq_dec a (- 2 ^ (width T - 1))) as [Hmin | Hmin].
    + destruct (Z.eq_dec b 1) as [-> | Hb1]; [rewrite Z.quot_1_r; lia |].
      assert (b <> -1) by (intros ->; apply Hguard; auto).
      assert (2 <= Z.abs b) by lia. nia.
    + assert (Z.abs a <= 2 ^ (width T - 1) - 1) by lia. nia.
  - assert (0 <= Z.quot a b) by (apply Z.quot_pos; lia).
    assert (0 < 2 ^ width T) by (apply Z.pow_pos_nonneg; lia). nia.
Qed.

(** [checkedDivide] on operands of a signed type [T]: it raises exactly for
    a zero divisor and for the minimum value divided by [-1], and otherwise
    returns the truncated quotient, which fits [T]; the machine division is
    never reached where it is undefined. *)
Theorem checkedDivide_signed (T : IntegerType) (a b : Z) :
  0 < width T -> isSigned T = true -> inRange T a -> inRange T b ->
  (b = 0 -> checkedDivide T a b = Fatal "division by zero") /\
  (a = minValue T -> b = -1 ->
   checkedDivide T a b
   = Fatal ("integer overflow: " ++ pretty a ++ " / " ++ pretty b)) /\
  (b <> 0 -> ~ (a = minValue T /\ b = -1) ->
   checkedDivide T a b = Ok (Z.quot a b) /\ inRange T (Z.quot a b)) /\
  (isFatal (checkedDivide T a b) = true
   <-> b = 0 \/ (a = minValue T /\ b = -1)) /\
  checkedDivide T a b <> Undefined.
Proof.
  intros Hw Hs Ha Hb.
  pose proof (equalsMinusOne_signed T b Hw Hs) as Hone.
  assert (Hzero : b = 0 -> checkedDivide T a b = Fatal "division by zero").
  { intros ->. reflexivity. }
  assert (Hover : a = minValue T -> b = -1 ->
                  checkedDivide T a b
                  = Fatal ("integer overflow: " ++ pretty a ++ " / "
                           ++ pretty b)).
  { intros Hmin Hm1. unfold checkedDivide.
    rewrite (proj2 Hone Hm1). subst b. cbn [Z.eqb].
    subst a. rewrite Z.eqb_refl. reflexivity. }
  assert (Hquot : b <> 0 -> ~ (a = minValue T /\ b = -1) ->
                  checkedDivide T a b = Ok (Z.quot a b) /\
                  inRange T (Z.quot a b)).
  { intros Hb0 Hguard.
    assert (Hin : inRange T (Z.quot a b))
      by (apply quot_inRange; auto; intros (_ & ? & ?); auto).
    split; [| exact Hin].
    assert (Hg : (a =? minValue T) && equalsMinusOne T b = false).
    { destruct (a =? minValue T) eqn:Ea; [| reflexivity].
      apply Z.eqb_eq in Ea. cbn [andb].
      apply not_true_is_false. intros Eb. apply Hone in Eb. auto. }
    unfold checkedDivide.
    destruct (b =? 0) eqn:E0; [apply Z.eqb_eq in E0; lia |].
    rewrite Hg, (machineDiv_defined T a b Hw Ha Hb0 Hg). cbn [bind].
    rewrite (wrap_inRange T _ Hw Hin). reflexivity. }
  split; [exact Hzero |]. split; [exact Hover |]. split; [exact Hquot |].
  destruct (Z.eq_dec b 0) as [Hb0 | Hb0].
  { rewrite (Hzero Hb0). split; [split; auto | discriminate]. }
  destruct (Z.eq_dec a (minValue T)) as [Hmin | Hmin];
    [destruct (Z.eq_dec b (-1)) as [Hm1 | Hm1] |].
  - rewrite (Hover Hmin Hm1). split; [split; auto | discriminate].
  - destruct (Hquot Hb0) as [-> _]; [intros [_ ?]; auto |].
    split; [split; [discriminate | intros [? | [_ ?]]; contradiction]
           | discriminate].
  - destruct (Hquot Hb0) as [-> _]; [intros [? _]; auto |].
    split; [split; [discriminate | intros [? | [? _]]; contradiction]
           | discriminate].
Qed.

(** Quotient and remainder on a signed type: whenever [checkedDivide]
    returns, [checkedModulus] returns as well and the two results satisfy
    the division identity, with a remainder smaller than the divisor and of
    the sign of the dividend. The one pair on which they differ in kind is
    the minimum value and [-1]: the division raises, the modulus is 0. *)
Theorem checkedDivide_checkedModulus (T : IntegerType) (a b q : Z) :
  0 < width T -> isSigned T = true -> inRange T a -> inRange T b ->
  checkedDivide T a b = Ok q ->
  exists r,
    checkedModulus T a b = Ok r /\
    a = b * q + r /\
    Z.abs r < Z.abs b /\
    0 <= r * a.
Proof.
  intros Hw Hs Ha Hb Hq.
  pose proof (equalsMinusOne_signed T b Hw Hs) as Hone.
  assert (Hb0 : b <> 0).
  { intros ->. discriminate Hq. }
  assert (Hquot : q = Z.quot a b).
  { unfold checkedDivide in Hq.
    destruct (b =? 0) eqn:E0; [discriminate |].
    destruct ((a =? minValue T) && equalsMinusOne T b) eqn:Hg;
      [discriminate |].
    rewrite (machineDiv_defined T a b Hw Ha Hb0 Hg) in Hq. cbn [bind] in Hq.
    rewrite wrap_inRange in Hq; [congruence | assumption |].
    apply quot_inRange; auto. intros (_ & Hmin & Hm1).
    apply andb_false_iff in Hg as [Hg | Hg].
    - apply Z.eqb_neq in Hg. contradiction.
    - rewrite (proj2 Hone Hm1) in Hg. discriminate. }
  exists (Z.rem a b). subst q.
  split; [| split; [apply Z.quot_rem'; assumption |
                    split; [apply Z.rem_bound_abs; assumption
                           | apply Z.rem_sign_mul; assumption]]].
  unfold checkedModulus, equalsZero.
  destruct (b =? 0) eqn:E0; [apply Z.eqb_eq in E0; contradiction |].
  destruct (equalsMinusOne T b) eqn:E1.
  - assert (b = -1) as -> by (apply Hone; reflexivity).
    replace (Z.rem a (-1)) with 0; [reflexivity |].
    rewrite <- (Z.opp_involutive (-1)) at 1.
    change (- -1) with 1. rewrite Z.rem_opp_r by lia.
    symmetry. apply Z.rem_1_r.
  - assert (Hrem : machineRem T a b = Ok (Z.rem a b)).
    { unfold machineRem. rewrite E0.
      destruct (isSigned (promoted T)) eqn:Hsp; cbn [andb]; [| reflexivity].
      destruct (b =? -1) eqn:Em1; [| rewrite andb_false_r; reflexivity].
      apply Z.eqb_eq in Em1. pose proof (proj2 Hone Em1). discriminate. }
    rewrite Hrem. cbn [bind].
    rewrite wrap_inRange; auto using rem_inRange.
Qed.

(** [checkedNegate] raises exactly on the minimum value of [T]. On a signed
    type every other value is negated exactly, negating twice gives the
    value back, and the function agrees with [checkedMinus] from zero. On
    an unsigned type the minimum is zero, so zero is the value refused. *)
Theorem checkedNegate_spec (T : IntegerType) (a : Z) (typeName : string) :
  0 < width T -> inRange T a ->
  (a = minValue T ->
   checkedNegate T a = Fatal "Cannot negate minimum value") /\
  (isFatal (checkedNegate T a) = true <-> a = minValue T) /\
  (isSigned T = true -> a <> minValue T ->
   checkedNegate T a = Ok (- a) /\
   checkedNegate T (- a) = Ok a /\
   checkedMinus T 0 a typeName = Ok (- a)) /\
  (isSigned T = true -> a = minValue T ->
   isFatal (checkedMinus T 0 a typeName) = true) /\
  (isSigned T = false -> checkedNegate T 0 = Fatal "Cannot negate minimum value").
Proof.
  intros Hw Ha.
  assert (Hpos : 0 < 2 ^ (width T - 1)) by (apply Z.pow_pos_nonneg; lia).
  split; [| split; [| split; [| split]]].
  - intros ->. unfold checkedNegate. rewrite Z.eqb_refl. reflexivity.
  - unfold checkedNegate. destruct (a =? minValue T) eqn:E.
    + apply Z.eqb_eq in E. split; auto.
    + apply Z.eqb_neq in E. split; [discriminate | contradiction].
  - intros Hs Hmin.
    assert (Hneg : inRange T (- a)).
    { unfold inRange, minValue, maxValue in *. rewrite Hs in *. lia. }
    assert (Hnegmin : - a <> minValue T).
    { unfold inRange, minValue, maxValue in *. rewrite Hs in *. lia. }
    unfold checkedNegate.
    apply Z.eqb_neq in Hmin, Hnegmin. rewrite Hmin, Hnegmin.
    rewrite Z.opp_involutive, !wrap_inRange by assumption.
    split; [reflexivity |]. split; [reflexivity |].
    apply (proj1 (checked_overflow_shape T (0 - a)
                    (overflowMessage typeName "-" 0 a) Hw)).
    split; [reflexivity | exact Hneg].
  - intros Hs ->.
    destruct (checked_overflow_shape T (0 - minValue T)
                (overflowMessage typeName "-" 0 (minValue T)) Hw)
      as (_ & Hfail & _).
    unfold checkedMinus, builtin_sub_overflow.
    rewrite Hfail; [reflexivity |].
    unfold inRange, minValue, maxValue. rewrite Hs. lia.
  - intros Hs. unfold checkedNegate, minValue. rewrite Hs. reflexivity.
Qed.

(** On an unsigned type at least as wide as [int], the literal [-1] of the
    guards is the largest value of the type: [checkedModulus] by the largest
    value is 0 whatever the dividend, and [checkedDivide] refuses zero
    divided by the largest value. *)
Theorem unsigned_minus_one_guard (T : IntegerType) (a : Z) :
  isSigned T = false -> 32 <= width T -> inRange T a ->
  equalsMinusOne T (maxValue T) = true /\
  checkedModulus T a (maxValue T) = Ok 0 /\
  (0 < a < maxValue T -> Z.rem a (maxValue T) = a) /\
  checkedDivide T 0 (maxValue T)
  = Fatal ("integer overflow: " ++ pretty 0 ++ " / " ++ pretty (maxValue T)).
Proof.
  intros Hs Hw Ha.
  assert (Hbig : 2 ^ 32 <= 2 ^ width T) by (apply Z.pow_le_mono_r; lia).
  assert (Hmax : maxValue T = 2 ^ width T - 1)
    by (unfold maxValue; rewrite Hs; reflexivity).
  assert (Hone : equalsMinusOne T (maxValue T) = true).
  { unfold equalsMinusOne, promoted, wrap.
    destruct (width T <? 32) eqn:E; [apply Z.ltb_lt in E; lia |].
    rewrite Hs, Hmax. apply Z.eqb_eq.
    apply (Z.mod_unique (-1) (2 ^ width T) (-1)); lia. }
  assert (Hnz : (maxValue T =? 0) = false) by (apply Z.eqb_neq; lia).
  split; [exact Hone |]. split; [| split].
  - unfold checkedModulus, equalsZero. rewrite Hnz, Hone. reflexivity.
  - intros Hrange. apply Z.rem_small. lia.
  - unfold checkedDivide. rewrite Hnz, Hone.
    unfold minValue. rewrite Hs. reflexivity.
Qed.

End CheckedOperations.

Section Registries.
Import ExpressionEvaluator.
Context {Column : Type}.

Implicit Types (registry : list (string * @CudfExpressionEvaluatorEntry Column)).
Implicit Types (functions : gmap string (@CudfFunctionFactory Column)).
Implicit Types (st : @Registries Column).




(** *** Strategy selection *)

(** Without a candidate in the registry the running [best] is returned. *)
Lemma selectBest_no_candidate registry functions expr except best :
  (forall name entry, In (name, entry) registry ->
     candidate functions expr except name entry = false) ->
  selectBest registry functions expr except best = best.
Proof.
  induction registry as [| [n e] rest IH]; intros Hnone; simpl; auto.
  assert (Hrest : selectBest rest functions expr except best = best).
  { apply IH. intros. apply Hnone. right. assumption. }
  specialize (Hnone n e (or_introl eq_refl)).
  unfold candidate in Hnone.
  destruct (isExcepted except n); simpl in Hnone; auto.
  rewrite Hnone. assumption.
Qed.

(** The loop returns the candidate that beats every other candidate, from
    whatever [best] of lower priority it starts and wherever that candidate
    sits in the iteration order. *)
Lemma selectBest_strict_max registry functions expr except winner :
  (forall name entry, In (name, entry) registry ->
     candidate functions expr except name entry = true ->
     entry = winner \/ priority entry < priority winner) ->
  forall best,
    (best = Some winner \/
     ((best = None \/ exists b, best = Some b /\ priority b < priority winner)
      /\ exists name, In (name, winner) registry /\
                      candidate functions expr except name winner = true)) ->
    selectBest registry functions expr except best = Some winner.
Proof.
  induction registry as [| [n e] rest IH]; intros Hmax best Hbest; simpl.
  - destruct Hbest as [-> | [_ (name & [] & _)]]. reflexivity.
  - assert (Hmax' : forall name entry, In (name, entry) rest ->
              candidate functions expr except name entry = true ->
              entry = winner \/ priority entry < priority winner).
    { intros. eapply Hmax; [right |]; eassumption. }
    specialize (IH Hmax').
    pose proof (Hmax n e (or_introl eq_refl)) as Hhead.
    unfold candidate in Hhead.
    assert (Hskip : candidate functions expr except n e = false ->
                    selectBest rest functions expr except best = Some winner).
    { intros Hc. apply IH.
      destruct Hbest as [-> | [Hb (name & [Heq | Hin] & Hcand)]]; auto.
      - inversion Heq; subst. congruence.
      - right. split; eauto. }
    destruct (isExcepted except n) eqn:Ex.
    { apply Hskip. unfold candidate. rewrite Ex. reflexivity. }
    destruct (claimsCompiled functions e expr) eqn:Hc.
    2:{ apply Hskip. unfold candidate. rewrite Ex, Hc. reflexivity. }
    specialize (Hhead eq_refl).
    destruct best as [b |].
    + destruct (priority b <? priority e) eqn:Hlt.
      * apply Z.ltb_lt in Hlt. apply IH.
        destruct Hhead as [-> | Hlow]; [left; reflexivity |].
        destruct Hbest as [Hb | [Hb (name & [Heq | Hin] & Hcand)]].
        -- inversion Hb; subst. lia.
        -- inversion Heq; subst. left. reflexivity.
        -- right. split; [right; eauto | eauto].
      * apply Z.ltb_ge in Hlt. apply IH.
        destruct Hbest as [Hb | [Hb (name & [Heq | Hin] & Hcand)]]; auto.
        -- inversion Heq; subst.
           destruct Hb as [Hb | (b' & Hb & Hlow)]; [discriminate |].
           inversion Hb; subst. lia.
        -- right. split; eauto.
    + apply IH.
      destruct Hhead as [-> | Hlow]; [left; reflexivity |].
      destruct Hbest as [Hb | [Hb (name & [Heq | Hin] & Hcand)]].
      * discriminate.
      * inversion Heq; subst. left. reflexivity.
      * right. split; [right; eauto | eauto].
Qed.

(** The excluded name plays no part in the selection. *)
Lemma selectBest_except registry functions expr excluded best :
  selectBest registry functions expr (Some excluded) best
  = selectBest
      (List.filter (fun ne => negb (String.eqb (fst ne) excluded)) registry)
      functions expr None best.
Proof.
  revert best. induction registry as [| [n e] rest IH]; intros best; simpl.
  - reflexivity.
  - destruct (String.eqb n excluded); simpl; [apply IH |].
    destruct (claimsCompiled functions e expr); [| apply IH].
    destruct best as [b |]; [| apply IH].
    destruct (priority b <? priority e); apply IH.
Qed.

Lemma createSubexpressions_unfold registry functions schema inputs :
  (fix overInputs (l : list Expr) : Result (list (option CudfExpression)) :=
     match l with
     | [] => Ok []
     | input :: rest =>
         if negb (String.eqb (Expr_name input) "literal")
         then
           let* sub :=
             createCudfExpressionIn registry functions input schema None in
           let* subs := overInputs rest in
           Ok (sub :: subs)
         else overInputs rest
     end) inputs
  = createSubexpressions registry functions schema inputs.
Proof.
  induction inputs as [| input rest IH]; simpl; [reflexivity |].
  rewrite IH. reflexivity.
Qed.

(** [createCudfExpression] runs the factory of the selected entry, and
    [FunctionExpression::create] when no entry was selected. *)
Lemma createCudfExpressionIn_unfold registry functions expr schema except :
  createCudfExpressionIn registry functions expr schema except
  = match selectBest registry functions expr except None with
    | Some best => runCreate registry functions best expr schema
    | None => FunctionExpression_create registry functions expr schema
    end.
Proof.
  destruct expr as [cls name type inputs].
  unfold runCreate, FunctionExpression_create.
  cbn [createCudfExpressionIn Expr_name Expr_inputs].
  rewrite createSubexpressions_unfold. reflexivity.
Qed.



(** C3. When a strategy that is not the excluded one claims the compiled
    expression and every other such claimant has strictly lower priority,
    [createCudfExpression] returns what that strategy's factory builds; the
    selection is the same for every iteration order of the registry, hence
    for every order of registration; and with an excluded name the
    selection is the one made on the registry without that name. *)
Theorem createCudfExpression_selects_highest_priority
    st (expr : Expr) (schema : RowType) (except : option string)
    (name : string) (winner : CudfExpressionEvaluatorEntry) :
  let st' := ensureBuiltinExpressionEvaluatorsRegistered st in
  let registry := evaluatorRegistry st' in
  let functions := functionRegistry st' in
  In (name, winner) registry ->
  candidate functions expr except name winner = true ->
  (forall n e, In (n, e) registry ->
     candidate functions expr except n e = true ->
     e = winner \/ priority e < priority winner) ->
  fst (createCudfExpression st expr schema except)
    = runCreate registry functions winner expr schema /\
  (forall registry', Permutation registry registry' ->
     selectBest registry' functions expr except None = Some winner) /\
  (forall excluded, except = Some excluded ->
     name <> excluded /\
     selectBest registry functions expr except None
     = selectBest
         (List.filter (fun ne => negb (String.eqb (fst ne) excluded)) registry)
         functions expr None None).
Proof.
  intros st' registry functions Hin Hcand Hmax.
  assert (Hsel : forall registry', Permutation registry registry' ->
            selectBest registry' functions expr except None = Some winner).
  { intros registry' Hperm.
    apply selectBest_strict_max.
    - intros n e Hin'. apply Hmax.
      eapply Permutation_in; [apply Permutation_sym |]; eassumption.
    - right. split; [left; reflexivity |].
      exists name. split; [| assumption].
      eapply Permutation_in; eassumption. }
  split; [| split].
  - unfold createCudfExpression. cbn [fst].
    rewrite createCudfExpressionIn_unfold.
    fold st'. fold registry. fold functions.
    rewrite (Hsel registry (Permutation_refl _)). reflexivity.
  - exact Hsel.
  - intros excluded ->. split.
    + intros ->. unfold candidate, isExcepted in Hcand.
      rewrite String.eqb_refl in Hcand. discriminate.
    + apply selectBest_except.
Qed.

(** *** The logical feasibility check *)

Lemma TypedExpr_nested_ind (P : TypedExpr -> Prop) :
  (forall kind name inputs, Forall P inputs ->
     P (TypedExprNode kind name inputs)) ->
  forall e, P e.
Proof.
  intros Hnode. fix IH 1. intros [kind name inputs].
  apply Hnode. induction inputs as [| x rest IHrest]; constructor.
  - apply IH.
  - exact IHrest.
Qed.

Lemma canBeEvaluatedIn_unfold registry functions expr :
  canBeEvaluatedIn registry functions expr
  = currentRootSupported registry functions expr
    && canBeEvaluatedInExprs registry functions (TypedExpr_inputs expr).
Proof.
  destruct expr as [kind name inputs].
  cbn [canBeEvaluatedIn TypedExpr_inputs].
  destruct (currentRootSupported registry functions
              (TypedExprNode kind name inputs)); [| reflexivity].
  cbn [negb andb].
  induction inputs as [| e rest IH]; [reflexivity |].
  cbn [canBeEvaluatedInExprs]. rewrite IH. reflexivity.
Qed.

Lemma currentRootSupported_iff registry functions expr :
  currentRootSupported registry functions expr = true
  <-> claimedBy registry functions expr.
Proof.
  unfold currentRootSupported, claimedBy. rewrite existsb_exists. split.
  - intros ([name entry] & Hin & Hacc). cbn [snd] in Hacc.
    destruct (canEvaluate entry) as [accepts |] eqn:E; [| discriminate].
    exists name, entry, accepts. auto.
  - intros (name & entry & accepts & Hin & E & Hacc).
    exists (name, entry). split; [assumption |].
    cbn [snd]. rewrite E. assumption.
Qed.

Lemma canBeEvaluatedInExprs_iff registry functions exprs :
  canBeEvaluatedInExprs registry functions exprs = true
  <-> Forall (fun e => canBeEvaluatedIn registry functions e = true) exprs.
Proof.
  induction exprs as [| e rest IH]; cbn [canBeEvaluatedInExprs].
  - split; [constructor | reflexivity].
  - destruct (canBeEvaluatedIn registry functions e) eqn:E; cbn [negb].
    + rewrite IH. split; [constructor; assumption |].
      intros H. inversion H; assumption.
    + split; [discriminate |].
      intros H. inversion H; congruence.
Qed.

Lemma TypedExpr_nodes_unfold kind name inputs :
  TypedExpr_nodes (TypedExprNode kind name inputs)
  = TypedExprNode kind name inputs :: flat_map TypedExpr_nodes inputs.
Proof.
  reflexivity.
Qed.

(** The check is the conjunction, over all nodes of the tree, of "some
    strategy claims this node". *)
Lemma canBeEvaluatedIn_iff registry functions expr :
  canBeEvaluatedIn registry functions expr = true
  <-> forall node, In node (TypedExpr_nodes expr) ->
                   claimedBy registry functions node.
Proof.
  induction expr as [kind name inputs IH] using TypedExpr_nested_ind.
  rewrite canBeEvaluatedIn_unfold, andb_true_iff, currentRootSupported_iff,
    canBeEvaluatedInExprs_iff, TypedExpr_nodes_unfold.
  cbn [TypedExpr_inputs]. rewrite !List.Forall_forall in *. split.
  - intros [Hroot Hinputs] node [<- | Hin]; [assumption |].
    apply in_flat_map in Hin as (x & Hx & Hnode).
    apply (IH x Hx); [apply Hinputs |]; assumption.
  - intros Hall. split; [apply Hall; left; reflexivity |].
    intros x Hx. apply IH; [assumption |].
    intros node Hnode. apply Hall. right.
    apply in_flat_map. exists x. split; assumption.
Qed.

(** C1. On every logical expression tree [canBeEvaluatedByCudf] answers true
    exactly when every node of the tree, root and descendants alike, is
    claimed by a registered strategy; one unclaimed node anywhere in the
    tree makes the answer false. *)
Theorem canBeEvaluatedByCudf_iff_every_node_claimed st (expr : TypedExpr) :
  let st' := ensureBuiltinExpressionEvaluatorsRegistered st in
  (fst (canBeEvaluatedByCudf st expr) = true
   <-> forall node, In node (TypedExpr_nodes expr) ->
         claimedBy (evaluatorRegistry st') (functionRegistry st') node) /\
  (forall node, In node (TypedExpr_nodes expr) ->
     ~ claimedBy (evaluatorRegistry st') (functionRegistry st') node ->
     fst (canBeEvaluatedByCudf st expr) = false) /\
  snd (canBeEvaluatedByCudf st expr) = st'.
Proof.
  intros st'. unfold canBeEvaluatedByCudf. cbn [fst snd]. fold st'.
  split; [apply canBeEvaluatedIn_iff |].
  split; [| reflexivity].
  intros node Hin Hnot.
  apply not_true_is_false. intros Htrue.
  apply Hnot. exact (proj1 (canBeEvaluatedIn_iff _ _ _) Htrue node Hin).
Qed.

End Registries.

Section Compilation.
Import ExpressionEvaluator.
Context {Column data_type : Type}.
Variable veloxToCudfTypeId : TypeKind -> data_type.
Variable data_type_eqb : data_type -> data_type -> bool.
Variable columnType : Column -> data_type.
Variable cudf_cast : Column -> data_type -> Result Column.
Variable slice_strings :
  Column -> NumericScalar -> NumericScalar -> NumericScalar -> Result Column.

Implicit Types (registry : list (string * @CudfExpressionEvaluatorEntry Column)).
Implicit Types (functions : gmap string (@CudfFunctionFactory Column)).
Implicit Types (st : @Registries Column).

Local Abbreviation eval := (CudfExpression_eval veloxToCudfTypeId data_type_eqb
                          columnType cudf_cast slice_strings).

(** *** Substring *)

Lemma wrap_size_type z :
  - 2 ^ 31 <= z <= 2 ^ 31 - 1 -> CheckedArithmetic.wrap size_type z = z.
Proof.
  intros Hz. unfold CheckedArithmetic.wrap, size_type. cbn.
  change (2 ^ 31) with 2147483648 in *. change (2 ^ 32) with 4294967296.
  rewrite Z.mod_small; lia.
Qed.

(** The translation in general: a positive 1-based [start] becomes the
    0-based [start - 1], and a [length] becomes the end [start - 1 + length],
    as long as these fit [cudf::size_type]. *)
Lemma SubstrFunction_new_translation name type input (start len : Z) :
  1 <= start <= 2 ^ 31 ->
  0 <= len -> start - 1 + len <= 2 ^ 31 - 1 ->
  @SubstrFunction_new Column
    (call name type [input; literalBigint start; literalBigint len])
  = Ok (SubstrFunction (mkScalar (start - 1) true)
          (mkScalar (start - 1 + len) true) (mkScalar 1 true)) /\
  @SubstrFunction_new Column (call name type [input; literalBigint start])
  = Ok (SubstrFunction (mkScalar (start - 1) true) (mkScalar 0 false)
          (mkScalar 1 true)).
Proof.
  intros Hstart Hlen Hend.
  unfold SubstrFunction_new, call, literalBigint, constantBigintInput.
  cbn [Expr_inputs length Nat.leb Nat.ltb VELOX_CHECK bind lookup
       list_lookup Expr_class].
  destruct (1 <=? start) eqn:E; [| apply Z.leb_gt in E; lia].
  rewrite !wrap_size_type by lia.
  unfold size_type_add. cbn [CheckedArithmetic.minValue
    CheckedArithmetic.maxValue size_type CheckedArithmetic.int32_t
    CheckedArithmetic.isSigned CheckedArithmetic.width].
  change (32 - 1) with 31.
  destruct (- 2 ^ 31 <=? start - 1 + len) eqn:E1;
    [| apply Z.leb_gt in E1; lia].
  destruct (start - 1 + len <=? 2 ^ 31 - 1) eqn:E2;
    [| apply Z.leb_gt in E2; lia].
  split; reflexivity.
Qed.

Lemma append_inj_l (prefix a b : string) :
  prefix ++ a = prefix ++ b -> a = b.
Proof.
  induction prefix as [| c prefix IH]; cbn; [auto |].
  intros H. inversion H. auto.
Qed.

Lemma registerCudfFunction_fresh name (factory : @CudfFunctionFactory Column)
    overwrite functions :
  functions !! name = None ->
  registerCudfFunction name factory overwrite functions
  = (true, <[name := factory]> functions).
Proof.
  intros Hnone. unfold registerCudfFunction, CudfFunctionFactory in *.
  rewrite Hnone.
  rewrite (bool_decide_eq_false_2 (is_Some None)) by apply is_Some_None.
  rewrite andb_false_r. reflexivity.
Qed.

(** Both aliases resolve to the [SubstrFunction] factory. *)
Lemma registerSubstr_lookup (prefix : string) :
  registerSubstr (Column := Column) prefix ∅ !! (prefix ++ "substr")
    = Some substrFactory /\
  registerSubstr (Column := Column) prefix ∅ !! (prefix ++ "substring")
    = Some substrFactory.
Proof.
  assert (Hne : prefix ++ "substr" <> prefix ++ "substring").
  { intros H. apply append_inj_l in H. discriminate H. }
  unfold registerSubstr. cbn [registerCudfFunctions].
  rewrite (registerCudfFunction_fresh (prefix ++ "substr"))
    by apply lookup_empty.
  cbn [snd].
  rewrite (registerCudfFunction_fresh (prefix ++ "substring"))
    by (unfold CudfFunctionFactory; rewrite lookup_insert_ne by assumption;
        apply lookup_empty).
  cbn [snd]. unfold CudfFunctionFactory. split.
  - rewrite lookup_insert_ne by congruence. apply lookup_insert_eq.
  - apply lookup_insert_eq.
Qed.

(** C9. A substring call with a constant 1-based start and a constant
    length compiles, at construction, to the slice with valid begin
    [start - 1], valid end [start - 1 + length] and step 1, whose evaluation
    is [slice_strings] over the 0-based range [start - 1, start - 1 + length);
    without a length it compiles to the slice with begin [start - 1] and an
    invalid (absent) end, that is, an open-ended slice. So start 1 with
    length 3 gives the range [0, 3), and start 5 without length the
    open-ended slice from index 4. Both registered aliases build this
    function. *)
Theorem substr_index_translation
    (prefix : string) (input : Expr) (type : TypeKind) (inputCol : Column)
    (start len : Z) :
  1 <= start <= 2 ^ 31 ->
  0 <= len -> start - 1 + len <= 2 ^ 31 - 1 ->
  let functions := registerSubstr (Column := Column) prefix ∅ in
  let bounded := SubstrFunction (mkScalar (start - 1) true)
                   (mkScalar (start - 1 + len) true) (mkScalar 1 true) in
  let openEnded := SubstrFunction (mkScalar (start - 1) true)
                     (mkScalar 0 false) (mkScalar 1 true) in
  (forall name,
     SubstrFunction_new
       (call name type [input; literalBigint start; literalBigint len])
     = Ok bounded /\
     SubstrFunction_new (call name type [input; literalBigint start])
     = Ok openEnded) /\
  (forall name, name = prefix ++ "substr" \/ name = prefix ++ "substring" ->
     createCudfFunction functions name
       (call name type [input; literalBigint start; literalBigint len])
     = Ok (Some bounded) /\
     createCudfFunction functions name
       (call name type [input; literalBigint start])
     = Ok (Some openEnded)) /\
  CudfFunction_eval slice_strings bounded [inputCol]
  = slice_strings inputCol (mkScalar (start - 1) true)
      (mkScalar (start - 1 + len) true) (mkScalar 1 true) /\
  CudfFunction_eval slice_strings openEnded [inputCol]
  = slice_strings inputCol (mkScalar (start - 1) true) (mkScalar 0 false)
      (mkScalar 1 true).
Proof.
  intros Hstart Hlen Hend functions bounded openEnded.
  assert (Hnew : forall name,
            SubstrFunction_new
              (call name type [input; literalBigint start; literalBigint len])
            = Ok bounded /\
            SubstrFunction_new (call name type [input; literalBigint start])
            = Ok openEnded).
  { intros name.
    apply (SubstrFunction_new_translation name type input start len);
      assumption. }
  split; [exact Hnew |].
  split; [| split; reflexivity].
  intros name Hname.
  assert (Hlookup : functions !! name = Some substrFactory).
  { destruct (registerSubstr_lookup prefix) as [H1 H2].
    destruct Hname as [-> | ->]; assumption. }
  unfold createCudfFunction, CudfFunctionFactory in *.
  rewrite Hlookup. unfold substrFactory.
  destruct (Hnew name) as [-> ->]. split; reflexivity.
Qed.

(** *** The default strategy *)

(** [FunctionExpression::create] never hands back a null pointer: it returns
    the node it allocated, or it does not return. *)
Lemma FunctionExpression_create_not_null registry functions expr schema r :
  FunctionExpression_create registry functions expr schema = Ok r ->
  exists function subexpressions,
    r = Some (FunctionExpression expr schema function subexpressions).
Proof.
  unfold FunctionExpression_create.
  destruct (createCudfFunction functions (Expr_name expr) expr)
    as [function | msg |]; cbn [bind]; try discriminate.
  destruct (match function with
            | Some _ => createSubexpressions registry functions schema
                          (Expr_inputs expr)
            | None => Ok []
            end) as [subs | msg |]; cbn [bind]; try discriminate.
  intros H. inversion H. eauto.
Qed.

(** A name without an entry in the function registry: the node is built
    with no function and no children. *)
Lemma FunctionExpression_create_unregistered registry functions expr schema :
  functions !! Expr_name expr = None ->
  FunctionExpression_create registry functions expr schema
  = Ok (Some (FunctionExpression expr schema None [])).
Proof.
  intros Hnone.
  unfold FunctionExpression_create, createCudfFunction, CudfFunctionFactory
    in *.
  rewrite Hnone. reflexivity.
Qed.

(** C4, as the code has it. When no strategy outside the excluded name
    accepts the compiled expression, [createCudfExpression] is
    [FunctionExpression::create]. It never returns null: whatever it returns
    is a [FunctionExpression] node for that expression, and it returns one
    whenever the node's name has no function registered; a registered
    factory or the compilation of a child can still raise and end the call
    without a result. *)
Theorem createCudfExpression_falls_back_to_FunctionExpression
    st (expr : Expr) (schema : RowType) (except : option string) :
  let st' := ensureBuiltinExpressionEvaluatorsRegistered st in
  let registry := evaluatorRegistry st' in
  let functions := functionRegistry st' in
  (forall name entry, In (name, entry) registry ->
     candidate functions expr except name entry = false) ->
  fst (createCudfExpression st expr schema except)
    = FunctionExpression_create registry functions expr schema /\
  fst (createCudfExpression st expr schema except) <> Ok None /\
  (forall r, fst (createCudfExpression st expr schema except) = Ok r ->
     exists function subexpressions,
       r = Some (FunctionExpression expr schema function subexpressions)) /\
  (functions !! Expr_name expr = None ->
   fst (createCudfExpression st expr schema except)
     = Ok (Some (FunctionExpression expr schema None []))).
Proof.
  intros st' registry functions Hnone.
  assert (Heq : fst (createCudfExpression st expr schema except)
                = FunctionExpression_create registry functions expr schema).
  { unfold createCudfExpression. cbn [fst].
    rewrite createCudfExpressionIn_unfold.
    fold st'. fold registry. fold functions.
    rewrite selectBest_no_candidate by assumption. reflexivity. }
  rewrite Heq. split; [reflexivity |].
  split; [| split].
  - intros H.
    apply FunctionExpression_create_not_null in H as (f & subs & H).
    discriminate.
  - apply FunctionExpression_create_not_null.
  - apply FunctionExpression_create_unregistered.
Qed.

(** C5, as the code has it. Compiling a call whose name has no entry in the
    function registry does not fail: [FunctionExpression::create] returns a
    node with no function and no children. The missing function is detected
    when that node is evaluated, which raises the unsupported-expression
    error; the compile-time predicates of the default strategy reject the
    call, which is what a caller can test beforehand. *)
Theorem unregistered_call_fails_at_evaluation
    registry functions (expr : Expr) (schema : RowType) :
  functions !! Expr_name expr = None ->
  isFieldReference expr = false ->
  let node := FunctionExpression expr schema None [] in
  FunctionExpression_create registry functions expr schema = Ok (Some node) /\
  (forall inputTableColumns finalize,
     eval node inputTableColumns finalize
     = Fatal ("Unsupported expression for recursive evaluation: "
              ++ Expr_name expr)) /\
  FunctionExpression_canEvaluate functions expr = false /\
  (forall inputs,
     FunctionExpression_canEvaluateTyped functions
       (TypedExprNode kCall (Expr_name expr) inputs) = false).
Proof.
  intros Hnone Hfield node.
  split; [apply FunctionExpression_create_unregistered; assumption |].
  split; [| split].
  - intros cols finalize. unfold node. cbn [CudfExpression_eval].
    rewrite Hfield. reflexivity.
  - unfold FunctionExpression_canEvaluate, CudfFunctionFactory in *.
    rewrite Hfield, Hnone.
    apply bool_decide_eq_false_2, is_Some_None.
  - intros inputs.
    unfold FunctionExpression_canEvaluateTyped, CudfFunctionFactory in *.
    cbn [TypedExpr_kind TypedExpr_name ExprKind_eqb orb negb].
    rewrite Hnone. apply bool_decide_eq_false_2, is_Some_None.
Qed.

End Compilation.

(** ** Further properties of the registries and of compilation *)

Section RegistriesMore.
Import ExpressionEvaluator.
Context {Column : Type}.

Implicit Types (registry : list (string * @CudfExpressionEvaluatorEntry Column)).
Implicit Types (functions : gmap string (@CudfFunctionFactory Column)).
Implicit Types (st : @Registries Column).

Lemma registerCudfFunction_lookup name (factory : @CudfFunctionFactory Column)
    overwrite functions other :
  snd (registerCudfFunction name factory overwrite functions) !! other
  = if decide (name = other)
    then (if overwrite then Some factory
          else match functions !! name with
               | Some old => Some old
               | None => Some factory
               end)
    else functions !! other.
Proof.
  unfold registerCudfFunction, CudfFunctionFactory in *.
  destruct (functions !! name) as [old |] eqn:Hold.
  - rewrite (bool_decide_eq_true_2 (is_Some (Some old))) by eauto.
    destruct overwrite; cbn [negb andb snd]; case_decide; subst.
    + apply lookup_insert_eq.
    + apply lookup_insert_ne. assumption.
    + assumption.
    + reflexivity.
  - rewrite (bool_decide_eq_false_2 (is_Some None)) by apply is_Some_None.
    rewrite andb_false_r. cbn [snd]. case_decide; subst.
    + rewrite lookup_insert_eq. destruct overwrite; reflexivity.
    + apply lookup_insert_ne. assumption.
Qed.

(** [registerCudfFunctions] touches the aliases only. With [overwrite] every
    alias ends up on the new factory; without it an alias that already had
    a factory keeps it and the others get the new one. *)
Theorem registerCudfFunctions_lookup
    (aliases : list string) (factory : @CudfFunctionFactory Column)
    (overwrite : bool) functions (name : string) :
  let functions' := registerCudfFunctions aliases factory overwrite functions in
  (~ In name aliases -> functions' !! name = functions !! name) /\
  (In name aliases -> overwrite = true -> functions' !! name = Some factory) /\
  (In name aliases -> overwrite = false ->
   functions' !! name = match functions !! name with
                        | Some old => Some old
                        | None => Some factory
                        end).
Proof.
  revert functions.
  induction aliases as [| alias rest IH]; intros functions functions';
    subst functions'; cbn [registerCudfFunctions].
  - split; [reflexivity |]. split; intros [].
  - specialize (IH (snd (registerCudfFunction alias factory overwrite
                           functions))).
    cbv zeta in IH. destruct IH as (IHout & IHtrue & IHfalse).
    pose proof (registerCudfFunction_lookup alias factory overwrite functions
                  name) as Hone.
    unfold CudfFunctionFactory in *.
    destruct (in_dec String.string_dec name rest) as [Hin | Hout].
    + split; [intros Hn; exfalso; apply Hn; right; assumption |].
      split.
      * intros _ Hov. apply IHtrue; assumption.
      * intros _ Hov. rewrite (IHfalse Hin Hov), Hone. subst overwrite.
        case_decide; [subst alias | reflexivity].
        destruct (functions !! name); reflexivity.
    + rewrite (IHout Hout), Hone.
      split; [intros Hn; case_decide; [subst; exfalso; apply Hn; left;
                                       reflexivity | reflexivity] |].
      split.
      * intros [<- | Hin] Hov; [| contradiction].
        subst overwrite. case_decide; [reflexivity | contradiction].
      * intros [<- | Hin] Hov; [| contradiction].
        subst overwrite. case_decide; [| contradiction].
        destruct (functions !! alias); reflexivity.
Qed.


(** *** Ties and the absence of candidates *)

Lemma firstOfHighestPriority_cons_low registry functions expr except best
    name entry :
  firstOfHighestPriority registry functions expr except best ->
  (candidate functions expr except name entry = true ->
   priority entry < priority best) ->
  firstOfHighestPriority ((name, entry) :: registry) functions expr except
    best.
Proof.
  intros (before & n & after & -> & Hcand & Hbefore & Hafter) Hlow.
  exists ((name, entry) :: before), n, after.
  split; [reflexivity |]. split; [exact Hcand |]. split; [| exact Hafter].
  intros n' e' [Heq | Hin] Hc.
  - inversion Heq; subst. auto.
  - eauto.
Qed.

(** The selection loop started from any running [best0]. *)
Lemma selectBest_from registry functions expr except :
  forall best0,
    match selectBest registry functions expr except best0 with
    | None =>
        best0 = None /\
        forall n e, In (n, e) registry ->
                    candidate functions expr except n e = false
    | Some r =>
        (best0 = Some r /\
         forall n e, In (n, e) registry ->
                     candidate functions expr except n e = true ->
                     priority e <= priority r) \/
        (firstOfHighestPriority registry functions expr except r /\
         match best0 with
         | Some b => priority b < priority r
         | None => True
         end)
    end.
Proof.
  induction registry as [| [n e] rest IH]; intros best0;
    cbn [selectBest].
  - destruct best0 as [b |]; [left | ]; split; auto; intros ? ? [].
  - assert (Hskip : candidate functions expr except n e = false ->
              match selectBest rest functions expr except best0 with
              | None =>
                  best0 = None /\
                  forall n' e', In (n', e') ((n, e) :: rest) ->
                    candidate functions expr except n' e' = false
              | Some r =>
                  (best0 = Some r /\
                   forall n' e', In (n', e') ((n, e) :: rest) ->
                     candidate functions expr except n' e' = true ->
                     priority e' <= priority r) \/
                  (firstOfHighestPriority ((n, e) :: rest) functions expr
                     except r /\
                   match best0 with
                   | Some b => priority b < priority r
                   | None => True
                   end)
              end).
    { intros Hnot. specialize (IH best0).
      destruct (selectBest rest functions expr except best0) as [r |].
      - destruct IH as [[Hb Hall] | [Hfirst Hlow]].
        + left. split; [exact Hb |].
          intros n' e' [Heq | Hin] Hc; [| eauto].
          inversion Heq; subst. congruence.
        + right. split; [| exact Hlow].
          apply firstOfHighestPriority_cons_low; [exact Hfirst | congruence].
      - destruct IH as [Hb Hall]. split; [exact Hb |].
        intros n' e' [Heq | Hin]; [| eauto].
        inversion Heq; subst. exact Hnot. }
    assert (Htake : candidate functions expr except n e = true ->
              (match best0 with
               | Some b => priority b < priority e
               | None => True
               end) ->
              match selectBest rest functions expr except (Some e) with
              | None => False
              | Some r =>
                  firstOfHighestPriority ((n, e) :: rest) functions expr
                    except r /\
                  match best0 with
                  | Some b => priority b < priority r
                  | None => True
                  end
              end).
    { intros Hc Hlow. specialize (IH (Some e)).
      destruct (selectBest rest functions expr except (Some e)) as [r |];
        [| destruct IH; discriminate].
      destruct IH as [[Hb Hall] | [Hfirst Hlt]].
      - inversion Hb; subst r. split; [| exact Hlow].
        exists [], n, rest. split; [reflexivity |]. split; [exact Hc |].
        split; [intros ? ? [] | exact Hall].
      - split.
        + apply firstOfHighestPriority_cons_low; auto.
        + destruct best0; [lia | exact I]. }
    unfold candidate in Hskip, Htake.
    destruct (isExcepted except n); cbn [negb andb] in *;
      [exact (Hskip eq_refl) |].
    destruct (claimsCompiled functions e expr); [| exact (Hskip eq_refl)].
    destruct best0 as [b |].
    + destruct (priority b <? priority e) eqn:Hlt.
      * apply Z.ltb_lt in Hlt. specialize (Htake eq_refl Hlt).
        destruct (selectBest rest functions expr except (Some e));
          [right; exact Htake | contradiction].
      * apply Z.ltb_ge in Hlt. specialize (IH (Some b)).
        destruct (selectBest rest functions expr except (Some b)) as [r |];
          [| destruct IH; discriminate].
        destruct IH as [[Hb Hall] | [Hfirst Hlow]].
        -- inversion Hb; subst r. left. split; [reflexivity |].
           intros n' e' [Heq | Hin] Hc; [| eauto].
           inversion Heq; subst. exact Hlt.
        -- right. split; [| exact Hlow].
           apply firstOfHighestPriority_cons_low; [exact Hfirst |].
           intros _. lia.
    + specialize (Htake eq_refl I).
      destruct (selectBest rest functions expr except (Some e));
        [right; exact Htake | contradiction].
Qed.

(** The order in which the registry is iterated decides only between
    candidates of equal priority. Whatever that order, the loop of
    [createCudfExpression] ends on the first candidate, in that order, among
    those of the highest priority, a later one taking over only with a
    strictly higher priority, and with no candidate
    [FunctionExpression::create] runs. Every candidate of the highest
    priority is the one selected under some iteration order. *)
Theorem createCudfExpression_first_of_highest_priority
    st (expr : Expr) (schema : RowType) (except : option string) :
  let st' := ensureBuiltinExpressionEvaluatorsRegistered st in
  let registry := evaluatorRegistry st' in
  let functions := functionRegistry st' in
  (forall order, Permutation registry order ->
     (exists best,
        firstOfHighestPriority order functions expr except best /\
        selectBest order functions expr except None = Some best /\
        createCudfExpressionIn order functions expr schema except
        = runCreate order functions best expr schema) \/
     ((forall name entry, In (name, entry) registry ->
         candidate functions expr except name entry = false) /\
      selectBest order functions expr except None = None /\
      createCudfExpressionIn order functions expr schema except
      = FunctionExpression_create order functions expr schema)) /\
  (forall name entry,
     In (name, entry) registry ->
     candidate functions expr except name entry = true ->
     (forall n e, In (n, e) registry ->
        candidate functions expr except n e = true ->
        priority e <= priority entry) ->
     exists order,
       Permutation registry order /\
       selectBest order functions expr except None = Some entry /\
       createCudfExpressionIn order functions expr schema except
       = runCreate order functions entry expr schema) /\
  fst (createCudfExpression st expr schema except)
  = createCudfExpressionIn registry functions expr schema except.
Proof.
  intros st' registry functions.
  split; [| split; [| reflexivity]].
  - intros order Hperm.
    rewrite createCudfExpressionIn_unfold.
    pose proof (selectBest_from order functions expr except None) as Hsel.
    destruct (selectBest order functions expr except None) as [best |].
    + left. exists best. split; [| split; reflexivity].
      destruct Hsel as [[Hb _] | [Hfirst _]]; [discriminate | exact Hfirst].
    + right. destruct Hsel as [_ Hnone]. split; [| split; reflexivity].
      intros name entry Hin. apply Hnone.
      eapply Permutation_in; eassumption.
  - intros name entry Hin Hcand Hmax.
    destruct (in_split _ _ Hin) as (l1 & l2 & Hsplit).
    exists ((name, entry) :: l1 ++ l2)%list.
    assert (Hperm : Permutation registry ((name, entry) :: l1 ++ l2)%list).
    { rewrite Hsplit. apply Permutation_sym, Permutation_middle. }
    assert (Hsel : selectBest ((name, entry) :: l1 ++ l2)%list functions expr
                     except None = Some entry).
    { pose proof (selectBest_from ((name, entry) :: l1 ++ l2)%list functions
                    expr except None) as Hsel.
      destruct (selectBest ((name, entry) :: l1 ++ l2)%list functions expr
                  except None) as [r |].
      - destruct Hsel as [[Hb _] | [Hfirst _]]; [discriminate |].
        destruct Hfirst as (before & n & after & Heq & Hr & Hbefore & _).
        destruct before as [| first before].
        + cbn [app] in Heq. inversion Heq. reflexivity.
        + cbn [app] in Heq. injection Heq as Hhead Hrest. subst first.
          assert (Hlt : priority entry < priority r)
            by (apply (Hbefore name entry); [left; reflexivity | exact Hcand]).
          assert (Hle : priority r <= priority entry).
          { apply (Hmax n r); [| exact Hr].
            eapply Permutation_in; [apply Permutation_sym; exact Hperm |].
            right. rewrite Hrest. apply in_or_app. right. left. reflexivity. }
          lia.
      - destruct Hsel as [_ Hnone].
        rewrite (Hnone name entry (or_introl eq_refl)) in Hcand.
        discriminate. }
    split; [exact Hperm |]. split; [exact Hsel |].
    rewrite createCudfExpressionIn_unfold, Hsel. reflexivity.
Qed.

(** The check on a compiled expression answers whether some strategy claims
    it, and this is what decides [createCudfExpression] without an excluded
    name: after "no" the default [FunctionExpression::create] runs, after
    "yes" the factory of a claiming strategy. *)
Theorem canBeEvaluatedByCudfCompiled_decides_create
    st (expr : Expr) (schema : RowType) :
  let st' := ensureBuiltinExpressionEvaluatorsRegistered st in
  let registry := evaluatorRegistry st' in
  let functions := functionRegistry st' in
  (fst (canBeEvaluatedByCudfCompiled st expr) = true
   <-> exists name entry, In (name, entry) registry /\
                          claimsCompiled functions entry expr = true) /\
  (fst (canBeEvaluatedByCudfCompiled st expr) = false ->
   fst (createCudfExpression st expr schema None)
   = FunctionExpression_create registry functions expr schema) /\
  (fst (canBeEvaluatedByCudfCompiled st expr) = true ->
   exists name entry,
     In (name, entry) registry /\
     claimsCompiled functions entry expr = true /\
     fst (createCudfExpression st expr schema None)
     = runCreate registry functions entry expr schema) /\
  snd (canBeEvaluatedByCudfCompiled st expr) = st'.
Proof.
  intros st' registry functions.
  unfold canBeEvaluatedByCudfCompiled. cbn [fst snd].
  fold st'. fold registry. fold functions.
  assert (Hiff : existsb (fun ne => claimsCompiled functions (snd ne) expr)
                   registry = true
                 <-> exists name entry,
                     In (name, entry) registry /\
                     claimsCompiled functions entry expr = true).
  { rewrite existsb_exists. split.
    - intros ([name entry] & Hin & Hc). eauto.
    - intros (name & entry & Hin & Hc). exists (name, entry). auto. }
  split; [exact Hiff |].
  unfold createCudfExpression. cbn [fst].
  rewrite createCudfExpressionIn_unfold.
  fold st'. fold registry. fold functions.
  pose proof (selectBest_from registry functions expr None None) as Hsel.
  split; [| split; [| reflexivity]].
  - intros Hno.
    rewrite selectBest_no_candidate; [reflexivity |].
    intros name entry Hin. unfold candidate, isExcepted. cbn [negb andb].
    apply not_true_is_false. intros Hc.
    rewrite (proj2 Hiff) in Hno; [discriminate | eauto].
  - intros Hyes. apply Hiff in Hyes as (name & entry & Hin & Hc).
    destruct (selectBest registry functions expr None None) as [best |].
    + destruct Hsel as [[Hb _] | [(before & n & after & Hreg & Hcand & _) _]];
        [discriminate |].
      exists n, best. split; [rewrite Hreg; apply in_elt |].
      split; [| reflexivity].
      unfold candidate, isExcepted in Hcand. exact Hcand.
    + destruct Hsel as [_ Hnone].
      specialize (Hnone name entry Hin).
      unfold candidate, isExcepted in Hnone. cbn [negb andb] in Hnone.
      congruence.
Qed.

End RegistriesMore.

Section CompilationMore.
Import ExpressionEvaluator.
Context {Column data_type : Type}.
Variable veloxToCudfTypeId : TypeKind -> data_type.
Variable data_type_eqb : data_type -> data_type -> bool.
Variable columnType : Column -> data_type.
Variable cudf_cast : Column -> data_type -> Result Column.
Variable slice_strings :
  Column -> NumericScalar -> NumericScalar -> NumericScalar -> Result Column.

Implicit Types (registry : list (string * @CudfExpressionEvaluatorEntry Column)).
Implicit Types (functions : gmap string (@CudfFunctionFactory Column)).
Implicit Types (st : @Registries Column).

Local Abbreviation eval := (CudfExpression_eval veloxToCudfTypeId data_type_eqb
                              columnType cudf_cast slice_strings).

(** *** The default strategy alone *)

(** The state a process has after its first check when nothing else was
    registered. *)
Lemma ensureBuiltin_fresh st :
  evaluatorRegistry st = [] -> registered st = false ->
  ensureBuiltinExpressionEvaluatorsRegistered st
  = mkRegistries [("function", builtinFunctionEvaluator)] true
      (functionRegistry st).
Proof.
  intros Hempty Hflag.
  unfold ensureBuiltinExpressionEvaluatorsRegistered,
    registerCudfExpressionEvaluator.
  rewrite Hflag, Hempty. reflexivity.
Qed.

(** With the built-in strategy alone, a logical tree is offloadable exactly
    when each of its nodes is a field access, a dereference, an input, a
    constant, or a call whose name is in the function registry. A cast, a
    concat or a lambda node anywhere in the tree, or a call to a name that
    is not registered, makes the check answer false. *)
Theorem default_strategy_feasibility st (expr : TypedExpr) :
  evaluatorRegistry st = [] -> registered st = false ->
  (fst (canBeEvaluatedByCudf st expr) = true
   <-> forall node, In node (TypedExpr_nodes expr) ->
         FunctionExpression_canEvaluateTyped (functionRegistry st) node
         = true) /\
  (forall node, In node (TypedExpr_nodes expr) ->
     In (TypedExpr_kind node) [kCast; kConcat; kLambda] ->
     fst (canBeEvaluatedByCudf st expr) = false) /\
  (forall node, In node (TypedExpr_nodes expr) ->
     TypedExpr_kind node = kCall ->
     functionRegistry st !! TypedExpr_name node = None ->
     fst (canBeEvaluatedByCudf st expr) = false).
Proof.
  intros Hempty Hflag.
  assert (Hiff : fst (canBeEvaluatedByCudf st expr) = true
                 <-> forall node, In node (TypedExpr_nodes expr) ->
                       FunctionExpression_canEvaluateTyped (functionRegistry st)
                         node = true).
  { unfold canBeEvaluatedByCudf. cbn [fst].
    rewrite (ensureBuiltin_fresh st Hempty Hflag).
    cbn [evaluatorRegistry functionRegistry].
    rewrite canBeEvaluatedIn_iff. split; intros H node Hin.
    - destruct (H node Hin) as (name & entry & accepts & [Heq | []] & Hacc & Hyes).
      inversion Heq; subst. inversion Hacc; subst. exact Hyes.
    - exists "function", builtinFunctionEvaluator,
        FunctionExpression_canEvaluateTyped.
      split; [left; reflexivity |]. split; [reflexivity | auto]. }
  assert (Hno : forall node, In node (TypedExpr_nodes expr) ->
            FunctionExpression_canEvaluateTyped (functionRegistry st) node
            = false ->
            fst (canBeEvaluatedByCudf st expr) = false).
  { intros node Hin Hfalse. apply not_true_is_false. intros Htrue.
    rewrite (proj1 Hiff Htrue node Hin) in Hfalse. discriminate. }
  split; [exact Hiff |]. split.
  - intros node Hin Hkind. apply (Hno node Hin).
    unfold FunctionExpression_canEvaluateTyped.
    destruct Hkind as [<- | [<- | [<- | []]]]; reflexivity.
  - intros node Hin Hkind Hnone. apply (Hno node Hin).
    unfold FunctionExpression_canEvaluateTyped, CudfFunctionFactory in *.
    rewrite Hkind, Hnone. cbn [ExprKind_eqb orb negb].
    apply bool_decide_eq_false_2, is_Some_None.
Qed.

(** *** Children of a compiled call *)

Lemma createSubexpressions_Forall2 registry functions schema inputs :
  forall subs,
    createSubexpressions registry functions schema inputs = Ok subs ->
    Forall2
      (fun input sub =>
         createCudfExpressionIn registry functions input schema None = Ok sub)
      (List.filter (fun input => negb (String.eqb (Expr_name input) "literal"))
         inputs)
      subs.
Proof.
  induction inputs as [| input rest IH]; intros subs Hsubs;
    cbn [createSubexpressions List.filter] in *.
  - inversion Hsubs. constructor.
  - destruct (negb (String.eqb (Expr_name input) "literal")); [| auto].
    destruct (createCudfExpressionIn registry functions input schema None)
      as [sub | |] eqn:Hsub; cbn [bind] in Hsubs; try discriminate.
    destruct (createSubexpressions registry functions schema rest)
      as [subs' | |]; cbn [bind] in Hsubs; try discriminate.
    inversion Hsubs; subst. constructor; auto.
Qed.

(** When [FunctionExpression::create] returns a node that has a function,
    the children of the node are, in order, the compiled forms of the
    inputs whose name is not ["literal"]: one child per such input, and
    none for an input named ["literal"], constant or not. *)
Theorem FunctionExpression_create_children
    registry functions (expr : Expr) (schema : RowType)
    (function : CudfFunction) (subs : list (option CudfExpression)) :
  FunctionExpression_create registry functions expr schema
  = Ok (Some (FunctionExpression expr schema (Some function) subs)) ->
  Forall2
    (fun input sub =>
       createCudfExpressionIn registry functions input schema None = Ok sub)
    (nonLiteralInputs expr) subs /\
  length subs = length (nonLiteralInputs expr).
Proof.
  intros Hcreate.
  assert (H : Forall2
                (fun input sub =>
                   createCudfExpressionIn registry functions input schema None
                   = Ok sub)
                (nonLiteralInputs expr) subs).
  { revert Hcreate. unfold FunctionExpression_create.
    destruct (createCudfFunction functions (Expr_name expr) expr)
      as [[f |] | |]; cbn [bind]; try discriminate.
    destruct (createSubexpressions registry functions schema
                (Expr_inputs expr)) as [subs' | |] eqn:Hsubs;
      cbn [bind]; try discriminate.
    intros H. inversion H; subst.
    apply createSubexpressions_Forall2. assumption. }
  split; [exact H |]. symmetry. eapply Forall2_length. exact H.
Qed.

(** *** Column references *)

Lemma indexOf_lookup name schema :
  forall i, indexOf name schema = Some i -> schema !! i = Some name.
Proof.
  induction schema as [| n rest IH]; intros i Hi; cbn [indexOf] in Hi;
    [discriminate |].
  destruct (String.eqb n name) eqn:E.
  - inversion Hi. apply String.eqb_eq in E. subst. reflexivity.
  - destruct (indexOf name rest) as [j |]; cbn in Hi; [| discriminate].
    inversion Hi. cbn. auto.
Qed.

(** A reference to a column whose name is not also the name of a registered
    function compiles to a node without function, and evaluating the node
    returns the input column at the position the name has in the schema; a
    name that the schema does not have makes the evaluation raise. *)
Theorem fieldReference_roundtrip
    registry functions (name : string) (type : TypeKind) (schema : RowType) :
  functions !! name = None ->
  let node := FunctionExpression (fieldReference name type) schema None [] in
  FunctionExpression_create registry functions (fieldReference name type)
    schema = Ok (Some node) /\
  (forall i column columns finalize,
     indexOf name schema = Some i -> columns !! i = Some column ->
     schema !! i = Some name /\ eval node columns finalize = Ok column) /\
  (forall columns finalize,
     indexOf name schema = None ->
     isFatal (eval node columns finalize) = true).
Proof.
  intros Hnone node.
  split; [| split].
  - apply FunctionExpression_create_unregistered. exact Hnone.
  - intros i column columns finalize Hi Hcol.
    split; [apply indexOf_lookup; exact Hi |].
    unfold node. cbn [CudfExpression_eval fieldReference isFieldReference
                      Expr_class Expr_name].
    unfold getChildIdx. rewrite Hi. cbn [bind]. rewrite Hcol. reflexivity.
  - intros columns finalize Hi.
    unfold node. cbn [CudfExpression_eval fieldReference isFieldReference
                      Expr_class Expr_name].
    unfold getChildIdx. rewrite Hi. reflexivity.
Qed.

(** [FunctionExpression::create] asks the function registry about the name
    of every expression, a column reference included: a column that bears
    the name of a registered substring alias reaches the [SubstrFunction]
    constructor and is refused by its arity check. *)
Theorem fieldReference_named_like_function
    registry functions (name : string) (type : TypeKind) (schema : RowType) :
  functions !! name = Some substrFactory ->
  FunctionExpression_create registry functions (fieldReference name type)
    schema = Fatal "(0 vs. 2) substr expects at least 2 inputs".
Proof.
  intros Hsome.
  unfold FunctionExpression_create, createCudfFunction, CudfFunctionFactory
    in *.
  cbn [fieldReference Expr_name]. rewrite Hsome. reflexivity.
Qed.

(** *** The final cast *)

Lemma bind_Ok_r {A : Type} (r : Result A) : bind r Ok = r.
Proof. destruct r; reflexivity. Qed.

(** On a node that has a function, evaluating with [finalize] is evaluating
    without it followed by the cast to the declared type when the type of
    the result differs; the children are evaluated without the cast in
    both cases. On a column reference [finalize] has no effect. *)
Theorem eval_finalize
    (expr : Expr) (schema : RowType) (function : option CudfFunction)
    (subs : list (option CudfExpression)) (columns : list Column) :
  let node := FunctionExpression expr schema function subs in
  let requestedType := veloxToCudfTypeId (Expr_type expr) in
  (isFieldReference expr = true ->
   eval node columns true = eval node columns false) /\
  (isFieldReference expr = false ->
   eval node columns true
   = let* result := eval node columns false in
     if negb (data_type_eqb (columnType result) requestedType)
     then cudf_cast result requestedType
     else Ok result).
Proof.
  intros node requestedType. subst node.
  cbn [CudfExpression_eval].
  split; intros Hfield; rewrite Hfield; [reflexivity |].
  destruct function as [f |]; [| reflexivity].
  match goal with
  | |- context [bind ?children _] =>
      destruct children as [inputColumns | |]; cbn [bind]; try reflexivity
  end.
  destruct (CudfFunction_eval slice_strings f inputColumns); reflexivity.
Qed.

(** *** Substring, from the constructor to the kernel *)

(** What the constructor of [SubstrFunction] refuses: fewer than two or
    more than three inputs, a start that is not a constant, and, with three
    inputs, a length that is not a constant. *)
Theorem SubstrFunction_new_validation (expr : Expr) :
  ((length (Expr_inputs expr) < 2)%nat ->
   @SubstrFunction_new Column expr
   = Fatal ("(" ++ pretty (length (Expr_inputs expr))
            ++ " vs. 2) substr expects at least 2 inputs")) /\
  ((3 < length (Expr_inputs expr))%nat ->
   @SubstrFunction_new Column expr
   = Fatal ("(" ++ pretty (length (Expr_inputs expr))
            ++ " vs. 3) substr expects at most 3 inputs")) /\
  (forall input,
     (2 <= length (Expr_inputs expr) <= 3)%nat ->
     Expr_inputs expr !! 1%nat = Some input ->
     (forall value, Expr_class input <> ConstantExpr value) ->
     @SubstrFunction_new Column expr
     = Fatal "substr start must be a constant") /\
  (forall start input,
     length (Expr_inputs expr) = 3%nat ->
     Expr_inputs expr !! 1%nat = Some (literalBigint start) ->
     Expr_inputs expr !! 2%nat = Some input ->
     (forall value, Expr_class input <> ConstantExpr value) ->
     @SubstrFunction_new Column expr
     = Fatal "substr length must be a constant").
Proof.
  unfold SubstrFunction_new, constantBigintInput, VELOX_CHECK_GE,
    VELOX_CHECK_LE.
  split; [| split; [| split]].
  - intros Hlen. apply Nat.leb_gt in Hlen. rewrite Hlen. reflexivity.
  - intros Hlen.
    assert (H2 : (2 <=? length (Expr_inputs expr))%nat = true)
      by (apply Nat.leb_le; lia).
    apply Nat.leb_gt in Hlen. rewrite H2, Hlen. reflexivity.
  - intros input [Hlo Hhi] Hinput Hclass.
    apply Nat.leb_le in Hlo, Hhi. rewrite Hlo, Hhi, Hinput.
    cbn [VELOX_CHECK bind].
    destruct (Expr_class input) as [| value |] eqn:E; try reflexivity.
    exfalso. apply (Hclass value). reflexivity.
  - intros start input Hlen Hstart Hinput Hclass.
    rewrite Hlen, Hstart, Hinput.
    cbn [Nat.leb Nat.ltb VELOX_CHECK bind literalBigint Expr_class].
    destruct (Expr_class input) as [| value |] eqn:E; try reflexivity.
    exfalso. apply (Hclass value). reflexivity.
Qed.

(** A start below 1 is not translated: it becomes the begin of the slice
    as it is and the end is the start plus the length, so that start 0 and
    start 1 give the same slice. *)
Theorem SubstrFunction_new_nonpositive_start
    (name : string) (type : TypeKind) (input : Expr) (start len : Z) :
  - 2 ^ 31 <= start <= 0 ->
  - 2 ^ 31 <= len <= 2 ^ 31 - 1 ->
  - 2 ^ 31 <= start + len ->
  @SubstrFunction_new Column
    (call name type [input; literalBigint start; literalBigint len])
  = Ok (SubstrFunction (mkScalar start true) (mkScalar (start + len) true)
          (mkScalar 1 true)) /\
  @SubstrFunction_new Column (call name type [input; literalBigint start])
  = Ok (SubstrFunction (mkScalar start true) (mkScalar 0 false)
          (mkScalar 1 true)) /\
  @SubstrFunction_new Column
    (call name type [input; literalBigint 0; literalBigint len])
  = @SubstrFunction_new Column
      (call name type [input; literalBigint 1; literalBigint len]).
Proof.
  intros Hstart Hlen Hend.
  unfold SubstrFunction_new, call, literalBigint, constantBigintInput.
  cbn [Expr_inputs length Nat.leb Nat.ltb VELOX_CHECK bind lookup
       list_lookup Expr_class].
  destruct (1 <=? start) eqn:E; [apply Z.leb_le in E; lia |].
  change (1 <=? 0) with false. change (1 <=? 1) with true.
  change (1 - 1) with 0.
  rewrite !wrap_size_type by lia.
  unfold size_type_add. cbn [CheckedArithmetic.minValue
    CheckedArithmetic.maxValue size_type CheckedArithmetic.int32_t
    CheckedArithmetic.isSigned CheckedArithmetic.width].
  change (32 - 1) with 31.
  destruct (- 2 ^ 31 <=? start + len) eqn:E1;
    [| apply Z.leb_gt in E1; lia].
  destruct (start + len <=? 2 ^ 31 - 1) eqn:E2;
    [| apply Z.leb_gt in E2; lia].
  repeat split; reflexivity.
Qed.

(** With the built-in strategy alone every expression is compiled by
    [FunctionExpression::create], claimed or not. *)
Lemma createCudfExpressionIn_builtin_only functions expr schema :
  createCudfExpressionIn [("function", builtinFunctionEvaluator)] functions
    expr schema None
  = FunctionExpression_create [("function", builtinFunctionEvaluator)]
      functions expr schema.
Proof.
  rewrite createCudfExpressionIn_unfold.
  cbn [selectBest isExcepted].
  destruct (claimsCompiled functions builtinFunctionEvaluator expr);
    reflexivity.
Qed.

(** Compiling and evaluating a substring call in a process that has only
    the built-in strategy: for a column of the schema, a constant start of
    at least 1 and a constant length, the compiled tree has the column as
    its one child, the constants being absorbed by the function, and its
    evaluation is the slice kernel run on that column with begin
    [start - 1], end [start - 1 + length] and step 1. *)
Theorem substr_compile_and_evaluate
    st (alias field : string) (type fieldType : TypeKind) (schema : RowType)
    (start len : Z) (i : nat) (column : Column) (columns : list Column) :
  evaluatorRegistry st = [] -> registered st = false ->
  functionRegistry st !! alias = Some substrFactory ->
  functionRegistry st !! field = None ->
  field <> "literal" ->
  indexOf field schema = Some i -> columns !! i = Some column ->
  1 <= start <= 2 ^ 31 -> 0 <= len -> start - 1 + len <= 2 ^ 31 - 1 ->
  let expr := call alias type [fieldReference field fieldType;
                               literalBigint start; literalBigint len] in
  let slice := SubstrFunction (mkScalar (start - 1) true)
                 (mkScalar (start - 1 + len) true) (mkScalar 1 true) in
  let child := FunctionExpression (fieldReference field fieldType) schema
                 None [] in
  let node := FunctionExpression expr schema (Some slice) [Some child] in
  fst (createCudfExpression st expr schema None) = Ok (Some node) /\
  eval node columns false
  = slice_strings column (mkScalar (start - 1) true)
      (mkScalar (start - 1 + len) true) (mkScalar 1 true).
Proof.
  intros Hempty Hflag Halias Hfield Hname Hi Hcol Hstart Hlen Hend
    expr slice child node.
  assert (Hliteral : String.eqb field "literal" = false)
    by (apply String.eqb_neq; exact Hname).
  assert (Hnew : @SubstrFunction_new Column expr = Ok slice).
  { apply (SubstrFunction_new_translation alias type
             (fieldReference field fieldType) start len); assumption. }
  split.
  - unfold createCudfExpression. cbn [fst].
    rewrite (ensureBuiltin_fresh st Hempty Hflag).
    cbn [evaluatorRegistry functionRegistry].
    rewrite createCudfExpressionIn_builtin_only.
    unfold FunctionExpression_create, createCudfFunction,
      CudfFunctionFactory in *.
    cbn [Expr_name expr call]. rewrite Halias.
    unfold substrFactory. fold expr. rewrite Hnew. cbn [bind].
    cbn [Expr_inputs expr call createSubexpressions fieldReference
         literalBigint Expr_name].
    rewrite Hliteral. cbn [negb String.eqb Ascii.eqb Bool.eqb].
    rewrite createCudfExpressionIn_builtin_only.
    rewrite (FunctionExpression_create_unregistered _ _
               (ExprNode FieldReference field fieldType []) schema Hfield).
    reflexivity.
  - unfold node, child, slice.
    cbn [CudfExpression_eval expr call isFieldReference Expr_class
         fieldReference Expr_name].
    unfold getChildIdx. rewrite Hi. cbn [bind]. rewrite Hcol.
    cbn [bind CudfFunction_eval].
    apply bind_Ok_r.
Qed.

End CompilationMore.

Section PipelineCompiler.
Import ToCudf.
Context {Column : Type}.
Variable getConnector : string -> Result ConnectorClass.
Variable isSupportedJoinType : JoinType -> bool.
Variable registries : @ExpressionEvaluator.Registries Column.
Variable driverFactory_ : DriverFactory.

Local Abbreviation getPlanNode := (getPlanNode driverFactory_).
Local Abbreviation isTableScanSupported :=
  (isTableScanSupported getConnector driverFactory_).
Local Abbreviation isFilterProjectSupported :=
  (isFilterProjectSupported registries driverFactory_).
Local Abbreviation isJoinSupported :=
  (isJoinSupported isSupportedJoinType driverFactory_).
Local Abbreviation isSupportedGpuOperator :=
  (isSupportedGpuOperator getConnector isSupportedJoinType registries
     driverFactory_).
Local Abbreviation acceptsGpuInput :=
  (acceptsGpuInput isSupportedJoinType registries driverFactory_).
Local Abbreviation producesGpuOutput :=
  (producesGpuOutput getConnector isSupportedJoinType registries
     driverFactory_).
Local Abbreviation GpuRetainedOperator :=
  (GpuRetainedOperator getConnector driverFactory_).
Local Abbreviation classify :=
  (classify getConnector isSupportedJoinType registries driverFactory_).
Local Abbreviation fromVeloxFor :=
  (fromVeloxFor isSupportedJoinType registries driverFactory_).
Local Abbreviation replacementFor :=
  (replacementFor getConnector isSupportedJoinType registries driverFactory_).
Local Abbreviation toVeloxFor :=
  (toVeloxFor getConnector isSupportedJoinType registries driverFactory_).
Local Abbreviation conditionFor := (conditionFor getConnector driverFactory_).
Local Abbreviation planOperator :=
  (planOperator getConnector isSupportedJoinType registries driverFactory_).
Local Abbreviation planAll :=
  (planAll getConnector isSupportedJoinType registries driverFactory_).
Local Abbreviation compileOperator :=
  (compileOperator getConnector isSupportedJoinType registries driverFactory_).
Local Abbreviation compileLoop :=
  (compileLoop getConnector isSupportedJoinType registries driverFactory_).
Local Abbreviation compile :=
  (compile getConnector isSupportedJoinType registries driverFactory_).

(** *** Index bookkeeping *)

Lemma replaceOperators_insert (done rest new : list DriverOperator) :
  replaceOperators (done ++ rest) (length done) (length done) new
  = (done ++ new ++ rest)%list.
Proof.
  unfold replaceOperators.
  rewrite take_app_length, drop_app_length. reflexivity.
Qed.

Lemma replaceOperators_replace (done rest new : list DriverOperator) x :
  replaceOperators (done ++ x :: rest) (length done + 0) (length done + 1) new
  = (done ++ new ++ rest)%list.
Proof.
  unfold replaceOperators. rewrite Nat.add_0_r, take_app_length.
  replace (done ++ x :: rest)%list with ((done ++ [x]) ++ rest)%list
    by (rewrite <- app_assoc; reflexivity).
  replace (length done + 1)%nat with (length (done ++ [x])%list)
    by (rewrite length_app; reflexivity).
  rewrite drop_app_length. reflexivity.
Qed.

Lemma replaceOperators_after (done rest new : list DriverOperator) x :
  replaceOperators (done ++ x :: rest) (length done + 1) (length done + 1) new
  = (done ++ x :: new ++ rest)%list.
Proof.
  replace (done ++ x :: rest)%list with ((done ++ [x]) ++ rest)%list
    by (rewrite <- app_assoc; reflexivity).
  replace (length done + 1)%nat with (length (done ++ [x])%list)
    by (rewrite length_app; reflexivity).
  rewrite replaceOperators_insert, <- app_assoc. reflexivity.
Qed.

(** An iteration computes its plan, enforces the fallback policy, and only
    then does the plan reach the driver. *)
Lemma compileOperator_Ok_plan allow supported size index oper loop loop' :
  compileOperator allow supported size index oper loop = Ok loop' ->
  exists plan,
    planOperator supported size index oper = Ok plan /\
    (allow = false -> condition plan = true).
Proof.
  unfold ToCudf.compileOperator, ToCudf.planOperator.
  destruct (fromVeloxFor supported index oper) as [before | |];
    cbn [bind]; try discriminate.
  destruct (replacementFor oper) as [[keep repl] | |];
    cbn [bind fst snd]; try discriminate.
  destruct (toVeloxFor supported size index oper) as [after | |];
    cbn [bind]; try discriminate.
  destruct (conditionFor oper keep (repl ++ after)) as [cond | |];
    cbn [bind]; try discriminate.
  intros H. eexists. split; [reflexivity |].
  cbn [condition]. intros ->. cbn [negb] in H.
  destruct cond; [reflexivity | discriminate].
Qed.

Ltac split_match :=
  match goal with
  | |- context [match ?x with _ => _ end] =>
      lazymatch x with
      | context [match _ with _ => _ end] => fail
      | _ => destruct x eqn:?
      end
  end.

Ltac by_class oper :=
  unfold isAnyOf; destruct (operatorClass oper) eqn:?;
  cbn [existsb OperatorClass_eqb orb negb andb bind fst snd orElse andThen].

(** [keepOperator] is 0 or 1, and [replaceOp] holds the counterpart of the
    operator exactly when it is 0. *)
Lemma replacementFor_shape oper keep repl :
  replacementFor oper = Ok (keep, repl) ->
  (keep = 1%nat /\ repl = []) \/ (keep = 0%nat /\ exists m, repl = [m]).
Proof.
  unfold ToCudf.replacementFor, ToCudf.isTableScanSupported,
    ToCudf.isJoinSupported, ToCudf.isFilterProjectSupported, getPlanNodeAs.
  by_class oper; unfold bind, VELOX_CHECK;
    repeat (split_match; cbn [fst snd]);
    intros H; inversion H; subst; eauto.
Qed.

Lemma mainOf_single oper plan :
  (keepOperator plan = 1%nat /\ replacement plan = []) \/
  (keepOperator plan = 0%nat /\ exists m, replacement plan = [m]) ->
  (keepOperator plan = 1%nat /\ replacement plan = [] /\
   mainOf oper plan = [Velox oper]) \/
  (keepOperator plan = 0%nat /\ exists m, replacement plan = [m] /\
                                         mainOf oper plan = [m]).
Proof.
  unfold mainOf. intros [[Hk Hr] | [Hk (m & Hr)]]; rewrite Hk, Hr.
  - left. split; [reflexivity |]. split; [reflexivity |]. cbn.
    destruct (adapterAfter plan); reflexivity.
  - right. split; [reflexivity |]. exists m. split; reflexivity.
Qed.

Lemma planOperator_shape supported size index oper plan :
  planOperator supported size index oper = Ok plan ->
  (keepOperator plan = 1%nat /\ replacement plan = []) \/
  (keepOperator plan = 0%nat /\ exists m, replacement plan = [m]).
Proof.
  unfold ToCudf.planOperator.
  destruct (fromVeloxFor supported index oper) as [before | |];
    cbn [bind]; try discriminate.
  destruct (replacementFor oper) as [[keep repl] | |] eqn:Hrepl;
    cbn [bind fst snd]; try discriminate.
  destruct (toVeloxFor supported size index oper) as [after | |];
    cbn [bind]; try discriminate.
  destruct (conditionFor oper keep (repl ++ after)) as [cond | |];
    cbn [bind]; try discriminate.
  intros H. inversion H; subst. cbn.
  apply (replacementFor_shape oper). assumption.
Qed.

(** One iteration on a driver that holds [done] for the operators already
    visited, then [oper] and the operators still to come: the segment of
    [oper] takes its place, and the offset again maps the next index to its
    position. *)
Lemma compileOperator_step allow supported size index oper loop done rest
    plan :
  driverOperators loop = (done ++ Velox oper :: rest)%list ->
  length done = (index + operatorsOffset loop)%nat ->
  planOperator supported size index oper = Ok plan ->
  if negb allow && negb (condition plan)
  then compileOperator allow supported size index oper loop
       = Fatal replacementFailed
  else exists loop',
      compileOperator allow supported size index oper loop = Ok loop' /\
      driverOperators loop' = ((done ++ planSegment oper plan) ++ rest)%list /\
      length (done ++ planSegment oper plan)%list
        = (S index + operatorsOffset loop')%nat /\
      replacementsMade loop' = replacementsMade loop || changes plan /\
      warnings loop'
        = (warnings loop
           ++ if allow && negb (condition plan) then [fallingBack] else [])%list.
Proof.
  intros Hops Hlen Hplan.
  pose proof (planOperator_shape _ _ _ _ _ Hplan) as Hshape.
  apply (mainOf_single oper) in Hshape.
  revert Hplan.
  unfold ToCudf.compileOperator, ToCudf.planOperator.
  destruct (fromVeloxFor supported index oper) as [before | |];
    cbn [bind]; try discriminate.
  destruct (replacementFor oper) as [[keep repl] | |];
    cbn [bind fst snd]; try discriminate.
  destruct (toVeloxFor supported size index oper) as [after | |];
    cbn [bind]; try discriminate.
  destruct (conditionFor oper keep (repl ++ after)) as [cond | |];
    cbn [bind]; try discriminate.
  intros Hplan. inversion Hplan; subst plan; clear Hplan.
  cbn [condition keepOperator replacement] in *.
  unfold planSegment, changes.
  cbn [adapterBefore adapterAfter replacement keepOperator].
  cbv zeta.
  (* the state after the from-velox block *)
  set (r := (index + operatorsOffset loop)%nat).
  set (loop1 := if negb (isEmpty before)
                then mkCompileLoop
                       (replaceOperators (driverOperators loop) r r before)
                       (operatorsOffset loop + length before) true
                       (warnings loop)
                else loop).
  assert (H1 : driverOperators loop1
               = ((done ++ before) ++ Velox oper :: rest)%list /\
               (index + operatorsOffset loop1)%nat
               = length (done ++ before)%list /\
               replacementsMade loop1
               = replacementsMade loop || negb (isEmpty before) /\
               warnings loop1 = warnings loop).
  { subst loop1 r. destruct before as [| b before];
      cbn [isEmpty negb driverOperators operatorsOffset replacementsMade
           warnings].
    - rewrite app_nil_r, orb_false_r. auto.
    - rewrite Hops, <- Hlen, replaceOperators_insert, orb_true_r.
      rewrite length_app, <- app_assoc.
      repeat split; try reflexivity. lia. }
  destruct H1 as (Hops1 & Hlen1 & Hmade1 & Hwarn1). clearbody loop1.
  set (done1 := (done ++ before)%list) in *.
  assert (Hreplace :
            replaceOperators (driverOperators loop1)
              (index + operatorsOffset loop1 + keep)
              (index + operatorsOffset loop1 + 1) (repl ++ after)
            = (done1
               ++ ((if (keep =? 0)%nat then [] else [Velox oper]) ++ repl)
               ++ after ++ rest)%list).
  { rewrite Hops1, Hlen1.
    destruct Hshape as [(-> & -> & _) | (-> & m & -> & _)]; cbn [Nat.eqb app].
    - apply replaceOperators_after.
    - apply replaceOperators_replace. }
  assert (Hmain : mainOf oper (mkPlan before keep repl after cond)
                  = if isEmpty (repl ++ after)%list then [Velox oper]
                    else ((if (keep =? 0)%nat then [] else [Velox oper])
                          ++ repl)%list) by reflexivity.
  assert (Hkeep : (keep = 0 \/ keep = 1)%nat).
  { destruct Hshape as [(-> & _) | (-> & _)]; auto. }
  assert (Hsize : isEmpty (repl ++ after)%list = false ->
            (length (((if (keep =? 0)%nat then [] else [Velox oper]) ++ repl)
                     ++ after)
             = length (repl ++ after) + keep)%nat).
  { intros _. rewrite !length_app.
    destruct Hkeep as [-> | ->]; cbn [Nat.eqb length]; lia. }
  rewrite Hmain.
  destruct allow, cond; cbn [negb andb VELOX_CHECK bind]; try reflexivity.
  all: destruct (isEmpty (repl ++ after)%list) eqn:Hempty; cbn [negb].
  all: eexists; split; [reflexivity |].
  all: cbn [driverOperators operatorsOffset replacementsMade warnings].
  all: rewrite ?Hreplace, ?Hops1, ?Hmade1, ?Hwarn1.
  all: rewrite ?app_nil_r, ?orb_false_r, ?orb_true_r.
  all: try (assert (after = []) as ->
              by (destruct repl, after; cbn in Hempty; congruence)).
  all: rewrite ?app_nil_r.
  all: subst done1.
  all: repeat split; try reflexivity.
  all: try (rewrite <- !app_assoc; reflexivity).
  all: try (rewrite (app_assoc done), length_app, <- Hlen1; cbn [length]; lia).
  all: rewrite (app_assoc done), length_app, <- Hlen1, (Hsize eq_refl).
  all: assert (1 <= length (repl ++ after)%list)%nat
         by (destruct (repl ++ after)%list; [discriminate | cbn; lia]).
  all: lia.
Qed.

(** The loop, on a driver whose visited part is [done]: when every plan can
    be computed, the run either stops at the first operator that breaks the
    policy, or leaves the segments of the operators in their order. *)
Lemma compileLoop_plans allow supported size operators :
  forall index loop done plans,
    driverOperators loop = (done ++ map Velox operators)%list ->
    length done = (index + operatorsOffset loop)%nat ->
    planAll supported size index operators = Ok plans ->
    if negb allow && negb (forallb condition plans)
    then compileLoop allow supported size index operators loop
         = Fatal replacementFailed
    else exists loop',
        compileLoop allow supported size index operators loop = Ok loop' /\
        driverOperators loop' = (done ++ segments operators plans)%list /\
        replacementsMade loop'
          = replacementsMade loop || existsb changes plans /\
        warnings loop'
          = (warnings loop ++ if allow then fallbackWarnings plans else [])%list.
Proof.
  induction operators as [| oper rest IH]; intros index loop done plans
    Hops Hlen Hplans; cbn [ToCudf.planAll ToCudf.compileLoop] in *.
  - inversion Hplans; subst plans. cbn [forallb negb andb].
    rewrite andb_false_r. exists loop.
    cbn [map segments existsb fallbackWarnings flat_map] in *.
    rewrite orb_false_r.
    split; [reflexivity |]. split; [exact Hops |]. split; [reflexivity |].
    destruct allow; rewrite app_nil_r; reflexivity.
  - destruct (planOperator supported size index oper) as [plan | |] eqn:Hplan;
      cbn [bind] in Hplans; try discriminate.
    destruct (planAll supported size (S index) rest) as [plans' | |]
      eqn:Hrest; cbn [bind] in Hplans; try discriminate.
    inversion Hplans; subst plans; clear Hplans.
    pose proof (compileOperator_step allow supported size index oper loop
                  done (map Velox rest) plan Hops Hlen Hplan) as Hstep.
    cbn [forallb].
    destruct (negb allow && negb (condition plan)) eqn:Hpolicy.
    + rewrite Hstep. cbn [bind].
      destruct allow; [discriminate |].
      destruct (condition plan); [discriminate | reflexivity].
    + destruct Hstep as (loop1 & Hrun & Hops1 & Hlen1 & Hmade1 & Hwarn1).
      rewrite Hrun. cbn [bind].
      specialize (IH (S index) loop1 (done ++ planSegment oper plan)%list
                    plans' Hops1 Hlen1 Hrest).
      assert (Hsame : negb allow && negb (condition plan && forallb condition
                                                              plans')
                      = negb allow && negb (forallb condition plans')).
      { destruct allow; [reflexivity |].
        destruct (condition plan); [reflexivity | discriminate]. }
      rewrite Hsame.
      destruct (negb allow && negb (forallb condition plans')); [exact IH |].
      destruct IH as (loop' & Hloop & Hops' & Hmade' & Hwarn').
      exists loop'. split; [exact Hloop |].
      cbn [segments existsb fallbackWarnings flat_map].
      rewrite Hops', Hmade', Hwarn', Hmade1, Hwarn1.
      rewrite <- !app_assoc, orb_assoc.
      repeat split.
      destruct allow; cbn [andb negb]; [| rewrite !app_nil_r; reflexivity].
      destruct (condition plan); reflexivity.
Qed.

(** A loop that ran to its end computed a plan for every operator, and
    without the fallback every [condition] held. *)
Lemma compileLoop_Ok_plans allow supported size operators :
  forall index loop loop',
    compileLoop allow supported size index operators loop = Ok loop' ->
    exists plans,
      planAll supported size index operators = Ok plans /\
      (allow = false -> forallb condition plans = true).
Proof.
  induction operators as [| oper rest IH]; intros index loop loop' Hrun;
    cbn [ToCudf.planAll ToCudf.compileLoop] in *.
  - exists []. auto.
  - destruct (compileOperator allow supported size index oper loop)
      as [loop1 | |] eqn:Hstep; cbn [bind] in Hrun; try discriminate.
    apply compileOperator_Ok_plan in Hstep as (plan & Hplan & Hcond).
    apply IH in Hrun as (plans & Hplans & Hconds).
    rewrite Hplan, Hplans. cbn [bind].
    exists (plan :: plans). split; [reflexivity |].
    intros Hallow. cbn [forallb]. rewrite Hcond, Hconds by assumption.
    reflexivity.
Qed.

(** [compile], given the classification and the plans. *)
Lemma compile_of_plans allow operators supported plans :
  classify operators = Ok supported ->
  planAll supported (length operators) 0 operators = Ok plans ->
  compile allow operators
  = if negb allow && negb (forallb condition plans)
    then Fatal replacementFailed
    else Ok (existsb changes plans, segments operators plans,
             if allow then fallbackWarnings plans else []).
Proof.
  intros Hclass Hplans. unfold ToCudf.compile. rewrite Hclass. cbn [bind].
  pose proof (compileLoop_plans allow supported (length operators) operators
                0%nat (mkCompileLoop (map Velox operators) 0 false []) []
                plans eq_refl eq_refl Hplans) as Hloop.
  destruct (negb allow && negb (forallb condition plans)).
  - rewrite Hloop. reflexivity.
  - destruct Hloop as (loop' & -> & Hops & Hmade & Hwarn). cbn [bind].
    rewrite Hops, Hmade, Hwarn. reflexivity.
Qed.

(** A compilation that returned did so with a plan for every operator. *)
Lemma compile_Ok_inv allow operators made compiled warns :
  compile allow operators = Ok (made, compiled, warns) ->
  exists supported plans,
    classify operators = Ok supported /\
    planAll supported (length operators) 0 operators = Ok plans /\
    (allow = false -> forallb condition plans = true) /\
    made = existsb changes plans /\
    compiled = segments operators plans /\
    warns = (if allow then fallbackWarnings plans else []).
Proof.
  intros Hrun.
  assert (Hclass : exists supported, classify operators = Ok supported).
  { unfold ToCudf.compile in Hrun.
    destruct (classify operators); try discriminate. eauto. }
  destruct Hclass as (supported & Hclass).
  assert (Hplans : exists plans,
            planAll supported (length operators) 0 operators = Ok plans /\
            (allow = false -> forallb condition plans = true)).
  { unfold ToCudf.compile in Hrun. rewrite Hclass in Hrun.
    cbn [bind] in Hrun.
    destruct (compileLoop allow supported (length operators) 0 operators _)
      as [loop' | |] eqn:Hloop; try discriminate.
    eapply compileLoop_Ok_plans. eassumption. }
  destruct Hplans as (plans & Hplans & Hconds).
  exists supported, plans.
  rewrite (compile_of_plans allow operators supported plans Hclass Hplans)
    in Hrun.
  destruct allow; cbn [negb andb] in Hrun.
  - inversion Hrun. auto 10.
  - rewrite (Hconds eq_refl) in Hrun. inversion Hrun. auto 10.
Qed.

(** *** Plans by position *)

Lemma planAll_lookup supported size operators :
  forall index plans k oper,
    planAll supported size index operators = Ok plans ->
    operators !! k = Some oper ->
    exists plan,
      plans !! k = Some plan /\
      planOperator supported size (index + k) oper = Ok plan.
Proof.
  induction operators as [| o rest IH]; intros index plans k oper Hplans Hk;
    [discriminate |].
  cbn [ToCudf.planAll] in Hplans.
  destruct (planOperator supported size index o) as [plan | |] eqn:Hplan;
    cbn [bind] in Hplans; try discriminate.
  destruct (planAll supported size (S index) rest) as [plans' | |] eqn:Hrest;
    cbn [bind] in Hplans; try discriminate.
  inversion Hplans; subst plans; clear Hplans.
  destruct k as [| k]; cbn in Hk.
  - inversion Hk; subst o. exists plan. rewrite Nat.add_0_r. auto.
  - destruct (IH (S index) plans' k oper Hrest Hk) as (p & Hp & Hop).
    exists p. split; [exact Hp |].
    replace (index + S k)%nat with (S index + k)%nat by lia. exact Hop.
Qed.

Lemma classify_lookup operators :
  forall supported k oper,
    classify operators = Ok supported ->
    operators !! k = Some oper ->
    exists b, isSupportedGpuOperator oper = Ok b /\
              supported !! k = Some b /\ nth k supported false = b.
Proof.
  induction operators as [| o rest IH]; intros supported k oper Hclass Hk;
    [discriminate |].
  cbn [ToCudf.classify] in Hclass.
  destruct (isSupportedGpuOperator o) as [b | |] eqn:Hb;
    cbn [bind] in Hclass; try discriminate.
  destruct (classify rest) as [bs | |] eqn:Hrest;
    cbn [bind] in Hclass; try discriminate.
  inversion Hclass; subst supported; clear Hclass.
  destruct k as [| k]; cbn in Hk.
  - inversion Hk; subst o. exists b. auto.
  - destruct (IH bs k oper eq_refl Hk) as (b' & H1 & H2 & H3).
    exists b'. auto.
Qed.

Lemma segments_split :
  forall operators plans k oper plan,
    operators !! k = Some oper ->
    plans !! k = Some plan ->
    segments operators plans
    = (segments (take k operators) (take k plans)
       ++ planSegment oper plan
       ++ segments (drop (S k) operators) (drop (S k) plans))%list.
Proof.
  induction operators as [| o rest IH]; intros plans k oper plan Hk Hp;
    [discriminate |].
  destruct plans as [| p plans]; [discriminate |].
  destruct k as [| k]; cbn in Hk, Hp.
  - inversion Hk; inversion Hp; subst. reflexivity.
  - cbn [take drop segments]. rewrite (IH plans k oper plan Hk Hp).
    rewrite <- app_assoc. reflexivity.
Qed.

(** *** What a plan holds *)

Ltac open_plan :=
  unfold ToCudf.planOperator, ToCudf.fromVeloxFor, ToCudf.toVeloxFor,
    ToCudf.conditionFor, ToCudf.replacementFor, ToCudf.GpuRetainedOperator,
    ToCudf.GpuReplacedOperator, ToCudf.isSupportedGpuOperator,
    ToCudf.acceptsGpuInput, ToCudf.producesGpuOutput,
    ToCudf.isTableScanSupported, ToCudf.isJoinSupported,
    ToCudf.isFilterProjectSupported, getPlanNodeAs.

(** An operator classified as not GPU gets no adapter and no counterpart;
    its [condition] holds only for the classes retained by design. *)
Lemma planOperator_ineligible supported size index oper plan :
  isSupportedGpuOperator oper = Ok false ->
  planOperator supported size index oper = Ok plan ->
  plan = mkPlan [] 1 [] [] (isAnyOf [Values; CallbackSink] oper).
Proof.
  open_plan.
  by_class oper; unfold bind, VELOX_CHECK, orElse, andThen;
    repeat (split_match; cbn [fst snd andb orb negb isEmpty app Nat.eqb]);
    intros Hs Hp; inversion Hs; inversion Hp; subst; try reflexivity;
    try discriminate.
Qed.

(** A local-partition operator: the counterpart replaces it exactly when
    [shouldReplace] holds of its partitioning; it is never followed by a
    to-velox adapter. *)
Lemma planOperator_localPartition supported size index oper plan node spec :
  operatorClass oper = LocalPartition ->
  getPlanNode (planNodeId oper) = Ok node ->
  nodeClass node = LocalPartitionNode spec ->
  planOperator supported size index oper = Ok plan ->
  replacementFor oper
    = Ok (if shouldReplace spec
          then (0%nat, [CudfLocalPartition node])
          else (1%nat, [])) /\
  keepOperator plan = (if shouldReplace spec then 0%nat else 1%nat) /\
  replacement plan
    = (if shouldReplace spec
       then [CudfLocalPartition node] else []) /\
  adapterAfter plan = [] /\
  condition plan = shouldReplace spec /\
  mainOf oper plan
    = [if shouldReplace spec
       then CudfLocalPartition node else Velox oper] /\
  (adapterBefore plan = [] \/
   adapterBefore plan
   = [CudfFromVelox (nodeId node ++ "-from-velox")]).
Proof.
  intros Hclass Hnode Hspec Hplan.
  assert (Hrepl : replacementFor oper
                  = Ok (if shouldReplace spec
                        then (0%nat, [CudfLocalPartition node])
                        else (1%nat, []))).
  { open_plan. unfold isAnyOf. rewrite Hclass, Hnode.
    cbn [existsb OperatorClass_eqb orb negb andb bind fst snd orElse andThen
         VELOX_CHECK].
    rewrite Hspec. cbn [isLocalPartitionNode VELOX_CHECK bind].
    rewrite Hspec. destruct (shouldReplace spec); reflexivity. }
  split; [exact Hrepl |].
  revert Hplan. unfold ToCudf.planOperator. rewrite Hrepl.
  unfold ToCudf.fromVeloxFor, ToCudf.toVeloxFor, ToCudf.conditionFor,
    ToCudf.GpuRetainedOperator, ToCudf.GpuReplacedOperator,
    ToCudf.acceptsGpuInput, ToCudf.producesGpuOutput,
    ToCudf.isTableScanSupported, ToCudf.isJoinSupported,
    ToCudf.isFilterProjectSupported, isAnyOf, mainOf.
  rewrite Hclass, Hnode.
  cbn [existsb OperatorClass_eqb orb negb andb bind fst snd orElse andThen].
  destruct ((0 <? index)%nat && negb (nth (index - 1) supported false));
    cbn [andThen bind]; destruct (shouldReplace spec);
    cbn [bind fst snd app isEmpty negb andb orb Nat.eqb orElse];
    intros Hplan; inversion Hplan; subst plan;
    cbn [keepOperator replacement adapterAfter adapterBefore condition
         isEmpty app Nat.eqb];
    auto 10.
Qed.

(** The to-velox block of a plan: the adapter is there exactly when the
    operator produces GPU output and the next operator is not GPU or the
    operator is the last one of the task. *)
Lemma planOperator_toVelox supported size index oper plan :
  planOperator supported size index oper = Ok plan ->
  exists produces,
    producesGpuOutput oper = Ok produces /\
    let nextOperatorIsNotGpu :=
      (index <? size - 1)%nat && negb (nth (index + 1) supported false) in
    let isLastOperatorOfTask :=
      outputDriver driverFactory_ && (index =? size - 1)%nat in
    if produces && (nextOperatorIsNotGpu || isLastOperatorOfTask)
    then exists node,
        getPlanNode (planNodeId oper) = Ok node /\
        adapterAfter plan
        = [CudfToVelox (nodeId node ++ "-to-velox")]
    else adapterAfter plan = [].
Proof.
  unfold ToCudf.planOperator.
  destruct (fromVeloxFor supported index oper) as [before | |];
    cbn [bind]; try discriminate.
  destruct (replacementFor oper) as [[keep repl] | |];
    cbn [bind fst snd]; try discriminate.
  destruct (toVeloxFor supported size index oper) as [after | |] eqn:Hafter;
    cbn [bind]; try discriminate.
  destruct (conditionFor oper keep (repl ++ after)) as [cond | |];
    cbn [bind]; try discriminate.
  intros H. inversion H; subst plan; clear H. cbn [adapterAfter].
  revert Hafter. unfold ToCudf.toVeloxFor.
  destruct (producesGpuOutput oper) as [produces | |]; cbn [bind];
    try discriminate.
  exists produces. split; [reflexivity |]. cbv zeta.
  destruct (produces && _).
  - destruct (getPlanNode (planNodeId oper)) as [node | |]; cbn [bind] in *;
      try discriminate.
    inversion Hafter. eauto.
  - inversion Hafter. reflexivity.
Qed.

(** Neither the adapter put before an operator nor what stands for the
    operator is a to-velox adapter. *)
Lemma planOperator_no_other_toVelox supported size index oper plan :
  planOperator supported size index oper = Ok plan ->
  forallb (fun d => negb (isToVelox d)) (adapterBefore plan ++ mainOf oper plan)
  = true.
Proof.
  unfold mainOf. open_plan.
  by_class oper; unfold bind, VELOX_CHECK, orElse, andThen;
    repeat (split_match; cbn [fst snd andb orb negb isEmpty app Nat.eqb]);
    intros Hp; inversion Hp; subst; try reflexivity; try discriminate.
Qed.

Lemma forallb_lookup_false {A : Type} (f : A -> bool) (l : list A) k x :
  l !! k = Some x -> f x = false -> forallb f l = false.
Proof.
  revert k. induction l as [| y l IH]; intros k Hk Hx; [discriminate |].
  destruct k as [| k]; cbn in Hk; cbn [forallb].
  - inversion Hk; subst. rewrite Hx. reflexivity.
  - rewrite (IH k Hk Hx). apply andb_false_r.
Qed.

Lemma forallb_exists_false (plans : list OperatorPlan) :
  forallb condition plans = false ->
  exists k plan, plans !! k = Some plan /\ condition plan = false.
Proof.
  induction plans as [| p plans IH]; [discriminate |]. cbn [forallb].
  destruct (condition p) eqn:Hp; cbn [andb].
  - intros H. destruct (IH H) as (k & plan & Hk & Hf).
    exists (S k), plan. auto.
  - intros _. exists 0%nat, p. auto.
Qed.

Lemma fallbackWarnings_lookup plans k plan :
  plans !! k = Some plan -> condition plan = false ->
  In fallingBack (fallbackWarnings plans).
Proof.
  intros Hk Hcond. unfold fallbackWarnings. apply in_flat_map.
  exists plan. split.
  - apply list_elem_of_In. eapply list_elem_of_lookup_2. eassumption.
  - rewrite Hcond. left. reflexivity.
Qed.

(** C2, as the code has it. In a pipeline for which every plan-node lookup
    of the compiler succeeds, take an operator that is classified as not
    eligible. With the fallback allowed [compile] returns, and the operator
    stands unchanged in the compiled pipeline, with no adapter of its own
    around it. Its [condition] holds exactly when it is a [Values] or a
    [CallbackSink] operator, the classes retained by design. For any other
    class the fallback warning is logged, and without the fallback [compile]
    raises "Replacement with cuDF operator failed". *)
Theorem fallback_policy operators supported plans k oper :
  classify operators = Ok supported ->
  planAll supported (length operators) 0 operators = Ok plans ->
  operators !! k = Some oper ->
  isSupportedGpuOperator oper = Ok false ->
  compile true operators
    = Ok (existsb changes plans, segments operators plans,
          fallbackWarnings plans) /\
  segments operators plans
    = (segments (take k operators) (take k plans)
       ++ [Velox oper]
       ++ segments (drop (S k) operators) (drop (S k) plans))%list /\
  plans !! k
    = Some (mkPlan [] 1 [] [] (isAnyOf [Values; CallbackSink] oper)) /\
  (isAnyOf [Values; CallbackSink] oper = false ->
   compile false operators = Fatal replacementFailed /\
   In fallingBack (fallbackWarnings plans)).
Proof.
  intros Hclass Hplans Hk Hsup.
  destruct (planAll_lookup _ _ _ _ _ _ _ Hplans Hk) as (plan & Hp & Hplan).
  pose proof (planOperator_ineligible _ _ _ _ _ Hsup Hplan) as Heq.
  split; [| split; [| split]].
  - apply (compile_of_plans true operators supported plans Hclass Hplans).
  - rewrite (segments_split operators plans k oper plan Hk Hp).
    subst plan. reflexivity.
  - rewrite Hp, Heq. reflexivity.
  - intros Hretained.
    assert (Hcond : condition plan = false)
      by (subst plan; exact Hretained).
    split.
    + rewrite (compile_of_plans false operators supported plans Hclass Hplans).
      rewrite (forallb_lookup_false _ _ _ _ Hp Hcond). reflexivity.
    + eapply fallbackWarnings_lookup; eassumption.
Qed.

(** C7, as the code has it. In a compiled pipeline the operators that
    belong to the operator at position [k] are, in this order, the adapter
    put before it, the operator or its counterpart, and the adapter put
    after it. A to-velox adapter is put immediately after exactly when the
    operator produces GPU output and either the next operator of the
    original sequence is not eligible or the operator is the last one of
    the task: the last one of the pipeline, in a pipeline whose factory has
    [outputDriver] set. Nothing else in that stretch is a to-velox
    adapter. *)
Theorem toVelox_adapter_placement allow operators made compiled warns k oper :
  compile allow operators = Ok (made, compiled, warns) ->
  operators !! k = Some oper ->
  exists supported plans plan produces main,
    classify operators = Ok supported /\
    planAll supported (length operators) 0 operators = Ok plans /\
    plans !! k = Some plan /\
    producesGpuOutput oper = Ok produces /\
    mainOf oper plan = [main] /\
    compiled
    = (segments (take k operators) (take k plans)
       ++ (adapterBefore plan ++ [main] ++ adapterAfter plan)
       ++ segments (drop (S k) operators) (drop (S k) plans))%list /\
    forallb (fun d => negb (isToVelox d)) (adapterBefore plan ++ [main])
    = true /\
    let nextOperatorIsNotGpu :=
      (k <? length operators - 1)%nat && negb (nth (k + 1) supported false) in
    let isLastOperatorOfTask :=
      outputDriver driverFactory_ && (k =? length operators - 1)%nat in
    if produces && (nextOperatorIsNotGpu || isLastOperatorOfTask)
    then exists node,
        getPlanNode (planNodeId oper) = Ok node /\
        adapterAfter plan
        = [CudfToVelox (nodeId node ++ "-to-velox")]
    else adapterAfter plan = [].
Proof.
  intros Hrun Hk.
  apply compile_Ok_inv in Hrun
    as (supported & plans & Hclass & Hplans & _ & _ & -> & _).
  destruct (planAll_lookup _ _ _ _ _ _ _ Hplans Hk) as (plan & Hp & Hplan).
  cbn [Nat.add] in Hplan.
  destruct (planOperator_toVelox _ _ _ _ _ Hplan) as (produces & Hprod & Hafter).
  pose proof (planOperator_no_other_toVelox _ _ _ _ _ Hplan) as Hnone.
  pose proof (mainOf_single oper plan (planOperator_shape _ _ _ _ _ Hplan))
    as Hmain.
  assert (Hsingle : exists main, mainOf oper plan = [main]).
  { destruct Hmain as [(_ & _ & ->) | (_ & m & _ & ->)]; eauto. }
  destruct Hsingle as (main & Hsingle).
  exists supported, plans, plan, produces, main.
  rewrite Hsingle in Hnone.
  repeat (split; [assumption |]).
  split; [| split; [exact Hnone | exact Hafter]].
  rewrite (segments_split operators plans k oper plan Hk Hp).
  unfold planSegment. rewrite Hsingle. reflexivity.
Qed.

(** C8. In a compiled pipeline, a local-partition operator whose node has
    round-robin partitioning stands unchanged at its position and no
    counterpart is built for it, while one whose node has hash partitioning
    has given way to its [CudfLocalPartition]; neither is followed by an
    adapter of its own. *)
Theorem local_partition_replacement
    allow operators made compiled warns k oper node spec :
  compile allow operators = Ok (made, compiled, warns) ->
  operators !! k = Some oper ->
  operatorClass oper = LocalPartition ->
  getPlanNode (planNodeId oper) = Ok node ->
  nodeClass node = LocalPartitionNode spec ->
  exists supported plans plan,
    classify operators = Ok supported /\
    planAll supported (length operators) 0 operators = Ok plans /\
    plans !! k = Some plan /\
    replacementFor oper
    = Ok (match spec with
          | RoundRobinPartition => (1%nat, [])
          | HashPartition =>
              (0%nat, [CudfLocalPartition node])
          end) /\
    compiled
    = (segments (take k operators) (take k plans)
       ++ (adapterBefore plan
           ++ [match spec with
               | RoundRobinPartition => Velox oper
               | HashPartition => CudfLocalPartition node
               end])
       ++ segments (drop (S k) operators) (drop (S k) plans))%list /\
    (adapterBefore plan = [] \/
     adapterBefore plan
     = [CudfFromVelox (nodeId node ++ "-from-velox")]).
Proof.
  intros Hrun Hk Hclass Hnode Hspec.
  apply compile_Ok_inv in Hrun
    as (supported & plans & Hcls & Hplans & _ & _ & -> & _).
  destruct (planAll_lookup _ _ _ _ _ _ _ Hplans Hk) as (plan & Hp & Hplan).
  destruct (planOperator_localPartition _ _ _ _ _ _ _ Hclass Hnode Hspec Hplan)
    as (Hrepl & _ & _ & Hafter & _ & Hmain & Hbefore).
  exists supported, plans, plan.
  repeat (split; [assumption |]).
  split; [| split; [| exact Hbefore]].
  - rewrite Hrepl. destruct spec; reflexivity.
  - rewrite (segments_split operators plans k oper plan Hk Hp).
    unfold planSegment. rewrite Hmain, Hafter, app_nil_r.
    destruct spec; reflexivity.
Qed.

(** Without the fallback a round-robin local partition stops the
    compilation: it is kept, and [condition] does not count a kept local
    partition as retained. *)
Lemma roundRobin_without_fallback operators supported plans k oper node :
  classify operators = Ok supported ->
  planAll supported (length operators) 0 operators = Ok plans ->
  operators !! k = Some oper ->
  operatorClass oper = LocalPartition ->
  getPlanNode (planNodeId oper) = Ok node ->
  nodeClass node = LocalPartitionNode RoundRobinPartition ->
  compile false operators = Fatal replacementFailed.
Proof.
  intros Hclass Hplans Hk Hcls Hnode Hspec.
  destruct (planAll_lookup _ _ _ _ _ _ _ Hplans Hk) as (plan & Hp & Hplan).
  destruct (planOperator_localPartition _ _ _ _ _ _ _ Hcls Hnode Hspec Hplan)
    as (_ & _ & _ & _ & Hcond & _).
  rewrite (compile_of_plans false operators supported plans Hclass Hplans).
  rewrite (forallb_lookup_false _ _ _ _ Hp Hcond). reflexivity.
Qed.

(** ** Further properties of the pipeline compiler *)

(** [getPlanNode] returns a node of the requested id: the first such node
    of the plan, in the order of [planNodes], when there is one, else the
    consumer node, and it raises when the consumer node has another id. *)
Theorem getPlanNode_spec (id : string) :
  (forall node, getPlanNode id = Ok node ->
     nodeId node = id /\
     ((exists before after,
          planNodes driverFactory_ = (before ++ node :: after)%list /\
          forall n, In n before -> nodeId n <> id) \/
      (consumerNode driverFactory_ = Some node /\
       forall n, In n (planNodes driverFactory_) -> nodeId n <> id))) /\
  (forall before node after,
     planNodes driverFactory_ = (before ++ node :: after)%list ->
     (forall n, In n before -> nodeId n <> id) ->
     nodeId node = id ->
     getPlanNode id = Ok node) /\
  (forall consumer,
     (forall n, In n (planNodes driverFactory_) -> nodeId n <> id) ->
     consumerNode driverFactory_ = Some consumer ->
     (nodeId consumer = id -> getPlanNode id = Ok consumer) /\
     (nodeId consumer <> id -> isFatal (getPlanNode id) = true)).
Proof.
  assert (Hfirst : forall nodes before node after,
            nodes = (before ++ node :: after)%list ->
            (forall n, In n before -> nodeId n <> id) ->
            nodeId node = id ->
            List.find (fun n => String.eqb (nodeId n) id) nodes = Some node).
  { intros nodes before node after -> Hbefore Hid.
    induction before as [| b before IH]; cbn [app List.find].
    - apply String.eqb_eq in Hid. rewrite Hid. reflexivity.
    - assert (Hb : String.eqb (nodeId b) id = false)
        by (apply String.eqb_neq; apply Hbefore; left; reflexivity).
      rewrite Hb. apply IH. intros n Hn. apply Hbefore. right. exact Hn. }
  assert (Hsplit : forall nodes node,
            List.find (fun n => String.eqb (nodeId n) id) nodes = Some node ->
            nodeId node = id /\
            exists before after,
              nodes = (before ++ node :: after)%list /\
              forall n, In n before -> nodeId n <> id).
  { induction nodes as [| b nodes IH]; intros node Hfind; [discriminate |].
    cbn [List.find] in Hfind.
    destruct (String.eqb (nodeId b) id) eqn:Hb.
    - inversion Hfind; subst b. apply String.eqb_eq in Hb.
      split; [exact Hb |]. exists [], nodes. split; [reflexivity |].
      intros n [].
    - destruct (IH node Hfind) as (Hid & before & after & -> & Hbefore).
      split; [exact Hid |]. exists (b :: before), after.
      split; [reflexivity |].
      intros n [<- | Hn]; [apply String.eqb_neq; exact Hb | auto]. }
  unfold ToCudf.getPlanNode.
  split; [| split].
  - intros node.
    destruct (List.find (fun n => String.eqb (nodeId n) id)
                (planNodes driverFactory_)) as [found |] eqn:Hfind.
    + intros H. inversion H; subst found.
      destruct (Hsplit _ _ Hfind) as (Hid & Hwhere). auto.
    + assert (Hnone : forall n, In n (planNodes driverFactory_) ->
                                nodeId n <> id).
      { intros n Hin Heq.
        pose proof (find_none _ _ Hfind n Hin) as Hn. cbn in Hn.
        apply String.eqb_neq in Hn. contradiction. }
      destruct (consumerNode driverFactory_) as [c |]; [| discriminate].
      unfold VELOX_CHECK. destruct (String.eqb (nodeId c) id) eqn:E;
        cbn [bind]; [| discriminate].
      intros H. inversion H; subst. apply String.eqb_eq in E. auto.
  - intros before node after Hnodes Hbefore Hid.
    rewrite (Hfirst _ before node after Hnodes Hbefore Hid). reflexivity.
  - intros consumer Hnone Hconsumer.
    assert (Hfind : List.find (fun n => String.eqb (nodeId n) id)
                      (planNodes driverFactory_) = None).
    { destruct (List.find (fun n => String.eqb (nodeId n) id)
                  (planNodes driverFactory_)) as [found |] eqn:Hfind;
        [| reflexivity].
      apply find_some in Hfind as [Hin Heq]. apply String.eqb_eq in Heq.
      exfalso. exact (Hnone found Hin Heq). }
    rewrite Hfind, Hconsumer. unfold VELOX_CHECK. split.
    + intros Hid. apply String.eqb_eq in Hid. rewrite Hid. reflexivity.
    + intros Hne. apply String.eqb_neq in Hne. rewrite Hne. reflexivity.
Qed.

(** The from-velox block of a plan. *)
Lemma planOperator_fromVelox supported size index oper plan :
  planOperator supported size index oper = Ok plan ->
  let previousOperatorIsNotGpu :=
    (0 <? index)%nat && negb (nth (index - 1) supported false) in
  if previousOperatorIsNotGpu
  then exists accepts,
      acceptsGpuInput oper = Ok accepts /\
      if accepts
      then exists node,
          getPlanNode (planNodeId oper) = Ok node /\
          adapterBefore plan = [CudfFromVelox (nodeId node ++ "-from-velox")]
      else adapterBefore plan = []
  else adapterBefore plan = [].
Proof.
  unfold ToCudf.planOperator.
  destruct (fromVeloxFor supported index oper) as [before | |] eqn:Hbefore;
    cbn [bind]; try discriminate.
  destruct (replacementFor oper) as [[keep repl] | |];
    cbn [bind fst snd]; try discriminate.
  destruct (toVeloxFor supported size index oper) as [after | |];
    cbn [bind]; try discriminate.
  destruct (conditionFor oper keep (repl ++ after)) as [cond | |];
    cbn [bind]; try discriminate.
  intros H. inversion H; subst plan; clear H. cbn [adapterBefore].
  revert Hbefore. unfold ToCudf.fromVeloxFor. cbv zeta.
  destruct ((0 <? index)%nat && negb (nth (index - 1) supported false));
    cbn [andThen bind].
  - destruct (acceptsGpuInput oper) as [accepts | |]; cbn [bind];
      try discriminate.
    intros Hbefore. exists accepts. split; [reflexivity |].
    destruct accepts.
    + destruct (getPlanNode (planNodeId oper)) as [node | |]; cbn [bind] in *;
        try discriminate.
      inversion Hbefore. eauto.
    + inversion Hbefore. reflexivity.
  - intros Hbefore. inversion Hbefore. reflexivity.
Qed.

(** In a compiled pipeline a from-velox adapter stands immediately before
    the operator at position [k], or its counterpart, exactly when the
    operator before it in the original sequence is not eligible and the
    operator accepts GPU input; the first operator never gets one. *)
Theorem fromVelox_adapter_placement
    allow operators made compiled warns k oper :
  compile allow operators = Ok (made, compiled, warns) ->
  operators !! k = Some oper ->
  exists supported plans plan main,
    classify operators = Ok supported /\
    planAll supported (length operators) 0 operators = Ok plans /\
    plans !! k = Some plan /\
    mainOf oper plan = [main] /\
    compiled
    = (segments (take k operators) (take k plans)
       ++ (adapterBefore plan ++ [main] ++ adapterAfter plan)
       ++ segments (drop (S k) operators) (drop (S k) plans))%list /\
    (k = 0%nat -> adapterBefore plan = []) /\
    let previousOperatorIsNotGpu :=
      (0 <? k)%nat && negb (nth (k - 1) supported false) in
    if previousOperatorIsNotGpu
    then exists accepts,
        acceptsGpuInput oper = Ok accepts /\
        if accepts
        then exists node,
            getPlanNode (planNodeId oper) = Ok node /\
            adapterBefore plan
            = [CudfFromVelox (nodeId node ++ "-from-velox")]
        else adapterBefore plan = []
    else adapterBefore plan = [].
Proof.
  intros Hrun Hk.
  apply compile_Ok_inv in Hrun
    as (supported & plans & Hclass & Hplans & _ & _ & -> & _).
  destruct (planAll_lookup _ _ _ _ _ _ _ Hplans Hk) as (plan & Hp & Hplan).
  cbn [Nat.add] in Hplan.
  pose proof (planOperator_fromVelox _ _ _ _ _ Hplan) as Hbefore.
  pose proof (mainOf_single oper plan (planOperator_shape _ _ _ _ _ Hplan))
    as Hmain.
  assert (Hsingle : exists main, mainOf oper plan = [main]).
  { destruct Hmain as [(_ & _ & ->) | (_ & m & _ & ->)]; eauto. }
  destruct Hsingle as (main & Hsingle).
  exists supported, plans, plan, main.
  repeat (split; [assumption |]).
  split; [| split; [| exact Hbefore]].
  - rewrite (segments_split operators plans k oper plan Hk Hp).
    unfold planSegment. rewrite Hsingle. reflexivity.
  - intros ->. exact Hbefore.
Qed.

(** What the parts of a plan are made of: the blocks before and after
    hold at most one adapter each, and a counterpart is neither an adapter
    nor an operator of the host. *)
Lemma planOperator_parts supported size index oper plan :
  planOperator supported size index oper = Ok plan ->
  forallb isAdapter (adapterBefore plan) = true /\
  forallb isAdapter (adapterAfter plan) = true /\
  forallb (fun d => negb (isAdapter d) && negb (isVelox d)) (replacement plan)
  = true /\
  (length (adapterBefore plan) <= 1)%nat /\
  (length (adapterAfter plan) <= 1)%nat.
Proof.
  open_plan.
  by_class oper; unfold bind, VELOX_CHECK, orElse, andThen;
    repeat (split_match; cbn [fst snd andb orb negb isEmpty app Nat.eqb]);
    intros Hp; inversion Hp; subst; try discriminate;
    cbn; repeat split; lia.
Qed.

(** The segment of an operator: adapters around exactly one operator that
    is not an adapter. *)
Lemma planSegment_shape supported size index oper plan :
  planOperator supported size index oper = Ok plan ->
  exists main,
    planSegment oper plan
    = (adapterBefore plan ++ [main] ++ adapterAfter plan)%list /\
    isAdapter main = false /\
    (isVelox main = true -> main = Velox oper) /\
    (changes plan = false -> planSegment oper plan = [Velox oper]) /\
    (changes plan = true ->
     existsb (fun d => negb (isVelox d)) (planSegment oper plan) = true).
Proof.
  intros Hplan.
  destruct (planOperator_parts _ _ _ _ _ Hplan)
    as (Hbefore & Hafter & Hrepl & _ & _).
  pose proof (mainOf_single oper plan (planOperator_shape _ _ _ _ _ Hplan))
    as [(Hkeep & Hr & Hmain) | (Hkeep & m & Hr & Hmain)].
  - exists (Velox oper). unfold planSegment, changes. rewrite Hmain, Hr.
    split; [reflexivity |]. split; [reflexivity |]. split; [reflexivity |].
    cbn [app]. split.
    + destruct (adapterBefore plan); [| discriminate].
      destruct (adapterAfter plan); [reflexivity | discriminate].
    + intros Hc. destruct (adapterBefore plan) as [| b bs] eqn:Eb.
      * destruct (adapterAfter plan) as [| a rest] eqn:Ea;
          [cbn in Hc; discriminate |].
        cbn [forallb] in Hafter. apply andb_prop in Hafter as [Ha _].
        destruct a; try discriminate; cbn; reflexivity.
      * cbn [forallb] in Hbefore. apply andb_prop in Hbefore as [Hb _].
        destruct b; try discriminate; cbn; reflexivity.
  - rewrite Hr in Hrepl. cbn [forallb] in Hrepl.
    apply andb_prop in Hrepl as [Hm _]. apply andb_prop in Hm as [Hm1 Hm2].
    exists m. unfold planSegment, changes. rewrite Hmain, Hr.
    split; [reflexivity |].
    split; [destruct (isAdapter m); [discriminate | reflexivity] |].
    split; [intros Hv; rewrite Hv in Hm2; discriminate |].
    split.
    + cbn. rewrite orb_true_r. discriminate.
    + intros _. rewrite existsb_app. cbn [app existsb].
      rewrite Hm2. cbn [orb]. apply orb_true_r.
Qed.

Lemma segments_counts supported size operators :
  forall index plans,
    planAll supported size index operators = Ok plans ->
    length (List.filter (fun d => negb (isAdapter d))
              (segments operators plans)) = length operators /\
    (length (segments operators plans) <= 3 * length operators)%nat /\
    (forall o, In (Velox o) (segments operators plans) -> In o operators) /\
    existsb (fun d => negb (isVelox d)) (segments operators plans)
    = existsb changes plans /\
    (existsb changes plans = false ->
     segments operators plans = map Velox operators).
Proof.
  induction operators as [| oper rest IH]; intros index plans Hplans.
  - inversion Hplans; subst. cbn. repeat split; auto.
  - cbn [ToCudf.planAll] in Hplans.
    destruct (planOperator supported size index oper) as [plan | |] eqn:Hplan;
      cbn [bind] in Hplans; try discriminate.
    destruct (planAll supported size (S index) rest) as [plans' | |] eqn:Hrest;
      cbn [bind] in Hplans; try discriminate.
    inversion Hplans; subst plans; clear Hplans.
    destruct (IH (S index) plans' Hrest) as (IH1 & IH2 & IH3 & IH4 & IH5).
    destruct (planOperator_parts _ _ _ _ _ Hplan)
      as (Hbefore & Hafter & _ & Hlb & Hla).
    destruct (planSegment_shape _ _ _ _ _ Hplan)
      as (main & Hseg & Hmain & Hvelox & Hsame & Hchanged).
    cbn [segments]. split; [| split; [| split; [| split]]].
    + rewrite List.filter_app, length_app, IH1, Hseg.
      rewrite !List.filter_app, !length_app. cbn [List.filter].
      rewrite Hmain. cbn [negb length].
      assert (Hnone : forall l, forallb isAdapter l = true ->
                length (List.filter (fun d => negb (isAdapter d)) l) = 0%nat).
      { induction l as [| d l IHl]; [reflexivity |]. cbn [forallb List.filter].
        intros H. apply andb_prop in H as [-> Hl]. cbn [negb]. auto. }
      rewrite (Hnone _ Hbefore), (Hnone _ Hafter). reflexivity.
    + rewrite length_app, Hseg, !length_app. cbn [length]. lia.
    + intros o Hin. apply in_app_or in Hin as [Hin | Hin].
      * left. rewrite Hseg in Hin.
        assert (Hno : forall l, forallb isAdapter l = true ->
                                ~ In (Velox o) l).
        { intros l Hl Hino. rewrite forallb_forall in Hl.
          specialize (Hl _ Hino). discriminate. }
        apply in_app_or in Hin as [Hin | Hin];
          [exfalso; exact (Hno _ Hbefore Hin) |].
        apply in_app_or in Hin as [Hin | Hin];
          [| exfalso; exact (Hno _ Hafter Hin)].
        destruct Hin as [Hin | []]. specialize (Hvelox ltac:(subst; reflexivity)).
        congruence.
      * right. auto.
    + rewrite existsb_app, IH4. cbn [existsb]. f_equal.
      destruct (changes plan) eqn:Hc.
      * apply Hchanged. reflexivity.
      * rewrite (Hsame eq_refl). reflexivity.
    + cbn [existsb map]. intros Hnone. apply orb_false_elim in Hnone as [Hc Hr].
      rewrite (Hsame Hc), (IH5 Hr). reflexivity.
Qed.

(** A compiled pipeline holds, in the places of the operators the driver
    had on entry, exactly one operator each, the others being adapters, of
    which there are at most two per operator. An operator of the host in
    the compiled pipeline is one the driver had on entry. *)
Theorem compile_bookkeeping allow operators made compiled warns :
  compile allow operators = Ok (made, compiled, warns) ->
  length (List.filter (fun d => negb (isAdapter d)) compiled)
  = length operators /\
  length compiled
  = (length operators + length (List.filter isAdapter compiled))%nat /\
  (length operators <= length compiled <= 3 * length operators)%nat /\
  (forall o, In (Velox o) compiled -> In o operators).
Proof.
  intros Hrun.
  apply compile_Ok_inv in Hrun
    as (supported & plans & _ & Hplans & _ & _ & -> & _).
  destruct (segments_counts _ _ _ _ _ Hplans) as (H1 & H2 & H3 & _ & _).
  pose proof (List.filter_length isAdapter (segments operators plans)) as Hlen.
  rewrite H1 in Hlen.
  repeat split; try assumption; lia.
Qed.

(** The flag [compile] returns tells whether the driver changed: it is
    true exactly when the compiled pipeline holds an operator that is not
    one of the host, and when it is false the driver holds the operators it
    had on entry. *)
Theorem compile_flag_iff_changed allow operators made compiled warns :
  compile allow operators = Ok (made, compiled, warns) ->
  made = existsb (fun d => negb (isVelox d)) compiled /\
  (made = false <-> compiled = map Velox operators).
Proof.
  intros Hrun.
  apply compile_Ok_inv in Hrun
    as (supported & plans & _ & Hplans & _ & -> & -> & _).
  destruct (segments_counts _ _ _ _ _ Hplans) as (_ & _ & _ & H4 & H5).
  split; [symmetry; exact H4 |]. split; [exact H5 |].
  intros Heq. rewrite <- H4, Heq.
  clear. induction operators as [| o rest IH]; [reflexivity |].
  cbn. exact IH.
Qed.

(** Allowing the fallback never changes what a successful compilation
    without it produced: the same flag and the same operators, and no
    warning is logged. With the fallback allowed [compile] returns whenever
    every operator could be classified and planned, and a warning is logged
    exactly when the compilation without the fallback raises. *)
Theorem compile_fallback_monotone operators :
  (forall made compiled warns,
     compile false operators = Ok (made, compiled, warns) ->
     warns = [] /\ compile true operators = Ok (made, compiled, [])) /\
  (forall made compiled warns,
     compile true operators = Ok (made, compiled, warns) ->
     if isEmpty warns
     then compile false operators = Ok (made, compiled, [])
     else compile false operators = Fatal replacementFailed /\
          Forall (fun w => w = fallingBack) warns).
Proof.
  assert (Hwarn : forall plans : list OperatorPlan,
            (forallb condition plans = true -> fallbackWarnings plans = []) /\
            (forallb condition plans = false ->
             isEmpty (fallbackWarnings plans) = false) /\
            Forall (fun w => w = fallingBack) (fallbackWarnings plans)).
  { induction plans as [| plan plans (IH1 & IH2 & IH3)].
    - cbn. repeat split; [discriminate | constructor].
    - unfold fallbackWarnings in *. cbn [forallb flat_map].
      destruct (condition plan); cbn [andb app].
      + auto.
      + split; [discriminate |]. split; [reflexivity |].
        constructor; [reflexivity | exact IH3]. }
  split.
  - intros made compiled warns Hrun.
    apply compile_Ok_inv in Hrun
      as (supported & plans & Hclass & Hplans & Hconds & -> & -> & ->).
    split; [reflexivity |].
    rewrite (compile_of_plans true operators supported plans Hclass Hplans).
    cbn [negb andb].
    rewrite (proj1 (Hwarn plans) (Hconds eq_refl)). reflexivity.
  - intros made compiled warns Hrun.
    apply compile_Ok_inv in Hrun
      as (supported & plans & Hclass & Hplans & _ & -> & -> & ->).
    rewrite (compile_of_plans false operators supported plans Hclass Hplans).
    cbn [negb andb].
    destruct (Hwarn plans) as (H1 & H2 & H3).
    destruct (forallb condition plans).
    + rewrite (H1 eq_refl). reflexivity.
    + rewrite (H2 eq_refl). auto.
Qed.

(** Two neighbours that are both eligible stay neighbours: no adapter is
    put after the first or before the second, so the operators that stand
    for them are adjacent in the compiled pipeline. *)
Theorem adjacent_eligible_operators_share_no_adapter
    allow operators made compiled warns k first second :
  compile allow operators = Ok (made, compiled, warns) ->
  operators !! k = Some first ->
  operators !! S k = Some second ->
  isSupportedGpuOperator first = Ok true ->
  isSupportedGpuOperator second = Ok true ->
  exists supported plans planFirst planSecond mainFirst mainSecond,
    planAll supported (length operators) 0 operators = Ok plans /\
    plans !! k = Some planFirst /\
    plans !! S k = Some planSecond /\
    adapterAfter planFirst = [] /\
    adapterBefore planSecond = [] /\
    mainOf first planFirst = [mainFirst] /\
    mainOf second planSecond = [mainSecond] /\
    isAdapter mainFirst = false /\
    isAdapter mainSecond = false /\
    compiled
    = (segments (take k operators) (take k plans)
       ++ adapterBefore planFirst
       ++ [mainFirst; mainSecond]
       ++ adapterAfter planSecond
       ++ segments (drop (S (S k)) operators) (drop (S (S k)) plans))%list.
Proof.
  intros Hrun Hk Hk' Hfirst Hsecond.
  apply compile_Ok_inv in Hrun
    as (supported & plans & Hclass & Hplans & _ & _ & -> & _).
  destruct (planAll_lookup _ _ _ _ _ _ _ Hplans Hk) as (p1 & Hp1 & Hplan1).
  destruct (planAll_lookup _ _ _ _ _ _ _ Hplans Hk') as (p2 & Hp2 & Hplan2).
  cbn [Nat.add] in Hplan1, Hplan2.
  destruct (classify_lookup _ _ _ _ Hclass Hk) as (b1 & Hb1 & _ & Hn1).
  destruct (classify_lookup _ _ _ _ Hclass Hk') as (b2 & Hb2 & _ & Hn2).
  assert (b1 = true) as -> by congruence.
  assert (b2 = true) as -> by congruence.
  assert (Hlen : (S k < length operators)%nat)
    by (eapply lookup_lt_Some; eassumption).
  destruct (planOperator_toVelox _ _ _ _ _ Hplan1) as (produces & _ & Hafter).
  cbv zeta in Hafter.
  replace (k + 1)%nat with (S k) in Hafter by lia. rewrite Hn2 in Hafter.
  replace (k =? length operators - 1)%nat with false in Hafter
    by (symmetry; apply Nat.eqb_neq; lia).
  cbn [negb] in Hafter. rewrite !andb_false_r in Hafter. cbn [orb] in Hafter.
  pose proof (planOperator_fromVelox _ _ _ _ _ Hplan2) as Hbefore.
  cbv zeta in Hbefore.
  replace (S k - 1)%nat with k in Hbefore by lia. rewrite Hn1 in Hbefore.
  cbn [negb] in Hbefore. rewrite andb_false_r in Hbefore.
  destruct (planSegment_shape _ _ _ _ _ Hplan1) as (m1 & Hs1 & Hm1 & _).
  destruct (planSegment_shape _ _ _ _ _ Hplan2) as (m2 & Hs2 & Hm2 & _).
  assert (Hmain1 : mainOf first p1 = [m1]).
  { unfold planSegment in Hs1. apply app_inv_head in Hs1.
    apply app_inv_tail in Hs1. exact Hs1. }
  assert (Hmain2 : mainOf second p2 = [m2]).
  { unfold planSegment in Hs2. apply app_inv_head in Hs2.
    apply app_inv_tail in Hs2. exact Hs2. }
  exists supported, plans, p1, p2, m1, m2.
  repeat (split; [assumption |]).
  rewrite (segments_split operators plans k first p1 Hk Hp1).
  assert (Hk2 : drop (S k) operators !! 0%nat = Some second)
    by (rewrite lookup_drop, Nat.add_0_r; exact Hk').
  assert (Hp2' : drop (S k) plans !! 0%nat = Some p2)
    by (rewrite lookup_drop, Nat.add_0_r; exact Hp2).
  rewrite (segments_split (drop (S k) operators) (drop (S k) plans) 0 second p2
             Hk2 Hp2').
  rewrite !drop_drop, !firstn_O. cbn [segments app].
  rewrite Hs1, Hs2, Hafter, Hbefore.
  replace (S k + 1)%nat with (S (S k)) by lia.
  cbn [app]. rewrite <- !app_assoc. reflexivity.
Qed.

(** [condition], the check behind the fallback policy, holds of an
    operator exactly when a counterpart replaced it, or when it is of a
    retained class and was left with neither counterpart nor to-velox
    adapter. Without the fallback [compile] raises exactly when the check
    fails for some operator. *)
Theorem fallback_check_characterisation operators supported plans :
  classify operators = Ok supported ->
  planAll supported (length operators) 0 operators = Ok plans ->
  (forall k oper plan,
     operators !! k = Some oper -> plans !! k = Some plan ->
     (condition plan = true <->
      (keepOperator plan = 0%nat /\ exists m, replacement plan = [m]) \/
      (keepOperator plan = 1%nat /\ replacement plan = [] /\
       adapterAfter plan = [] /\ GpuRetainedOperator oper = Ok true))) /\
  (compile false operators = Fatal replacementFailed <->
   exists k plan, plans !! k = Some plan /\ condition plan = false) /\
  (isOk (compile false operators) = true <->
   forall k plan, plans !! k = Some plan -> condition plan = true).
Proof.
  intros Hclass Hplans.
  assert (Hall : forallb condition plans = true <->
                 forall k plan, plans !! k = Some plan -> condition plan = true).
  { rewrite forallb_forall. split.
    - intros H k plan Hk. apply H. apply list_elem_of_In.
      eapply list_elem_of_lookup_2. eassumption.
    - intros H plan Hin. apply list_elem_of_In in Hin.
      apply list_elem_of_lookup_1 in Hin as (k & Hk). eauto. }
  split; [| split].
  - intros k oper plan Hk Hp.
    destruct (planAll_lookup _ _ _ _ _ _ _ Hplans Hk) as (plan' & Hp' & Hplan).
    rewrite Hp in Hp'. inversion Hp'; subst plan'; clear Hp'.
    revert Hplan. clear. open_plan.
    by_class oper; unfold bind, VELOX_CHECK, orElse, andThen;
      repeat (split_match; cbn [fst snd andb orb negb isEmpty app Nat.eqb]);
      intros Hp; inversion Hp; subst; try discriminate;
      cbn [condition keepOperator replacement adapterAfter];
      (split;
       [ intros Hc; try discriminate;
         first [ left; split; [reflexivity | eexists; reflexivity]
               | right; repeat split; reflexivity ]
       | intros [(Hkeep & m & Hm) | (Hkeep & Hr & Ha & Hret)];
         try discriminate; try reflexivity ]).
  - rewrite (compile_of_plans false operators supported plans Hclass Hplans).
    cbn [negb andb]. destruct (forallb condition plans) eqn:Hc; cbn [negb].
    + split; [discriminate |]. intros (k & plan & Hk & Hfalse).
      rewrite (proj1 Hall eq_refl k plan Hk) in Hfalse. discriminate.
    + split; [| reflexivity]. intros _.
      destruct (forallb_exists_false plans) as (k & plan & Hk & Hf);
        [exact Hc | eauto].
  - rewrite (compile_of_plans false operators supported plans Hclass Hplans).
    cbn [negb andb]. rewrite <- Hall.
    destruct (forallb condition plans); cbn [negb isOk]; split; auto.
Qed.

(** A kept operator that hands GPU data on: a local exchange, or a table
    scan of a cuDF connector. *)
Lemma planOperator_kept_producer supported size index oper plan :
  operatorClass oper = LocalExchange \/ isTableScanSupported oper = Ok true ->
  planOperator supported size index oper = Ok plan ->
  isSupportedGpuOperator oper = Ok true /\
  producesGpuOutput oper = Ok true /\
  adapterBefore plan = [] /\
  keepOperator plan = 1%nat /\
  replacement plan = [] /\
  condition plan = isEmpty (adapterAfter plan).
Proof.
  intros Hkind. revert Hkind. open_plan.
  by_class oper; unfold bind, VELOX_CHECK, orElse, andThen;
    repeat (split_match; cbn [fst snd andb orb negb isEmpty app Nat.eqb]);
    intros [Hk | Hk] Hp; inversion Hk; inversion Hp; subst; try discriminate;
    cbn; repeat split; reflexivity.
Qed.

(** A local exchange, or a table scan of a cuDF connector, is kept in the
    pipeline and hands GPU data on. When the operator after it is not
    eligible, or it is the last operator of the task, the to-velox adapter
    it then gets makes [condition] false: with the fallback allowed the
    warning is logged, and without it [compile] raises. *)
Theorem kept_gpu_producer_needs_fallback operators supported plans k oper :
  classify operators = Ok supported ->
  planAll supported (length operators) 0 operators = Ok plans ->
  operators !! k = Some oper ->
  operatorClass oper = LocalExchange \/ isTableScanSupported oper = Ok true ->
  (k <? length operators - 1)%nat && negb (nth (k + 1) supported false)
  || outputDriver driverFactory_ && (k =? length operators - 1)%nat = true ->
  exists node,
    getPlanNode (planNodeId oper) = Ok node /\
    plans !! k
    = Some (mkPlan [] 1 [] [CudfToVelox (nodeId node ++ "-to-velox")] false) /\
    segments operators plans
    = (segments (take k operators) (take k plans)
       ++ [Velox oper; CudfToVelox (nodeId node ++ "-to-velox")]
       ++ segments (drop (S k) operators) (drop (S k) plans))%list /\
    compile false operators = Fatal replacementFailed /\
    compile true operators
    = Ok (true, segments operators plans, fallbackWarnings plans) /\
    In fallingBack (fallbackWarnings plans).
Proof.
  intros Hclass Hplans Hk Hkind Hnext.
  destruct (planAll_lookup _ _ _ _ _ _ _ Hplans Hk) as (plan & Hp & Hplan).
  cbn [Nat.add] in Hplan.
  destruct (planOperator_kept_producer _ _ _ _ _ Hkind Hplan)
    as (_ & Hprod & Hbefore & Hkeep & Hrepl & Hcond).
  destruct (planOperator_toVelox _ _ _ _ _ Hplan) as (produces & Hprod' & Hafter).
  rewrite Hprod in Hprod'. inversion Hprod'; subst produces; clear Hprod'.
  cbv zeta in Hafter. rewrite Hnext in Hafter. cbn [andb] in Hafter.
  destruct Hafter as (node & Hnode & Hafter).
  rewrite Hafter in Hcond. cbn [isEmpty] in Hcond.
  assert (Heq : plan
                = mkPlan [] 1 [] [CudfToVelox (nodeId node ++ "-to-velox")]
                    false).
  { destruct plan; cbn in *; subst; reflexivity. }
  assert (Hchanged : existsb changes plans = true).
  { apply existsb_exists. exists plan. split.
    - apply list_elem_of_In. eapply list_elem_of_lookup_2. eassumption.
    - rewrite Heq. reflexivity. }
  exists node. split; [exact Hnode |]. split; [rewrite Hp, Heq; reflexivity |].
  split; [| split; [| split]].
  - rewrite (segments_split operators plans k oper plan Hk Hp).
    rewrite Heq. reflexivity.
  - rewrite (compile_of_plans false operators supported plans Hclass Hplans).
    rewrite (forallb_lookup_false _ _ _ _ Hp Hcond). reflexivity.
  - rewrite (compile_of_plans true operators supported plans Hclass Hplans).
    cbn [negb andb]. rewrite Hchanged. reflexivity.
  - eapply fallbackWarnings_lookup; eassumption.
Qed.

(** The operators that are replaced whatever their expressions: a sort, a
    hash aggregation, a limit and a unique-id assignment are eligible
    without any lookup, and each gives way to its own counterpart, built
    from its plan node, with [condition] true. A plan node of another class
    makes the iteration raise. *)
Theorem unconditional_counterparts supported size index oper node :
  isAnyOf [OrderBy; HashAggregation; Limit; AssignUniqueId] oper = true ->
  getPlanNode (planNodeId oper) = Ok node ->
  let expected :=
    match operatorClass oper with
    | OrderBy => isOrderByNode
    | HashAggregation => isAggregationNode
    | Limit => isLimitNode
    | _ => isAssignUniqueIdNode
    end in
  let counterpart :=
    match operatorClass oper with
    | OrderBy => CudfOrderBy
    | HashAggregation => CudfHashAggregation
    | Limit => CudfLimit
    | _ => CudfAssignUniqueId
    end in
  isSupportedGpuOperator oper = Ok true /\
  acceptsGpuInput oper = Ok true /\
  producesGpuOutput oper = Ok true /\
  if expected (nodeClass node)
  then exists before after,
      planOperator supported size index oper
      = Ok (mkPlan before 0 [counterpart node] after true)
  else planOperator supported size index oper = Fatal "planNode != nullptr".
Proof.
  intros Hany Hnode. cbv zeta. revert Hany. open_plan. unfold isAnyOf.
  destruct (operatorClass oper) eqn:Hcls;
    cbn [existsb OperatorClass_eqb orb negb andb bind fst snd orElse andThen];
    try discriminate; intros _; rewrite !Hnode; cbn [bind];
    (split; [reflexivity |]); (split; [reflexivity |]);
    (split; [reflexivity |]);
    unfold VELOX_CHECK;
    destruct (nodeClass node);
    cbn [isOrderByNode isAggregationNode isLimitNode isAssignUniqueIdNode bind];
    destruct ((0 <? index)%nat && negb (nth (index - 1) supported false));
    cbn [andThen bind fst snd app isEmpty negb andb orb Nat.eqb orElse];
    try reflexivity;
    destruct ((index <? size - 1)%nat && negb (nth (index + 1) supported false)
              || outputDriver driverFactory_ && (index =? size - 1)%nat);
    cbn [andThen bind fst snd app isEmpty negb andb orb Nat.eqb orElse];
    do 2 eexists; reflexivity.
Qed.

Local Abbreviation canBeEvaluatedByCudf :=
  (ToCudf.canBeEvaluatedByCudf registries).

(** A filter-project operator is eligible exactly when the registered
    strategies can evaluate the projections of its project node and the
    predicate of its filter. Then one [CudfFilterProject], built from the
    filter and the project node, replaces it; else it is kept and
    [condition] is false. An operator with neither a project node nor a
    filter counts as eligible, and its iteration raises. *)
Theorem filterProject_plan supported size index oper node :
  operatorClass oper = FilterProject ->
  getPlanNode (planNodeId oper) = Ok node ->
  let projectionsOk :=
    match nodeClass node with
    | ProjectNode projections => canBeEvaluatedByCudf projections
    | _ => true
    end in
  let filterOk :=
    match filterNode oper with
    | Some filter => canBeEvaluatedByCudf [filter]
    | None => true
    end in
  let projectPlanNode :=
    if isProjectNode (nodeClass node) then Some node else None in
  isSupportedGpuOperator oper = Ok (projectionsOk && filterOk) /\
  acceptsGpuInput oper = Ok (projectionsOk && filterOk) /\
  producesGpuOutput oper = Ok (projectionsOk && filterOk) /\
  if projectionsOk && filterOk
  then
    if isSome projectPlanNode || isSome (filterNode oper)
    then exists before after,
        planOperator supported size index oper
        = Ok (mkPlan before 0
                [CudfFilterProject (filterNode oper) projectPlanNode]
                after true)
    else planOperator supported size index oper
         = Fatal "projectPlanNode != nullptr or filterPlanNode != nullptr"
  else planOperator supported size index oper = Ok (mkPlan [] 1 [] [] false).
Proof.
  intros Hcls Hnode. cbv zeta. open_plan. unfold isAnyOf.
  rewrite Hcls.
  cbn [existsb OperatorClass_eqb orb negb andb bind fst snd orElse andThen].
  rewrite !Hnode. cbn [bind].
  set (projectionsOk := match nodeClass node with
                        | ProjectNode projections =>
                            canBeEvaluatedByCudf projections
                        | _ => true
                        end).
  assert (Hsupported :
            (match filterNode oper with
             | Some filter =>
                 if projectionsOk && negb (canBeEvaluatedByCudf [filter])
                 then false else projectionsOk
             | None => projectionsOk
             end)
            = projectionsOk
              && match filterNode oper with
                 | Some filter => canBeEvaluatedByCudf [filter]
                 | None => true
                 end).
  { destruct (filterNode oper) as [filter |];
      [| rewrite andb_true_r; reflexivity].
    destruct projectionsOk, (canBeEvaluatedByCudf [filter]); reflexivity. }
  rewrite !Hsupported.
  destruct (projectionsOk
            && match filterNode oper with
               | Some filter => canBeEvaluatedByCudf [filter]
               | None => true
               end);
    cbn [orElse andThen bind andb orb fst snd].
  - repeat (split; [reflexivity |]). unfold VELOX_CHECK.
    destruct ((0 <? index)%nat && negb (nth (index - 1) supported false));
      cbn [andThen bind];
      destruct (isSome (if isProjectNode (nodeClass node)
                        then Some node else None)
                || isSome (filterNode oper));
      cbn [bind fst snd app isEmpty negb andb orb Nat.eqb orElse];
      try reflexivity;
      destruct ((index <? size - 1)%nat
                && negb (nth (index + 1) supported false)
                || outputDriver driverFactory_ && (index =? size - 1)%nat);
      cbn [andThen bind fst snd app isEmpty negb andb orb Nat.eqb orElse];
      do 2 eexists; reflexivity.
  - repeat (split; [reflexivity |]).
    destruct ((0 <? index)%nat && negb (nth (index - 1) supported false));
      cbn [andThen bind fst snd app isEmpty negb andb orb Nat.eqb orElse];
      reflexivity.
Qed.

(** A hash-join operator is eligible exactly when its plan node is a hash
    join of a supported type that is not a null-aware anti join with a
    filter; a plan node of another class makes it ineligible, not an error.
    An eligible build or probe gives way to its counterpart with
    [condition] true; only the probe hands GPU data on, so a build is never
    followed by a to-velox adapter. An ineligible one is kept and
    [condition] is false. *)
Theorem hashJoin_plan supported size index oper node :
  isAnyOf [HashBuild; HashProbe] oper = true ->
  getPlanNode (planNodeId oper) = Ok node ->
  let supportedJoin :=
    match nodeClass node with
    | HashJoinNode joinType isNullAware filter =>
        isSupportedJoinType joinType
        && negb (isAnti joinType && isNullAware && isSome filter)
    | _ => false
    end in
  isSupportedGpuOperator oper = Ok supportedJoin /\
  acceptsGpuInput oper = Ok supportedJoin /\
  producesGpuOutput oper = Ok (isAnyOf [HashProbe] oper && supportedJoin) /\
  if supportedJoin
  then exists before after,
      planOperator supported size index oper
      = Ok (mkPlan before 0
              [if isAnyOf [HashBuild] oper
               then CudfHashJoinBuild node else CudfHashJoinProbe node]
              after true) /\
      (isAnyOf [HashBuild] oper = true -> after = [])
  else planOperator supported size index oper = Ok (mkPlan [] 1 [] [] false).
Proof.
  intros Hany Hnode. cbv zeta. revert Hany. open_plan. unfold isAnyOf.
  destruct (operatorClass oper) eqn:Hcls;
    cbn [existsb OperatorClass_eqb orb negb andb bind fst snd orElse andThen];
    try discriminate; intros _; rewrite !Hnode; cbn [bind];
    unfold VELOX_CHECK;
    (destruct (nodeClass node) as
        [? | ? | ? | joinType isNullAware [filter |] | | | | ? | |];
     cbn [isSome isHashJoinNode bind fst snd orElse andThen andb orb negb];
     try rewrite !andb_false_r; try rewrite !andb_true_r;
     cbn [isSome isHashJoinNode bind fst snd orElse andThen andb orb negb];
     try destruct (isSupportedJoinType joinType);
     try destruct (isAnti joinType);
     try destruct isNullAware;
     cbn [isSome isHashJoinNode bind fst snd orElse andThen andb orb negb];
     (split; [reflexivity |]); (split; [reflexivity |]);
     (split; [reflexivity |]);
     destruct ((0 <? index)%nat && negb (nth (index - 1) supported false));
     cbn [andThen bind fst snd app isEmpty negb andb orb Nat.eqb orElse];
     try reflexivity;
     try (destruct ((index <? size - 1)%nat
                    && negb (nth (index + 1) supported false)
                    || outputDriver driverFactory_
                       && (index =? size - 1)%nat);
          cbn [andThen bind fst snd app isEmpty negb andb orb Nat.eqb orElse]);
     do 2 eexists; (split; [reflexivity |]); intros H;
     first [reflexivity | discriminate H]).
Qed.

(** The driver adapter leaves the driver alone exactly when cuDF is
    switched off and the fallback is allowed; without the fallback it
    compiles whatever the switch says. Whenever it returns, its flag is
    false exactly when the driver holds the operators it had on entry. *)
Theorem CudfDriverAdapter_spec
    (allow : bool) (queryEnabled : option bool) (enabled : bool) operators :
  let adapt :=
    CudfDriverAdapter getConnector isSupportedJoinType registries
      driverFactory_ in
  (default enabled queryEnabled = false ->
   adapt true queryEnabled enabled operators
   = Ok (false, map Velox operators, [])) /\
  adapt false queryEnabled enabled operators = compile false operators /\
  (default enabled queryEnabled = true ->
   adapt allow queryEnabled enabled operators = compile allow operators) /\
  (forall made compiled warns,
     adapt allow queryEnabled enabled operators = Ok (made, compiled, warns) ->
     (made = false <-> compiled = map Velox operators) /\
     (forall o, In (Velox o) compiled -> In o operators)).
Proof.
  cbv zeta. unfold ToCudf.CudfDriverAdapter.
  split; [intros ->; reflexivity |].
  split; [rewrite andb_false_r; reflexivity |].
  split; [intros ->; reflexivity |].
  intros made compiled warns.
  destruct (negb (default enabled queryEnabled) && allow).
  - intros H. inversion H; subst. split; [tauto |].
    intros o Hin. apply in_map_iff in Hin as (o' & Heq & Hin).
    inversion Heq; subst. exact Hin.
  - intros Hrun.
    apply compile_Ok_inv in Hrun
      as (supported & plans & _ & Hplans & _ & -> & -> & _).
    destruct (segments_counts _ _ _ _ _ Hplans) as (_ & _ & H3 & H4 & H5).
    split; [| exact H3]. split; [exact H5 |].
    intros Heq. rewrite <- H4, Heq.
    clear. induction operators as [| o rest IH]; [reflexivity |].
    cbn. exact IH.
Qed.

End PipelineCompiler.

(** * Concrete instances *)

Section Instances.
Import ExpressionEvaluator.


(** The second strategy registered before and after the built-in one: in
    both iteration orders it is the one selected for [c0], which both
    strategies claim. *)
Lemma createCudfExpression_selects_highest_priority_witness :
  let before := Sample.registerAst Sample.initial in
  let after :=
    Sample.registerAst
      (ensureBuiltinExpressionEvaluatorsRegistered Sample.initial) in
  map fst (evaluatorRegistry
             (ensureBuiltinExpressionEvaluatorsRegistered before))
    = ["ast"; "function"] /\
  map fst (evaluatorRegistry after) = ["function"; "ast"] /\
  fst (createCudfExpression before Sample.c0 Sample.schema None)
    = Ok (Some Sample.astExpression) /\
  fst (createCudfExpression after Sample.c0 Sample.schema None)
    = Ok (Some Sample.astExpression).
Proof.
  intros before after.
  pose proof (@createCudfExpression_selects_highest_priority Sample.Column)
    as T.
  split; [reflexivity |].
  split; [reflexivity |].
  split.
  - destruct (T before Sample.c0 Sample.schema None "ast" Sample.astEntry)
      as (H & _).
    + left. reflexivity.
    + reflexivity.
    + intros n e [Heq | [Heq | []]] _; inversion Heq; subst.
      * left. reflexivity.
      * right. reflexivity.
    + exact H.
  - destruct (T after Sample.c0 Sample.schema None "ast" Sample.astEntry)
      as (H & _).
    + right. left. reflexivity.
    + reflexivity.
    + intros n e [Heq | [Heq | []]] _; inversion Heq; subst.
      * right. reflexivity.
      * left. reflexivity.
    + exact H.
Defined.

(** With the built-in strategy excluded nobody claims
    [substr(c0, c1)], and the fallback then raises the construction-time
    check of [SubstrFunction] (the start is not a constant): the call ends
    without returning an object. *)
Lemma createCudfExpression_fallback_may_raise :
  let st := Sample.initial in
  let st' := ensureBuiltinExpressionEvaluatorsRegistered st in
  let expr := call "substr" VARCHAR [Sample.c0; Sample.c1] in
  (forall name entry, In (name, entry) (evaluatorRegistry st') ->
     candidate (functionRegistry st') expr (Some "function") name entry
     = false) /\
  fst (createCudfExpression st expr Sample.schema (Some "function"))
    = Fatal "substr start must be a constant" /\
  ~ (exists object,
       fst (createCudfExpression st expr Sample.schema (Some "function"))
       = Ok (Some object)).
Proof.
  intros st st' expr.
  assert (H : fst (createCudfExpression st expr Sample.schema
                     (Some "function"))
              = Fatal "substr start must be a constant") by reflexivity.
  split; [| split].
  - intros name entry [Heq | []]. inversion Heq; subst. reflexivity.
  - exact H.
  - intros [object Hobj]. rewrite H in Hobj. discriminate.
Defined.

(** A call to the unregistered name [foo]: nobody claims it and the fallback
    returns the node, which has no function. *)
Lemma createCudfExpression_falls_back_to_FunctionExpression_witness :
  let st := Sample.initial in
  let expr := call "foo" VARCHAR [Sample.c0] in
  fst (createCudfExpression st expr Sample.schema None)
    = Ok (Some (FunctionExpression expr Sample.schema None [])) /\
  fst (createCudfExpression st expr Sample.schema None) <> Ok None.
Proof.
  intros st expr.
  destruct (@createCudfExpression_falls_back_to_FunctionExpression
              Sample.Column st expr Sample.schema None)
    as (_ & Hnull & _ & Hnode).
  - intros name entry [Heq | []]. inversion Heq; subst. reflexivity.
  - split; [apply Hnode; reflexivity | exact Hnull].
Defined.

(** Compiling the call to the unregistered name [foo] succeeds and yields a
    node; evaluating that node is what fails. Nothing marks the node as
    uncompilable when it is built. *)
Lemma unregistered_call_is_compiled :
  let st := Sample.initial in
  let expr := call "foo" VARCHAR [Sample.c0] in
  let node := FunctionExpression expr Sample.schema None [] in
  Sample.functions !! "foo" = None /\
  fst (createCudfExpression st expr Sample.schema None) = Ok (Some node) /\
  FunctionExpression_create
    (evaluatorRegistry (ensureBuiltinExpressionEvaluatorsRegistered st))
    Sample.functions expr Sample.schema = Ok (Some node) /\
  isOk (FunctionExpression_create
          (evaluatorRegistry (ensureBuiltinExpressionEvaluatorsRegistered st))
          Sample.functions expr Sample.schema) = true /\
  Sample.eval node [["abc"]; ["1"]] true
    = Fatal "Unsupported expression for recursive evaluation: foo".
Proof.
  intros st expr node. repeat split; reflexivity.
Defined.

(** The same call, through the general statement. *)
Lemma unregistered_call_fails_at_evaluation_witness :
  let expr := call "foo" VARCHAR [Sample.c0] in
  let node := FunctionExpression expr Sample.schema None [] in
  FunctionExpression_create [] Sample.functions expr Sample.schema
    = Ok (Some node) /\
  Sample.eval node [["abc"]; ["1"]] true
    = Fatal "Unsupported expression for recursive evaluation: foo" /\
  FunctionExpression_canEvaluate Sample.functions expr = false.
Proof.
  intros expr node.
  destruct (unregistered_call_fails_at_evaluation
              Sample.veloxToCudfTypeId Sample.data_type_eqb Sample.columnType
              Sample.cudf_cast Sample.slice_strings
              [] Sample.functions expr Sample.schema)
    as (Hcreate & Heval & Hcan & _).
  - reflexivity.
  - reflexivity.
  - split; [exact Hcreate |].
    split; [apply Heval | exact Hcan].
Defined.

(** *** Pipelines *)

(** [Values] is not eligible, yet the pipeline [Values; OrderBy] compiles
    without the fallback: no fatal error, [Values] is retained, and with the
    fallback allowed nothing is logged for it. *)
Lemma ineligible_Values_is_retained_without_error :
  let operators := [Sample.valuesOp; Sample.orderByOp] in
  let compiled :=
    [ToCudf.Velox Sample.valuesOp;
     ToCudf.CudfFromVelox "orderby-from-velox";
     ToCudf.CudfOrderBy Sample.orderByNode;
     ToCudf.CudfToVelox "orderby-to-velox"] in
  ToCudf.isSupportedGpuOperator Sample.getConnector Sample.isSupportedJoinType
    Sample.initial (Sample.driverFactory true) Sample.valuesOp = Ok false /\
  Sample.compile true false operators = Ok (true, compiled, []) /\
  isFatal (Sample.compile true false operators) = false /\
  Sample.compile true true operators = Ok (true, compiled, []).
Proof.
  repeat split; reflexivity.
Defined.

(** [TopN] is not eligible and not retained by design: the pipeline
    [Values; TopN] fails without the fallback and keeps both operators,
    with a warning, when the fallback is allowed. *)
Lemma fallback_policy_witness :
  let operators := [Sample.valuesOp; Sample.topNOp] in
  Sample.compile true false operators = Fatal ToCudf.replacementFailed /\
  Sample.compile true true operators
    = Ok (false, [ToCudf.Velox Sample.valuesOp; ToCudf.Velox Sample.topNOp],
          [ToCudf.fallingBack]).
Proof.
  intros operators.
  pose (plans := [ToCudf.mkPlan [] 1 [] [] true; ToCudf.mkPlan [] 1 [] [] false]).
  destruct (fallback_policy Sample.getConnector Sample.isSupportedJoinType
              Sample.initial (Sample.driverFactory true)
              operators [false; false] plans 1 Sample.topNOp)
    as (Hok & _ & _ & Hfatal); try reflexivity.
  destruct (Hfatal eq_refl) as (Hraise & _).
  split; [exact Hraise | exact Hok].
Defined.

(** A pipeline that is not the output pipeline of its task and ends with
    [OrderBy]: the operator produces GPU output and is the terminal operator
    of the pipeline, and no to-velox adapter follows its counterpart. The
    same pipeline with [outputDriver] set gets the adapter. *)
Lemma terminal_operator_without_outputDriver :
  let operators := [Sample.orderByOp] in
  ToCudf.producesGpuOutput Sample.getConnector Sample.isSupportedJoinType
    Sample.initial (Sample.driverFactory false) Sample.orderByOp = Ok true /\
  (0 =? length operators - 1)%nat = true /\
  Sample.compile false true operators
    = Ok (true, [ToCudf.CudfOrderBy Sample.orderByNode], []) /\
  Sample.compile false false operators
    = Ok (true, [ToCudf.CudfOrderBy Sample.orderByNode], []) /\
  Sample.compile true true operators
    = Ok (true, [ToCudf.CudfOrderBy Sample.orderByNode;
                 ToCudf.CudfToVelox "orderby-to-velox"], []).
Proof.
  repeat split; reflexivity.
Defined.

(** [OrderBy] followed by [TopN], which is not eligible: the adapter comes
    right after the counterpart of [OrderBy]. *)
Lemma toVelox_adapter_placement_witness :
  let operators := [Sample.orderByOp; Sample.topNOp] in
  Sample.compile false true operators
    = Ok (true, [ToCudf.CudfOrderBy Sample.orderByNode;
                 ToCudf.CudfToVelox "orderby-to-velox";
                 ToCudf.Velox Sample.topNOp], [ToCudf.fallingBack]) /\
  exists plan,
    ToCudf.planOperator Sample.getConnector Sample.isSupportedJoinType
      Sample.initial (Sample.driverFactory false) [true; false] 2 0
      Sample.orderByOp = Ok plan /\
    ToCudf.adapterAfter plan = [ToCudf.CudfToVelox "orderby-to-velox"].
Proof.
  intros operators.
  assert (Hrun : Sample.compile false true operators
                 = Ok (true, [ToCudf.CudfOrderBy Sample.orderByNode;
                              ToCudf.CudfToVelox "orderby-to-velox";
                              ToCudf.Velox Sample.topNOp],
                       [ToCudf.fallingBack])) by reflexivity.
  split; [exact Hrun |].
  destruct (toVelox_adapter_placement Sample.getConnector
              Sample.isSupportedJoinType Sample.initial
              (Sample.driverFactory false) true operators _ _ _ 0
              Sample.orderByOp Hrun eq_refl)
    as (supported & plans & plan & produces & main & Hclass & Hplans & Hp
        & Hprod & _ & _ & _ & Hafter).
  assert (supported = [true; false]) as -> by (inversion Hclass; reflexivity).
  assert (produces = true) as -> by (inversion Hprod; reflexivity).
  destruct Hafter as (node & Hnode & Hadapter).
  assert (node = Sample.orderByNode) as -> by (inversion Hnode; reflexivity).
  exists plan. split; [| exact Hadapter].
  cbn in Hplans. inversion Hplans; subst plans.
  inversion Hp; subst plan. reflexivity.
Defined.

(** [Values], then a round-robin and a hash local partition, compiled with
    the fallback allowed: the first local partition is kept, the second is
    replaced. *)
Lemma local_partition_replacement_witness :
  let operators := [Sample.valuesOp; Sample.roundRobinOp; Sample.hashOp] in
  Sample.compile false true operators
    = Ok (true,
          [ToCudf.Velox Sample.valuesOp;
           ToCudf.CudfFromVelox "lp-rr-from-velox";
           ToCudf.Velox Sample.roundRobinOp;
           ToCudf.CudfLocalPartition Sample.hashNode],
          [ToCudf.fallingBack]) /\
  ToCudf.replacementFor Sample.getConnector Sample.isSupportedJoinType
    Sample.initial (Sample.driverFactory false) Sample.roundRobinOp
    = Ok (1%nat, []) /\
  ToCudf.replacementFor Sample.getConnector Sample.isSupportedJoinType
    Sample.initial (Sample.driverFactory false) Sample.hashOp
    = Ok (0%nat, [ToCudf.CudfLocalPartition Sample.hashNode]).
Proof.
  intros operators.
  assert (Hrun : Sample.compile false true operators
                 = Ok (true,
                       [ToCudf.Velox Sample.valuesOp;
                        ToCudf.CudfFromVelox "lp-rr-from-velox";
                        ToCudf.Velox Sample.roundRobinOp;
                        ToCudf.CudfLocalPartition Sample.hashNode],
                       [ToCudf.fallingBack])) by reflexivity.
  split; [exact Hrun |].
  destruct (local_partition_replacement Sample.getConnector
              Sample.isSupportedJoinType Sample.initial
              (Sample.driverFactory false) true operators _ _ _ 1
              Sample.roundRobinOp Sample.roundRobinNode
              ToCudf.RoundRobinPartition Hrun eq_refl eq_refl eq_refl eq_refl)
    as (_ & _ & _ & _ & _ & _ & Hkept & _).
  destruct (local_partition_replacement Sample.getConnector
              Sample.isSupportedJoinType Sample.initial
              (Sample.driverFactory false) true operators _ _ _ 2
              Sample.hashOp Sample.hashNode
              ToCudf.HashPartition Hrun eq_refl eq_refl eq_refl eq_refl)
    as (_ & _ & _ & _ & _ & _ & Hreplaced & _).
  split; [exact Hkept | exact Hreplaced].
Defined.

(** Start 1 with length 3 is the range [0, 3); start 5 without a length is
    the open-ended slice from index 4. *)
Lemma substr_index_translation_witness :
  let slice03 := SubstrFunction (mkScalar 0 true) (mkScalar 3 true)
                   (mkScalar 1 true) in
  let slice4 := SubstrFunction (mkScalar 4 true) (mkScalar 0 false)
                  (mkScalar 1 true) in
  @SubstrFunction_new Sample.Column
    (call "substr" VARCHAR [Sample.c0; literalBigint 1; literalBigint 3])
  = Ok slice03 /\
  @SubstrFunction_new Sample.Column
    (call "substr" VARCHAR [Sample.c0; literalBigint 5])
  = Ok slice4 /\
  CudfFunction_eval Sample.slice_strings slice03 [["hello"]]
  = Sample.slice_strings ["hello"] (mkScalar 0 true) (mkScalar 3 true)
      (mkScalar 1 true) /\
  CudfFunction_eval Sample.slice_strings slice4 [["hello"]]
  = Sample.slice_strings ["hello"] (mkScalar 4 true) (mkScalar 0 false)
      (mkScalar 1 true).
Proof.
  intros slice03 slice4.
  destruct (substr_index_translation Sample.slice_strings "" Sample.c0 VARCHAR
              ["hello"] 1 3 ltac:(lia) ltac:(lia) ltac:(lia))
    as (Hnew13 & _ & Heval13 & _).
  destruct (substr_index_translation Sample.slice_strings "" Sample.c0 VARCHAR
              ["hello"] 5 0 ltac:(lia) ltac:(lia) ltac:(lia))
    as (Hnew5 & _ & _ & Heval5).
  split; [exact (proj1 (Hnew13 "substr")) |].
  split; [exact (proj2 (Hnew5 "substr")) |].
  split; [exact Heval13 | exact Heval5].
Defined.

End Instances.

(** * Concrete instances of the further properties *)

Section MoreInstances.
Import CheckedArithmetic.

Lemma int64_width : 0 < width int64_t.
Proof. reflexivity. Qed.

Lemma int64_inRange z :
  (- 2 ^ 63 <=? z) && (z <=? 2 ^ 63 - 1) = true -> inRange int64_t z.
Proof.
  intros H. apply andb_true_iff in H as [H1 H2].
  apply Z.leb_le in H1, H2. split; assumption.
Qed.

(** The largest 64-bit value plus one overflows; one plus two does not. *)
Lemma checkedPlus_exact_witness :
  checkedPlus int64_t (2 ^ 63 - 1) 1 "bigint"
  = Fatal "bigint overflow: 9223372036854775807 + 1" /\
  checkedPlus int64_t 1 2 "bigint" = Ok 3.
Proof.
  destruct (checkedPlus_exact int64_t (2 ^ 63 - 1) 1 "bigint" int64_width)
    as (_ & Hfail & _).
  destruct (checkedPlus_exact int64_t 1 2 "bigint" int64_width) as (Hok & _).
  split.
  - rewrite Hfail; [reflexivity |].
    intros [_ H]. vm_compute in H. apply H. reflexivity.
  - apply Hok. split; [reflexivity | apply int64_inRange; reflexivity].
Defined.

(** Five minus seven on 64 bits, and back. *)
Lemma checkedMinus_exact_witness :
  checkedMinus int64_t 5 7 "bigint" = Ok (-2) /\
  checkedPlus int64_t (-2) 7 "bigint" = Ok 5.
Proof.
  assert (Hin : inRange int64_t 5) by (apply int64_inRange; reflexivity).
  destruct (checkedMinus_exact int64_t 5 7 "bigint" int64_width Hin)
    as (Hok & _ & _ & Hback).
  assert (Hrun : checkedMinus int64_t 5 7 "bigint" = Ok (-2)).
  { apply Hok. split; [reflexivity | apply int64_inRange; reflexivity]. }
  split; [exact Hrun | exact (Hback (-2) Hrun)].
Defined.

(** The smallest 64-bit value times minus one overflows; six times seven
    does not. *)
Lemma checkedMultiply_exact_witness :
  checkedMultiply int64_t (- 2 ^ 63) (-1) "bigint"
  = Fatal "bigint overflow: -9223372036854775808 * -1" /\
  checkedMultiply int64_t 6 7 "bigint" = Ok 42.
Proof.
  destruct (checkedMultiply_exact int64_t (- 2 ^ 63) (-1) "bigint" int64_width)
    as (_ & _ & _ & Hmin).
  destruct (checkedMultiply_exact int64_t 6 7 "bigint" int64_width)
    as (Hok & _).
  split.
  - exact (Hmin eq_refl).
  - apply Hok. split; [reflexivity | apply int64_inRange; reflexivity].
Defined.

(** Division truncates toward zero, and the smallest value divided by
    minus one raises. *)
Lemma checkedDivide_signed_witness :
  checkedDivide int64_t (-7) 2 = Ok (-3) /\
  checkedDivide int64_t (- 2 ^ 63) (-1)
  = Fatal "integer overflow: -9223372036854775808 / -1".
Proof.
  assert (H7 : inRange int64_t (-7)) by (apply int64_inRange; reflexivity).
  assert (H2 : inRange int64_t 2) by (apply int64_inRange; reflexivity).
  assert (Hmin : inRange int64_t (- 2 ^ 63))
    by (apply int64_inRange; reflexivity).
  assert (H1 : inRange int64_t (-1)) by (apply int64_inRange; reflexivity).
  destruct (checkedDivide_signed int64_t (-7) 2 int64_width eq_refl H7 H2)
    as (_ & _ & Hok & _).
  destruct (checkedDivide_signed int64_t (- 2 ^ 63) (-1) int64_width eq_refl
              Hmin H1) as (_ & Hraise & _).
  split.
  - apply Hok; [lia | intros [_ H]; lia].
  - exact (Hraise eq_refl eq_refl).
Defined.

(** Quotient and remainder of minus seven by two. *)
Lemma checkedDivide_checkedModulus_witness :
  checkedDivide int64_t (-7) 2 = Ok (-3) /\
  exists r, checkedModulus int64_t (-7) 2 = Ok r /\ -7 = 2 * -3 + r.
Proof.
  assert (H7 : inRange int64_t (-7)) by (apply int64_inRange; reflexivity).
  assert (H2 : inRange int64_t 2) by (apply int64_inRange; reflexivity).
  assert (Hrun : checkedDivide int64_t (-7) 2 = Ok (-3)) by reflexivity.
  split; [exact Hrun |].
  destruct (checkedDivide_checkedModulus int64_t (-7) 2 (-3) int64_width
              eq_refl H7 H2 Hrun) as (r & Hr & Heq & _).
  exists r. split; assumption.
Defined.

(** Negating five, and the smallest value. *)
Lemma checkedNegate_spec_witness :
  checkedNegate int64_t 5 = Ok (-5) /\
  checkedNegate int64_t (- 2 ^ 63) = Fatal "Cannot negate minimum value".
Proof.
  assert (H5 : inRange int64_t 5) by (apply int64_inRange; reflexivity).
  assert (Hmin : inRange int64_t (- 2 ^ 63))
    by (apply int64_inRange; reflexivity).
  destruct (checkedNegate_spec int64_t 5 "bigint" int64_width H5)
    as (_ & _ & Hok & _).
  destruct (checkedNegate_spec int64_t (- 2 ^ 63) "bigint" int64_width Hmin)
    as (Hraise & _).
  split.
  - apply Hok; [reflexivity | discriminate].
  - exact (Hraise eq_refl).
Defined.

(** On unsigned 32 bits the largest value compares equal to minus one:
    seven modulo it is reported as zero. *)
Lemma unsigned_minus_one_guard_witness :
  checkedModulus uint32_t 7 (2 ^ 32 - 1) = Ok 0 /\
  Z.rem 7 (2 ^ 32 - 1) = 7.
Proof.
  assert (Hin : inRange uint32_t 7) by (split; discriminate).
  destruct (unsigned_minus_one_guard uint32_t 7 eq_refl ltac:(discriminate)
              Hin) as (_ & Hzero & Hrem & _).
  split; [exact Hzero |].
  apply Hrem. split; reflexivity.
Defined.

Import ExpressionEvaluator.

(** With only the built-in strategy, a cast cannot be evaluated. *)
Lemma default_strategy_feasibility_witness :
  let expr := TypedExprNode kCast "" [TypedExprNode kFieldAccess "c0" []] in
  fst (canBeEvaluatedByCudf Sample.initial expr) = false.
Proof.
  intros expr.
  destruct (default_strategy_feasibility Sample.initial expr eq_refl eq_refl)
    as (_ & Hcast & _).
  apply (Hcast expr); left; reflexivity.
Defined.

(** The node built for [substr(c0, 1, 2)] has one child, the one built for
    [c0]; the literals have none. *)
Lemma FunctionExpression_create_children_witness :
  let registry := [("function", @builtinFunctionEvaluator Sample.Column)] in
  let expr := call "substr" VARCHAR
                [Sample.c0; literalBigint 1; literalBigint 2] in
  let child := FunctionExpression Sample.c0 Sample.schema None [] in
  nonLiteralInputs expr = [Sample.c0] /\
  createCudfExpressionIn registry Sample.functions Sample.c0 Sample.schema None
  = Ok (Some child).
Proof.
  intros registry expr child.
  assert (Hrun : FunctionExpression_create registry Sample.functions expr
                   Sample.schema
                 = Ok (Some (FunctionExpression expr Sample.schema
                               (Some (SubstrFunction (mkScalar 0 true)
                                        (mkScalar 2 true) (mkScalar 1 true)))
                               [Some child]))) by reflexivity.
  destruct (FunctionExpression_create_children registry Sample.functions expr
              Sample.schema _ _ Hrun) as (Hchildren & _).
  split; [reflexivity |].
  change (nonLiteralInputs expr) with [Sample.c0] in Hchildren.
  inversion Hchildren; subst. assumption.
Defined.

(** The column [c1] is read at position 1. *)
Lemma fieldReference_roundtrip_witness :
  let columns := [["a"; "b"]; ["1"; "2"]] in
  Sample.functions !! "c1" = None /\
  Sample.eval (FunctionExpression Sample.c1 Sample.schema None []) columns true
  = Ok ["1"; "2"].
Proof.
  intros columns.
  assert (Hfree : Sample.functions !! "c1" = None) by reflexivity.
  destruct (fieldReference_roundtrip Sample.veloxToCudfTypeId
              Sample.data_type_eqb Sample.columnType Sample.cudf_cast
              Sample.slice_strings [] Sample.functions "c1" BIGINT
              Sample.schema Hfree) as (_ & Hread & _).
  split; [exact Hfree |].
  exact (proj2 (Hread 1%nat ["1"; "2"] columns true eq_refl eq_refl)).
Defined.

(** A column named like the registered function [substr]. *)
Lemma fieldReference_named_like_function_witness :
  Sample.functions !! "substr" = Some substrFactory /\
  FunctionExpression_create [] Sample.functions
    (fieldReference "substr" VARCHAR) ["substr"]
  = Fatal "(0 vs. 2) substr expects at least 2 inputs".
Proof.
  assert (Hf : Sample.functions !! "substr" = Some substrFactory)
    by reflexivity.
  split; [exact Hf |].
  exact (fieldReference_named_like_function [] Sample.functions "substr"
           VARCHAR ["substr"] Hf).
Defined.

(** [substr(c0, -2, 5)]: the start is passed on as it is. *)
Lemma SubstrFunction_new_nonpositive_start_witness :
  @SubstrFunction_new Sample.Column
    (call "substr" VARCHAR [Sample.c0; literalBigint (-2); literalBigint 5])
  = Ok (SubstrFunction (mkScalar (-2) true) (mkScalar 3 true)
          (mkScalar 1 true)).
Proof.
  destruct (@SubstrFunction_new_nonpositive_start Sample.Column "substr"
              VARCHAR Sample.c0 (-2) 5 ltac:(lia) ltac:(lia) ltac:(lia))
    as (Hthree & _).
  exact Hthree.
Defined.

(** [substr(c0, 2, 3)] compiled from the initial registries and evaluated
    on two columns. *)
Lemma substr_compile_and_evaluate_witness :
  let expr := call "substr" VARCHAR
                [Sample.c0; literalBigint 2; literalBigint 3] in
  let columns := [["hello"]; ["7"]] in
  exists node,
    fst (createCudfExpression Sample.initial expr Sample.schema None)
    = Ok (Some node) /\
    Sample.eval node columns false
    = Sample.slice_strings ["hello"] (mkScalar 1 true) (mkScalar 4 true)
        (mkScalar 1 true).
Proof.
  intros expr columns.
  destruct (substr_compile_and_evaluate Sample.veloxToCudfTypeId
              Sample.data_type_eqb Sample.columnType Sample.cudf_cast
              Sample.slice_strings Sample.initial "substr" "c0" VARCHAR VARCHAR
              Sample.schema 2 3 0%nat ["hello"] columns
              eq_refl eq_refl eq_refl eq_refl ltac:(discriminate)
              eq_refl eq_refl ltac:(lia) ltac:(lia) ltac:(lia))
    as (Hcreate & Heval).
  eexists. split; [exact Hcreate | exact Heval].
Defined.

(** [Values] followed by [OrderBy]: the from-velox adapter comes right
    before the counterpart of [OrderBy]. *)
Lemma fromVelox_adapter_placement_witness :
  let operators := [Sample.valuesOp; Sample.orderByOp] in
  Sample.compile false true operators
    = Ok (true, [ToCudf.Velox Sample.valuesOp;
                 ToCudf.CudfFromVelox "orderby-from-velox";
                 ToCudf.CudfOrderBy Sample.orderByNode], []) /\
  exists plan,
    ToCudf.planOperator Sample.getConnector Sample.isSupportedJoinType
      Sample.initial (Sample.driverFactory false) [false; true] 2 1
      Sample.orderByOp = Ok plan /\
    ToCudf.adapterBefore plan = [ToCudf.CudfFromVelox "orderby-from-velox"].
Proof.
  intros operators.
  assert (Hrun : Sample.compile false true operators
                 = Ok (true, [ToCudf.Velox Sample.valuesOp;
                              ToCudf.CudfFromVelox "orderby-from-velox";
                              ToCudf.CudfOrderBy Sample.orderByNode], []))
    by reflexivity.
  split; [exact Hrun |].
  destruct (fromVelox_adapter_placement Sample.getConnector
              Sample.isSupportedJoinType Sample.initial
              (Sample.driverFactory false) true operators _ _ _ 1
              Sample.orderByOp Hrun eq_refl)
    as (supported & plans & plan & main & Hclass & Hplans & Hp & _ & _ & _
        & Hbefore).
  assert (supported = [false; true]) as -> by (inversion Hclass; reflexivity).
  cbn in Hbefore. destruct Hbefore as (accepts & Hacc & Hadapter).
  assert (accepts = true) as -> by (inversion Hacc; reflexivity).
  destruct Hadapter as (node & Hnode & Hadapter).
  assert (node = Sample.orderByNode) as -> by (inversion Hnode; reflexivity).
  exists plan. split; [| exact Hadapter].
  cbn in Hplans. inversion Hplans; subst plans.
  inversion Hp; subst plan. reflexivity.
Defined.

(** Two operators give three: one adapter and one operator for each. *)
Lemma compile_bookkeeping_witness :
  let operators := [Sample.valuesOp; Sample.orderByOp] in
  let compiled := [ToCudf.Velox Sample.valuesOp;
                   ToCudf.CudfFromVelox "orderby-from-velox";
                   ToCudf.CudfOrderBy Sample.orderByNode] in
  Sample.compile false true operators = Ok (true, compiled, []) /\
  length (List.filter (fun d => negb (ToCudf.isAdapter d)) compiled)
  = length operators.
Proof.
  intros operators compiled.
  assert (Hrun : Sample.compile false true operators
                 = Ok (true, compiled, [])) by reflexivity.
  split; [exact Hrun |].
  exact (proj1 (compile_bookkeeping Sample.getConnector
                  Sample.isSupportedJoinType Sample.initial
                  (Sample.driverFactory false) true operators _ _ _ Hrun)).
Defined.

(** A driver that holds only a [Values] operator is left as it is. *)
Lemma compile_flag_iff_changed_witness :
  let operators := [Sample.valuesOp] in
  Sample.compile false false operators
    = Ok (false, [ToCudf.Velox Sample.valuesOp], []) /\
  (false = false <->
   [ToCudf.Velox Sample.valuesOp] = map ToCudf.Velox operators).
Proof.
  intros operators.
  assert (Hrun : Sample.compile false false operators
                 = Ok (false, [ToCudf.Velox Sample.valuesOp], []))
    by reflexivity.
  split; [exact Hrun |].
  exact (proj2 (compile_flag_iff_changed Sample.getConnector
                  Sample.isSupportedJoinType Sample.initial
                  (Sample.driverFactory false) false operators _ _ _ Hrun)).
Defined.

(** [OrderBy] followed by a hash local partition: the two counterparts are
    neighbours. *)
Lemma adjacent_eligible_operators_share_no_adapter_witness :
  let operators := [Sample.orderByOp; Sample.hashOp] in
  Sample.compile false false operators
    = Ok (true, [ToCudf.CudfOrderBy Sample.orderByNode;
                 ToCudf.CudfLocalPartition Sample.hashNode], []) /\
  exists planFirst planSecond mainFirst mainSecond,
    ToCudf.adapterAfter planFirst = [] /\
    ToCudf.adapterBefore planSecond = [] /\
    ToCudf.mainOf Sample.orderByOp planFirst = [mainFirst] /\
    ToCudf.mainOf Sample.hashOp planSecond = [mainSecond].
Proof.
  intros operators.
  assert (Hrun : Sample.compile false false operators
                 = Ok (true, [ToCudf.CudfOrderBy Sample.orderByNode;
                              ToCudf.CudfLocalPartition Sample.hashNode], []))
    by reflexivity.
  split; [exact Hrun |].
  destruct (adjacent_eligible_operators_share_no_adapter Sample.getConnector
              Sample.isSupportedJoinType Sample.initial
              (Sample.driverFactory false) false operators _ _ _ 0
              Sample.orderByOp Sample.hashOp Hrun eq_refl eq_refl eq_refl
              eq_refl)
    as (supported & plans & p1 & p2 & m1 & m2 & _ & _ & _ & Hafter
        & Hbefore & Hm1 & Hm2 & _).
  exists p1, p2, m1, m2. auto.
Defined.

(** [Values] then [TopN]: the check fails for [TopN], so the compilation
    without the fallback raises. *)
Lemma fallback_check_characterisation_witness :
  let operators := [Sample.valuesOp; Sample.topNOp] in
  Sample.compile true false operators = Fatal ToCudf.replacementFailed.
Proof.
  intros operators.
  pose (plans := [ToCudf.mkPlan [] 1 [] [] true; ToCudf.mkPlan [] 1 [] [] false]).
  destruct (fallback_check_characterisation Sample.getConnector
              Sample.isSupportedJoinType Sample.initial
              (Sample.driverFactory true) operators [false; false] plans
              eq_refl eq_refl) as (_ & Hraise & _).
  apply Hraise. exists 1%nat, (ToCudf.mkPlan [] 1 [] [] false).
  split; reflexivity.
Defined.

(** A table scan of the cuDF connector followed by the sink: the scan is
    kept and gets a to-velox adapter, which fails the check. *)
Lemma kept_gpu_producer_needs_fallback_witness :
  let operators := [JoinSample.scanOp; JoinSample.sinkOp] in
  JoinSample.compile false operators = Fatal ToCudf.replacementFailed /\
  JoinSample.compile true operators
  = Ok (true, [ToCudf.Velox JoinSample.scanOp;
               ToCudf.CudfToVelox "scan-to-velox";
               ToCudf.Velox JoinSample.sinkOp], [ToCudf.fallingBack]).
Proof.
  intros operators.
  pose (plans := [ToCudf.mkPlan [] 1 [] [ToCudf.CudfToVelox "scan-to-velox"]
                    false;
                  ToCudf.mkPlan [] 1 [] [] true]).
  destruct (kept_gpu_producer_needs_fallback Sample.getConnector
              Sample.isSupportedJoinType Sample.initial
              JoinSample.driverFactory operators [true; false] plans 0
              JoinSample.scanOp eq_refl eq_refl eq_refl
              (or_intror eq_refl) eq_refl)
    as (node & _ & _ & _ & Hraise & Hrun & _).
  split; [exact Hraise | exact Hrun].
Defined.

(** [OrderBy] is eligible whatever the plan holds. *)
Lemma unconditional_counterparts_witness :
  ToCudf.isSupportedGpuOperator Sample.getConnector Sample.isSupportedJoinType
    Sample.initial (Sample.driverFactory false) Sample.orderByOp = Ok true /\
  exists before after,
    ToCudf.planOperator Sample.getConnector Sample.isSupportedJoinType
      Sample.initial (Sample.driverFactory false) [true] 1 0 Sample.orderByOp
    = Ok (ToCudf.mkPlan before 0 [ToCudf.CudfOrderBy Sample.orderByNode]
            after true).
Proof.
  destruct (unconditional_counterparts Sample.getConnector
              Sample.isSupportedJoinType Sample.initial
              (Sample.driverFactory false) [true] 1 0 Sample.orderByOp
              Sample.orderByNode eq_refl eq_refl)
    as (Heligible & _ & _ & Hplan).
  split; [exact Heligible | exact Hplan].
Defined.

(** A projection of [substr(c0, literal)] can be evaluated, so its
    operator is eligible. *)
Lemma filterProject_plan_witness :
  ToCudf.isSupportedGpuOperator Sample.getConnector Sample.isSupportedJoinType
    Sample.initial JoinSample.driverFactory JoinSample.projectOp = Ok true /\
  exists before after,
    ToCudf.planOperator Sample.getConnector Sample.isSupportedJoinType
      Sample.initial JoinSample.driverFactory [true] 1 0 JoinSample.projectOp
    = Ok (ToCudf.mkPlan before 0
            [ToCudf.CudfFilterProject None (Some JoinSample.projectNode)]
            after true).
Proof.
  destruct (filterProject_plan Sample.getConnector
              Sample.isSupportedJoinType Sample.initial
              JoinSample.driverFactory [true] 1 0 JoinSample.projectOp
              JoinSample.projectNode eq_refl eq_refl)
    as (Heligible & _ & _ & Hplan).
  split; [exact Heligible | exact Hplan].
Defined.

(** The build side of an inner join is eligible, and no to-velox adapter
    follows its counterpart. *)
Lemma hashJoin_plan_witness :
  ToCudf.isSupportedGpuOperator Sample.getConnector Sample.isSupportedJoinType
    Sample.initial JoinSample.driverFactory JoinSample.buildOp = Ok true /\
  exists before,
    ToCudf.planOperator Sample.getConnector Sample.isSupportedJoinType
      Sample.initial JoinSample.driverFactory [true; false] 2 0
      JoinSample.buildOp
    = Ok (ToCudf.mkPlan before 0
            [ToCudf.CudfHashJoinBuild JoinSample.joinNode] [] true).
Proof.
  destruct (hashJoin_plan Sample.getConnector
              Sample.isSupportedJoinType Sample.initial
              JoinSample.driverFactory [true; false] 2 0 JoinSample.buildOp
              JoinSample.joinNode eq_refl eq_refl)
    as (Heligible & _ & _ & before & after & Hplan & Hbuild).
  split; [exact Heligible |].
  exists before. rewrite (Hbuild eq_refl) in Hplan. exact Hplan.
Defined.

End MoreInstances.
